(** * Pachi: the Elo playout policy (playout/elo.c) and the UCT engine
      front end (uct/uct.c), embedded shallowly.

    C [float] and [double] values are IEEE-754 binary32 and binary64 numbers,
    taken from the Standard Library's [SpecFloat] (round to nearest even,
    one NaN).  C [int]s that only count are [Z].  Functions of the
    repository that the two files call but do not define (board rules,
    pattern matcher, tree operations, selection policy) are Section
    variables, so every theorem holds for any implementation of them. *)

From Stdlib Require Import ZArith List Bool Lia Zpower Permutation.
From Stdlib Require Import Floats.SpecFloat.
Import ListNotations.
Open Scope Z_scope.
Set Warnings "-register-all".

(* ================================================================== *)
(** ** Floating point *)

(** C [float]. *)
Module F32.
Definition prec : Z := 24.
Definition emax : Z := 128.
Definition t := spec_float.
Definition zero : t := S754_zero false.
Definition one : t := Eval cbv in SFone prec emax.
Definition of_Z (n : Z) : t := binary_normalize prec emax n 0 false.
Definition add : t -> t -> t := SFadd prec emax.
Definition sub : t -> t -> t := SFsub prec emax.
Definition mul : t -> t -> t := SFmul prec emax.
Definition div : t -> t -> t := SFdiv prec emax.
(** Rounding of a wider value to [float] (an assignment of a [double]). *)
Definition round (x : spec_float) : t :=
  match x with
  | S754_finite s m e => binary_round prec emax s m e
  | _ => x
  end.
End F32.

(** C [double]. *)
Module F64.
Definition prec : Z := 53.
Definition emax : Z := 1024.
Definition t := spec_float.
Definition zero : t := S754_zero false.
Definition of_Z (n : Z) : t := binary_normalize prec emax n 0 false.
Definition add : t -> t -> t := SFadd prec emax.
Definition sub : t -> t -> t := SFsub prec emax.
Definition mul : t -> t -> t := SFmul prec emax.
Definition div : t -> t -> t := SFdiv prec emax.
(** A decimal literal [n / d], correctly rounded. *)
Definition lit (n d : Z) : t := div (of_Z n) (of_Z d).
(** The promotion of a [float] operand that meets a [double]: the same
    number, written with the mantissa and exponent of the wider format
    (every [float] is a [double], so nothing is rounded off). *)
Definition of_float (x : spec_float) : t :=
  match x with
  | S754_finite s m e => binary_round prec emax s m e
  | _ => x
  end.
End F64.

(** Comparisons of two operands of one format.  [SFcompare] looks at the
    exponents before the mantissas, so it orders two numbers by value only
    when both are written in the same format: a [float] compared with a
    [double] is promoted with [F64.of_float] first, as C does. *)
Definition fltb : spec_float -> spec_float -> bool := SFltb.
Definition fleb : spec_float -> spec_float -> bool := SFleb.
Definition fgtb (x y : spec_float) : bool := SFltb y x.
Definition fgeb (x y : spec_float) : bool := SFleb y x.

(** C's [isfinite]. *)
Definition is_finite (x : spec_float) : bool :=
  match x with
  | S754_zero _ | S754_finite _ _ _ => true
  | S754_infinity _ | S754_nan => false
  end.

Definition is_nan (x : spec_float) : bool :=
  match x with S754_nan => true | _ => false end.

(** [0 <= x <= 1], false for NaN. *)
Definition in_unit_interval (x : spec_float) : bool :=
  fleb F32.zero x && fleb x F32.one.

(* ================================================================== *)
(** ** Moves, stones, board *)

(** Modelled from the spec: move.h is not part of the two files.  "A
    distinguished pass value and resign value exist.  Points are addressed
    by linear index." *)
Inductive coord_t : Type :=
| pass
| resign
| point (i : Z).

Definition coord_eqb (a b : coord_t) : bool :=
  match a, b with
  | pass, pass | resign, resign => true
  | point i, point j => i =? j
  | _, _ => false
  end.

Definition is_pass (c : coord_t) : bool := coord_eqb c pass.
Definition is_resign (c : coord_t) : bool := coord_eqb c resign.

(** [enum stone]; the numbering is the one [dynkomi_mask] relies on
    ("dynkomi_mask=3 to allow dynkomi even in games where Pachi is white",
    the default mask being [S_BLACK]). *)
Inductive stone : Type := S_NONE | S_BLACK | S_WHITE | S_OFFBOARD.

Definition stone_code (s : stone) : Z :=
  match s with S_NONE => 0 | S_BLACK => 1 | S_WHITE => 2 | S_OFFBOARD => 3 end.

Definition stone_eqb (a b : stone) : bool := stone_code a =? stone_code b.

Definition stone_other (s : stone) : stone :=
  match s with
  | S_BLACK => S_WHITE
  | S_WHITE => S_BLACK
  | other => other
  end.

Record move : Type := { m_coord : coord_t; m_color : stone }.

(** The fields of [struct board] the two files read or write.  [b_f] is
    the live part of the free-point array, [flen] its length; [es] is the
    engine-state pointer, compared only for identity. *)
Record board : Type := {
  b_size : Z;
  b_size2 : Z;
  b_f : list coord_t;
  b_moves : Z;
  b_last_move : move;
  b_superko_violation : bool;
  b_es : option nat
}.

Definition flen (b : board) : Z := Z.of_nat (length (b_f b)).

(** [b->f[i]] for a C [int] index; [None] is a read outside the array. *)
Definition f_at (b : board) (i : Z) : option coord_t :=
  if i <? 0 then None else nth_error (b_f b) (Z.to_nat i).

(* ================================================================== *)
(** ** ProbDist *)

(** Modelled from the spec: probdist.h is not part of the two files.  "A
    structure of length flen holding non-negative weights w[i]; supports
    set(i, w), total(), pick()", with "sum_i w[i] == total()".  [pick] stays
    a parameter of the policy below. *)
Record probdist : Type := { pd_items : list F32.t }.

Definition probdist_init (n : Z) : probdist :=
  {| pd_items := repeat F32.zero (Z.to_nat n) |}.

Fixpoint list_set {A} (l : list A) (i : nat) (v : A) : list A :=
  match l, i with
  | [], _ => []
  | _ :: r, O => v :: r
  | x :: r, S k => x :: list_set r k v
  end.

Definition probdist_set (pd : probdist) (i : Z) (val : F32.t) : probdist :=
  if i <? 0 then pd else {| pd_items := list_set (pd_items pd) (Z.to_nat i) val |}.

Definition probdist_one (pd : probdist) (i : Z) : F32.t :=
  if i <? 0 then F32.zero else nth (Z.to_nat i) (pd_items pd) F32.zero.

Definition probdist_total (pd : probdist) : F32.t :=
  fold_left F32.add (pd_items pd) F32.zero.

(* ================================================================== *)
(** ** playout/elo.c *)

Module Elo.
Section Policy.

(** board.h, pattern.h: the rule engine and the pattern matcher. *)
Variable board_is_valid_move : board -> move -> bool.
Variable board_is_one_point_eye : board -> coord_t -> stone -> bool.
Context {pattern_spec pattern_config feature features_gamma : Type}.
(** [pattern_match] fills a [struct pattern] with [n] features [f[0..n-1]]. *)
Variable pattern_match :
  pattern_config -> pattern_spec -> board -> move -> list feature.
Variable feature_gamma : features_gamma -> feature -> F32.t.
(** probdist.h: the index drawn from a distribution; the random draw is
    part of the parameter. *)
Variable probdist_pick : probdist -> Z.

Record patternset : Type := {
  ps : pattern_spec;
  pc : pattern_config;
  fg : features_gamma
}.

Record elo_policy : Type := {
  selfatari : F32.t;
  choose : patternset;
  assess : patternset
}.

(** The inner loop: [g *= gamma] over the matched features. *)
Definition team_gamma (pset : patternset) (b : board) (m : move) : F32.t :=
  fold_left (fun g ft => F32.mul g (feature_gamma (fg pset) ft))
            (pattern_match (pc pset) (ps pset) b m) F32.one.

(** The three tests that send a point to [skip_move]. *)
Definition skipped (b : board) (to_play : stone) (c : coord_t) : bool :=
  let m := {| m_coord := c; m_color := to_play |} in
  if is_pass c then true
  else if negb (board_is_valid_move b m) then true
  else board_is_one_point_eye b c to_play.

(** One turn of the [for] loop at index [f], where [b->f[f]] is [c]. *)
Definition elo_point (pset : patternset) (b : board) (to_play : stone)
           (f : Z) (c : coord_t) (st : probdist * Z) : probdist * Z :=
  let '(pd, moves) := st in
  let m := {| m_coord := c; m_color := to_play |} in
  if skipped b to_play c then (probdist_set pd f F32.zero, moves)
  else (probdist_set pd f (team_gamma pset b m), moves + 1).

(** The loop from index [f] on, over the free points not yet visited. *)
Fixpoint elo_points (pset : patternset) (b : board) (to_play : stone)
         (rest : list coord_t) (f : Z) (st : probdist * Z) : probdist * Z :=
  match rest with
  | [] => st
  | c :: rest' =>
      elo_points pset b to_play rest' (f + 1) (elo_point pset b to_play f c st)
  end.

(** Returns the distribution written through [pd] and the count [moves]. *)
Definition elo_get_probdist (pset : patternset) (b : board) (to_play : stone)
  : probdist * Z :=
  elo_points pset b to_play (b_f b) 0 (probdist_init (flen b), 0).

(** [None]: the index picked lies outside [b->f]. *)
Definition playout_elo_choose (pp : elo_policy) (b : board) (to_play : stone)
  : option coord_t :=
  let pd := fst (elo_get_probdist (choose pp) b to_play) in
  let f := probdist_pick pd in
  f_at b f.

(** uct/prior.h: the map handed to [assess]; [add_prior_value] touches
    only the per-point prior store. *)
Context {prior_store : Type}.
Variable add_prior_value : prior_store -> coord_t -> F32.t -> Z -> prior_store.

Record prior_map : Type := {
  pm_b : board;
  pm_to_play : stone;
  pm_consider : coord_t -> bool;
  pm_prior : prior_store
}.

Definition assess_point (pd : probdist) (consider : coord_t -> bool) (games : Z)
           (f : Z) (c : coord_t) (store : prior_store) : prior_store :=
  if negb (consider c) then store
  else add_prior_value store c
         (F32.div (probdist_one pd f) (probdist_total pd)) games.

Fixpoint assess_points (pd : probdist) (consider : coord_t -> bool) (games : Z)
         (rest : list coord_t) (f : Z) (store : prior_store) : prior_store :=
  match rest with
  | [] => store
  | c :: rest' =>
      assess_points pd consider games rest' (f + 1)
                    (assess_point pd consider games f c store)
  end.

Definition playout_elo_assess (pp : elo_policy) (map : prior_map) (games : Z)
  : prior_map :=
  let pd := fst (elo_get_probdist (assess pp) (pm_b map) (pm_to_play map)) in
  {| pm_b := pm_b map;
     pm_to_play := pm_to_play map;
     pm_consider := pm_consider map;
     pm_prior := assess_points pd (pm_consider map) games
                               (b_f (pm_b map)) 0 (pm_prior map) |}.

(** The weight the policy assigns to a free point. *)
Definition elo_weight (pset : patternset) (b : board) (to_play : stone)
           (c : coord_t) : F32.t :=
  if skipped b to_play c then F32.zero
  else team_gamma pset b {| m_coord := c; m_color := to_play |}.

(** The calls [assess] makes, in order: point and value. *)
Fixpoint prior_calls (pd : probdist) (consider : coord_t -> bool)
         (rest : list coord_t) (f : Z) : list (coord_t * F32.t) :=
  match rest with
  | [] => []
  | c :: rest' =>
      let tl := prior_calls pd consider rest' (f + 1) in
      if consider c
      then (c, F32.div (probdist_one pd f) (probdist_total pd)) :: tl
      else tl
  end.

End Policy.
End Elo.

(* ================================================================== *)
(** ** Tree data (uct/tree.h) *)

(** Modelled from the spec: uct/tree.h is not part of the two files.
    "u: playout statistics (playouts, value: f32)", "amaf: statistics with
    the same shape", "prior", "children form a singly-linked sibling list
    ordered by insertion". *)
Record move_stats : Type := { playouts : Z; value : F32.t }.

(** Modelled from the spec: [struct tree_node] of uct/tree.h.  "coord: the
    move that produced this node, or pass at root", the three statistics,
    and the children in the order of the sibling list. *)
Inductive tree_node : Type :=
  Node { coord : coord_t;
         u : move_stats;
         amaf : move_stats;
         prior : move_stats;
         children : list tree_node }.

(** Modelled from the spec: [struct tree] of uct/tree.h, with the fields
    uct.c reads: "the current root, the root-side colour, a shared
    extra_komi, and counters nodes_size". *)
Record tree : Type := {
  root : tree_node;
  root_color : stone;
  extra_komi : F32.t;
  nodes_size : Z
}.

(** A [struct tree_node *] into a tree: the child positions from the root
    down.  Two pointers into one tree are equal iff the paths are. *)
Definition node_ptr : Type := list nat.

Fixpoint node_at (n : tree_node) (p : node_ptr) : option tree_node :=
  match p with
  | [] => Some n
  | i :: p' =>
      match nth_error (children n) i with
      | Some c => node_at c p'
      | None => None
      end
  end.

Definition ptr_eqb (p q : node_ptr) : bool :=
  if list_eq_dec Nat.eq_dec p q then true else false.

Definition set_coord (n : tree_node) (c : coord_t) : tree_node :=
  {| coord := c; u := u n; amaf := amaf n; prior := prior n;
     children := children n |}.

Definition set_children (n : tree_node) (cs : list tree_node) : tree_node :=
  {| coord := coord n; u := u n; amaf := amaf n; prior := prior n;
     children := cs |}.

(** [p->coord = c] for a pointer [p] into the tree under [n]. *)
Fixpoint node_set_coord (n : tree_node) (p : node_ptr) (c : coord_t) : tree_node :=
  match p with
  | [] => set_coord n c
  | i :: p' =>
      match nth_error (children n) i with
      | Some ch => set_children n (list_set (children n) i (node_set_coord ch p' c))
      | None => n
      end
  end.

(** No node of the tree under [n] stands for a resignation: tree nodes are
    made for moves, and for pass. *)
Fixpoint no_resign (n : tree_node) : bool :=
  match n with
  | Node c _ _ _ ch => negb (is_resign c) && forallb no_resign ch
  end.

Definition set_root (t : tree) (r : tree_node) : tree :=
  {| root := r; root_color := root_color t; extra_komi := extra_komi t;
     nodes_size := nodes_size t |}.

Definition set_extra_komi (t : tree) (k : F32.t) : tree :=
  {| root := root t; root_color := root_color t; extra_komi := k;
     nodes_size := nodes_size t |}.

(* ================================================================== *)
(** ** uct/uct.c: constants, engine state, outcomes *)

Module Uct.

Definition MC_GAMES : Z := 80000.
Definition GJ_THRES : F64.t := F64.lit 8 10.
Definition GJ_MINGAMES : Z := 500.
Definition TREE_BUSYWAIT_INTERVAL : F64.t := F64.lit 1 10.
Definition MAX_MAIN_TIME_EXTENSION : F64.t := F64.of_Z 3.
Definition MAX_BYOYOMI_TIME_EXTENSION : F64.t := F64.lit 11 10.
Definition TREE_SIMPROGRESS_INTERVAL : Z := 10000.

(** [struct board_ownermap]: the playout counter and, per point, the
    counters per colour. *)
Record board_ownermap : Type := { om_playouts : Z; om_map : list (list Z) }.

(** [memset(map, 0, n * sizeof(map[0]))]. *)
Fixpoint zero_prefix (n : nat) (m : list (list Z)) : list (list Z) :=
  match n, m with
  | O, _ => m
  | S k, row :: rest => List.map (fun _ => 0) row :: zero_prefix k rest
  | S _, [] => []
  end.

Inductive thread_model_t : Type := TM_ROOT | TM_TREE | TM_TREEVL.

(** What goes to stderr. *)
Inductive msg : Type :=
| MsgFreshBoard
| MsgFatalNonAlternating (color root_color : stone)
| MsgSuperkoViolation
| MsgPreSimulated (games : Z)
| MsgDesiredTime
| MsgProgress (games : Z)
| MsgMemoryLimit
| MsgBestNotWinner
| MsgTreeDump
| MsgWinner (c : coord_t)
| MsgWillPass
| MsgPonderStart
| MsgPonderStop
| MsgGenmoveTime
| MsgSpawned (tid : Z)
| MsgJoined (tid : Z).

(** How a call ends.  [Exited]: [exit(status)] with the output so far.
    [Aborted]: a failed [assert].  [Undefined]: a dangling pointer or a read
    of the inactive member of a union.  [Pending]: the call has not returned
    within the observations supplied. *)
Inductive outcome (A : Type) : Type :=
| Done (a : A)
| Exited (status : Z) (out : list msg)
| Aborted (out : list msg)
| Undefined
| Pending.
Arguments Done {A} a.
Arguments Exited {A} status out.
Arguments Aborted {A} out.
Arguments Undefined {A}.
Arguments Pending {A}.

Definition obind {A B} (x : outcome A) (k : A -> outcome B) : outcome B :=
  match x with
  | Done a => k a
  | Exited s o => Exited s o
  | Aborted o => Aborted o
  | Undefined => Undefined
  | Pending => Pending
  end.

Notation "x <- c ;; k" := (obind c (fun x => k))
  (at level 61, c at next level, right associativity).
Notation "' p <- c ;; k" := (obind c (fun p => k))
  (at level 61, p pattern, c at next level, right associativity).

Section Engine.

(** debug.h: [DEBUGL_(level, n)]. *)
Variable DEBUGL_ : Z -> Z -> bool.

(** uct/internal.h: the selection policy's entry points.  [winner] and
    [evaluate] may be null. *)
Record uct_policy : Type := {
  pol_choose : tree_node -> board -> stone -> option node_ptr;
  pol_winner : option (tree -> tree_node -> option node_ptr);
  pol_evaluate : bool
}.

Context {playout_policy uct_prior : Type}.

(** The fields of [struct uct] that uct.c reads or writes in the
    functions below. *)
Record uct : Type := {
  u_id : nat;
  debug_level : Z;
  dumpthres : Z;
  max_tree_size : Z;
  fast_alloc : bool;
  force_seed : Z;
  no_book : bool;
  dynkomi : Z;
  dynkomi_mask : Z;
  threads : Z;
  thread_model : thread_model_t;
  parallel_tree : bool;
  pondering_opt : bool;
  pass_all_alive : bool;
  fuseki_end : Z;
  yose_start : Z;
  resign_ratio : F32.t;
  loss_threshold : F32.t;
  policy : option uct_policy;
  random_policy : option uct_policy;
  random_policy_chance : Z;
  playout : option playout_policy;
  u_prior : option uct_prior;
  (* run-time state *)
  pondering : bool;
  u_t : option tree;
  ownermap : board_ownermap
}.

Definition UDEBUGL (us : uct) (n : Z) : bool := DEBUGL_ (debug_level us) n.

Definition with_run (us : uct) (pond : bool) (t' : option tree)
           (om : board_ownermap) : uct :=
  {| u_id := u_id us; debug_level := debug_level us; dumpthres := dumpthres us;
     max_tree_size := max_tree_size us; fast_alloc := fast_alloc us;
     force_seed := force_seed us; no_book := no_book us;
     dynkomi := dynkomi us; dynkomi_mask := dynkomi_mask us;
     threads := threads us; thread_model := thread_model us;
     parallel_tree := parallel_tree us; pondering_opt := pondering_opt us;
     pass_all_alive := pass_all_alive us; fuseki_end := fuseki_end us;
     yose_start := yose_start us; resign_ratio := resign_ratio us;
     loss_threshold := loss_threshold us; policy := policy us;
     random_policy := random_policy us;
     random_policy_chance := random_policy_chance us;
     playout := playout us; u_prior := u_prior us;
     pondering := pond; u_t := t'; ownermap := om |}.

Definition set_t (us : uct) (t' : option tree) : uct :=
  with_run us (pondering us) t' (ownermap us).
Definition set_ownermap (us : uct) (om : board_ownermap) : uct :=
  with_run us (pondering us) (u_t us) om.
Definition set_pondering (us : uct) (p : bool) : uct :=
  with_run us p (u_t us) (ownermap us).

(** The process: engine state, stderr, and the flag
    [thread_manager_running]. *)
Record world : Type := {
  w_u : uct;
  w_out : list msg;
  w_running : bool
}.

Definition put_u (w : world) (us : uct) : world :=
  {| w_u := us; w_out := w_out w; w_running := w_running w |}.
Definition say (w : world) (m : msg) : world :=
  {| w_u := w_u w; w_out := w_out w ++ [m]; w_running := w_running w |}.
Definition say_if (c : bool) (w : world) (m : msg) : world :=
  if c then say w m else w.
Definition put_running (w : world) (r : bool) : world :=
  {| w_u := w_u w; w_out := w_out w; w_running := r |}.

(** [assert(c)]. *)
Definition assert (c : bool) (w : world) : outcome unit :=
  if c then Done tt else Aborted (w_out w).

Definition set_es (b : board) (e : option nat) : board :=
  {| b_size := b_size b; b_size2 := b_size2 b; b_f := b_f b;
     b_moves := b_moves b; b_last_move := b_last_move b;
     b_superko_violation := b_superko_violation b; b_es := e |}.
Definition set_superko_violation (b : board) (v : bool) : board :=
  {| b_size := b_size b; b_size2 := b_size2 b; b_f := b_f b;
     b_moves := b_moves b; b_last_move := b_last_move b;
     b_superko_violation := v; b_es := b_es b |}.

(** uct/tree.h, random.h, uct.h: used, not defined, by uct.c. *)
Variable tree_init : board -> stone -> Z -> tree.
Variable tree_load : tree -> board -> tree.
Variable uct_get_extra_komi : uct -> board -> F32.t.
Variable tree_node_get_value : tree -> Z -> F32.t -> F32.t.
Variable tree_promote_node : tree -> node_ptr -> tree * node_ptr.

Definition setup_state (w : world) (b : board) (color : stone) : outcome world :=
  let us := w_u w in
  let t0 := tree_init b color (if fast_alloc us then max_tree_size us else 0) in
  let w := put_u w (set_t us (Some t0)) in
  let w := say_if (UDEBUGL us 0) w MsgFreshBoard in
  if negb (no_book us) && (b_moves b =? 0) then
    _ <- assert (stone_eqb color S_BLACK) w ;;
    Done (put_u w (set_t (w_u w) (Some (tree_load t0 b))))
  else Done w.

Definition reset_state (w : world) : outcome world :=
  _ <- assert (match u_t (w_u w) with Some _ => true | None => false end) w ;;
  Done (put_u w (set_t (w_u w) None)).

Definition es_is (b : board) (us : uct) : bool :=
  match b_es b with Some i => Nat.eqb i (u_id us) | None => false end.

Definition prepare_move (w : world) (b : board) (color : stone)
  : outcome (world * board) :=
  '(w, b) <-
    match u_t (w_u w) with
    | Some t =>
        _ <- assert (es_is b (w_u w)) w ;;
        _ <- assert (negb (b_moves b =? 0)) w ;;
        if negb (stone_eqb color (stone_other (root_color t))) then
          Exited 1 (w_out w ++ [MsgFatalNonAlternating color (root_color t)])
        else Done (w, b)
    | None =>
        let b := set_es b (Some (u_id (w_u w))) in
        w <- setup_state w b color ;;
        Done (w, b)
    end ;;
  let us := w_u w in
  match u_t us with
  | None => Undefined
  | Some t =>
      let t :=
        if negb (dynkomi us =? 0) && (dynkomi us >? b_moves b)
           && negb (Z.land (stone_code color) (dynkomi_mask us) =? 0)
        then set_extra_komi t (uct_get_extra_komi us b)
        else t in
      let om := {| om_playouts := 0;
                   om_map := zero_prefix (Z.to_nat (b_size2 b))
                                         (om_map (ownermap us)) |} in
      Done (put_u w (with_run us (pondering us) (Some t) om), b)
  end.

(** board.h, tactics.h: group judgement and the safety test. *)
Context {group_judgement move_queue : Type}.
Variable mq_empty : move_queue.
Variable board_ownermap_judge_group :
  board -> board_ownermap -> F64.t -> group_judgement.
Variable groups_of_dead_status :
  board -> group_judgement -> move_queue -> move_queue.
Variable pass_is_safe : board -> stone -> move_queue -> bool.

Definition dead_group_list (us : uct) (b : board) (mq : move_queue) : move_queue :=
  let gj := board_ownermap_judge_group b (ownermap us) GJ_THRES in
  groups_of_dead_status b gj mq.

Definition uct_pass_is_safe (us : uct) (b : board) (color : stone)
           (pass_all_alive : bool) : bool :=
  if om_playouts (ownermap us) <? GJ_MINGAMES then false
  else
    let mq := mq_empty in
    let mq := if negb pass_all_alive then dead_group_list us b mq else mq in
    pass_is_safe b color mq.


(* ---------------------------------------------------------------- *)
(** *** Stopping conditions *)

(** timeinfo.h: [struct time_info]; [len] is a union. *)
Inductive time_period : Type := TT_NULL | TT_MOVE | TT_TOTAL.
Inductive time_dimension : Type := TD_GAMES | TD_WALLTIME.
Inductive time_len : Type :=
| len_games (games : Z)
| len_t (recommended_time max_time timer_start net_lag : F64.t).
Record time_info : Type := {
  period : time_period;
  dim : time_dimension;
  len : time_len
}.

(** [union stop_conditions]. *)
Inductive stop_conditions : Type :=
| stop_t (desired_stop worst_stop : F64.t)
| stop_p (desired_playouts worst_playouts : Z).

Variable time_in_byoyomi : time_info -> bool.
Variable board_estimated_moves_left : board -> Z.
Variable MIN_MOVES_LEFT : Z.

Definition is_TT_TOTAL (p : time_period) : bool :=
  match p with TT_TOTAL => true | _ => false end.

(** The wall-time branch of [time_prep]: desired and worst thinking time. *)
Definition time_prep_walltime (ti : time_info) (us : uct) (b : board)
           (recommended max_time : F64.t) : F64.t * F64.t :=
  let desired_time := recommended in
  let '(desired_time, worst_time) :=
    if time_in_byoyomi ti then
      (F64.mul desired_time (F64.sub (F64.of_Z 2) MAX_BYOYOMI_TIME_EXTENSION),
       F64.mul desired_time MAX_BYOYOMI_TIME_EXTENSION)
    else
      let bsize := (b_size b - 2) * (b_size b - 2) in
      let fuseki_end := Z.quot (fuseki_end us * bsize) 100 in
      let yose_start := Z.quot (yose_start us * bsize) 100 in
      let left_at_yose_start :=
        Z.quot (b_moves b - yose_start) 2 + board_estimated_moves_left b in
      let left_at_yose_start :=
        if left_at_yose_start <? MIN_MOVES_LEFT then MIN_MOVES_LEFT
        else left_at_yose_start in
      let longest_time := F64.div max_time (F64.of_Z left_at_yose_start) in
      let desired_time :=
        if fltb longest_time desired_time then desired_time
        else if b_moves b <? fuseki_end then
          F64.add desired_time
            (F64.div (F64.mul (F64.sub longest_time desired_time)
                              (F64.of_Z (b_moves b)))
                     (F64.of_Z fuseki_end))
        else if b_moves b <? yose_start then longest_time
        else desired_time in
      (desired_time, F64.mul desired_time MAX_MAIN_TIME_EXTENSION) in
  let worst_time := if fgtb worst_time max_time then max_time else worst_time in
  let desired_time :=
    if fgtb desired_time worst_time then worst_time else desired_time in
  (desired_time, worst_time).

(** Returns the time settings as rewritten and the conditions written
    through [stop]. *)
Definition time_prep (w : world) (ti : time_info) (b : board)
  : outcome (world * time_info * stop_conditions) :=
  _ <- assert (negb (is_TT_TOTAL (period ti))) w ;;
  let ti :=
    match period ti with
    | TT_NULL => {| period := TT_MOVE; dim := TD_GAMES; len := len_games MC_GAMES |}
    | _ => ti
    end in
  match dim ti, len ti with
  | TD_GAMES, len_games games => Done (w, ti, stop_p games games)
  | TD_WALLTIME, len_t recommended max_time timer_start net_lag =>
      let '(desired_time, worst_time) :=
        time_prep_walltime ti (w_u w) b recommended max_time in
      let stop :=
        stop_t (F64.sub (F64.add timer_start desired_time) net_lag)
               (F64.sub (F64.add timer_start worst_time) net_lag) in
      Done (say_if (UDEBUGL (w_u w) 2) w MsgDesiredTime, ti, stop)
  | _, _ => Undefined
  end.

(* ---------------------------------------------------------------- *)
(** *** The search loop *)

(** What the main thread sees when it wakes up: the search tree [ctx->t]
    as the workers have left it, and the clock. *)
Record poll : Type := { p_tree : tree; p_now : F64.t }.

(** What the concurrent search supplies to [uct_search]: the successive
    polls, and the tree and game count once the manager is joined. *)
Record search_env : Type := {
  polls : list poll;
  stopped_tree : tree;
  stopped_games : Z
}.

Record loop_state : Type := {
  last_print : Z;
  print_fullmem : bool;
  best : option node_ptr;
  winner : option node_ptr
}.

Inductive break_reason : Type :=
| BrWorstTime          (* now > stop.t.worst_stop *)
| BrWorstPlayouts      (* i > stop.p.worst_playouts *)
| BrWon                (* early break in won situation *)
| BrNoWinnerPolicy     (* desired_done, no winner or evaluate *)
| BrBestIsWinner.      (* desired_done, best == winner *)

Inductive step : Type :=
| Break (why : break_reason)
| Continue (st : loop_state).

Definition opt_ptr_eqb (a b : option node_ptr) : bool :=
  match a, b with
  | Some p, Some q => ptr_eqb p q
  | None, None => true
  | _, _ => false
  end.

(** The test of the early break for the node [best] points to.  The first
    comparison is between two [float]s; in the second the [float] meets the
    [double] constant 0.95 and is promoted. *)
Definition won_situation (us : uct) (t : tree) (n : tree_node) : bool :=
  ((playouts (u n) >=? 2000)
     && fgeb (tree_node_get_value t 1 (value (u n))) (loss_threshold us))
  || ((playouts (u n) >=? 500)
        && fgeb (F64.of_float (tree_node_get_value t 1 (value (u n))))
                (F64.lit 95 100)).

(** The part of the loop body after the time check. *)
Definition search_decide (w : world) (b : board) (color : stone)
           (t : tree) (desired_done : bool) (st : loop_state)
  : outcome (world * step) :=
  let us := w_u w in
  match policy us with
  | None => Undefined
  | Some pol =>
      let prev_best := best st in
      let best := pol_choose pol (root t) b color in
      won <- match best with
             | None => Done false
             | Some p =>
                 match node_at (root t) p with
                 | Some n => Done (won_situation us t n)
                 | None => Undefined
                 end
             end ;;
      if won : bool then Done (w, Break BrWon)
      else if desired_done then
        match pol_winner pol with
        | None => Done (w, Break BrNoWinnerPolicy)
        | Some winner_fn =>
            if negb (pol_evaluate pol) then Done (w, Break BrNoWinnerPolicy)
            else
              let prev_winner := winner st in
              let winner := winner_fn t (root t) in
              if match best with Some _ => opt_ptr_eqb best winner | None => false end
              then Done (w, Break BrBestIsWinner)
              else
                let w :=
                  say_if (UDEBUGL us 3
                          && (negb (opt_ptr_eqb best prev_best)
                              || negb (opt_ptr_eqb winner prev_winner)))
                         w MsgBestNotWinner in
                Done (w, Continue {| last_print := last_print st;
                                     print_fullmem := print_fullmem st;
                                     best := best; winner := winner |})
        end
      else Done (w, Continue {| last_print := last_print st;
                                print_fullmem := print_fullmem st;
                                best := best; winner := winner st |})
  end.

(** The head of the loop body: the progress line and the memory notice. *)
Definition search_report (w : world) (t : tree) (print_interval : Z)
           (st : loop_state) : world * loop_state :=
  let us := w_u w in
  let i := playouts (u (root t)) in
  let '(w, st) :=
    if i - last_print st >? print_interval then
      let lp := last_print st + print_interval in
      (say w (MsgProgress lp),
       {| last_print := lp; print_fullmem := print_fullmem st;
          best := best st; winner := winner st |})
    else (w, st) in
  if negb (print_fullmem st) && (nodes_size t >? max_tree_size us) then
    (say_if (UDEBUGL us 2) w MsgMemoryLimit,
     {| last_print := last_print st; print_fullmem := true;
        best := best st; winner := winner st |})
  else (w, st).

(** One turn of the polling loop, after [time_sleep] returned. *)
Definition search_iter (w : world) (b : board) (ti : time_info)
           (color : stone) (stop : stop_conditions) (print_interval : Z)
           (pl : poll) (st : loop_state) : outcome (world * step) :=
  let t := p_tree pl in
  let i := playouts (u (root t)) in
  let '(w, st) := search_report w t print_interval st in
  match dim ti, stop with
  | TD_WALLTIME, stop_t desired_stop worst_stop =>
      let now := p_now pl in
      if fgtb now worst_stop then Done (w, Break BrWorstTime)
      else search_decide w b color t (fgtb now desired_stop) st
  | TD_GAMES, stop_p desired_playouts worst_playouts =>
      if i >? worst_playouts then Done (w, Break BrWorstPlayouts)
      else search_decide w b color t (i >? desired_playouts) st
  | _, _ => Undefined
  end.

(** [while (1)] over the polls the environment supplies. *)
Fixpoint search_loop (w : world) (b : board) (ti : time_info) (color : stone)
         (stop : stop_conditions) (print_interval : Z)
         (pls : list poll) (st : loop_state) : outcome (world * break_reason) :=
  match pls with
  | [] => Pending
  | pl :: rest =>
      '(w, s) <- search_iter w b ti color stop print_interval pl st ;;
      match s with
      | Break why => Done (w, why)
      | Continue st' => search_loop w b ti color stop print_interval rest st'
      end
  end.

Definition uct_search_start (w : world) : outcome world :=
  _ <- assert (threads (w_u w) >? 0) w ;;
  _ <- assert (negb (w_running w)) w ;;
  Done (put_running w true).

Definition uct_search_stop (w : world) : outcome world :=
  _ <- assert (w_running w) w ;;
  Done (put_running w false).

Definition is_TM_ROOT (m : thread_model_t) : bool :=
  match m with TM_ROOT => true | _ => false end.

(** [uct_search(u, b, ti, color, t)]; both callers pass [u->t] for [t]. *)
Definition uct_search (w : world) (b : board) (ti : time_info) (color : stone)
           (env : search_env) : outcome (world * time_info * Z) :=
  '(w, ti, stop) <- time_prep w ti b ;;
  match u_t (w_u w) with
  | None => Undefined
  | Some t =>
      let us := w_u w in
      let w :=
        say_if (UDEBUGL us 2 && (playouts (u (root t)) >? 0)) w
               (MsgPreSimulated (playouts (u (root t)))) in
      let st := {| last_print := playouts (u (root t)); print_fullmem := false;
                   best := None; winner := None |} in
      let print_interval :=
        TREE_SIMPROGRESS_INTERVAL
        * (if is_TM_ROOT (thread_model us) then 1 else threads us) in
      w <- uct_search_start w ;;
      '(w, _) <- search_loop w b ti color stop print_interval (polls env) st ;;
      w <- uct_search_stop w ;;
      let w := put_u w (set_t (w_u w) (Some (stopped_tree env))) in
      let w := say_if (UDEBUGL us 2) w MsgTreeDump in
      let w := say_if (UDEBUGL us 0) w (MsgProgress (stopped_games env)) in
      Done (w, ti, stopped_games env)
  end.


(* ---------------------------------------------------------------- *)
(** *** Pondering and move generation *)

(** uct/walk.h, board.h. *)
Variable uct_playout : uct -> board -> stone -> uct.
Variable board_play : board -> move -> Z * board.

(** [pondered]: the tree as a background search leaves it when stopped. *)
Definition uct_pondering_stop (w : world) (pondered : tree) : outcome world :=
  let w := put_u w (set_pondering (w_u w) false) in
  if negb (w_running w) then Done w
  else
    w <- uct_search_stop w ;;
    let us := w_u w in
    let w := put_u w (set_t us (match u_t us with
                                | Some _ => Some pondered
                                | None => None
                                end)) in
    Done (say_if (UDEBUGL us 1) w MsgPonderStop).

Definition uct_pondering_start (w : world) (b0 : board) (t : tree)
           (color : stone) : outcome world :=
  let w := say_if (UDEBUGL (w_u w) 1) w MsgPonderStart in
  let w := put_u w (set_pondering (w_u w) true) in
  let m := {| m_coord := coord (root t); m_color := root_color t |} in
  let '(res, b) := board_play b0 m in
  _ <- assert (res >=? 0) w ;;
  uct_search_start w.

(** [while (u->ownermap.playouts < GJ_MINGAMES) uct_playout(...)]. *)
Fixpoint fill_ownermap (fuel : nat) (us : uct) (b : board) (color : stone)
  : outcome uct :=
  if om_playouts (ownermap us) <? GJ_MINGAMES then
    match fuel with
    | O => Pending
    | S k => fill_ownermap k (uct_playout us b color) b color
    end
  else Done us.

Record genmove_env : Type := {
  ge_pondered : tree;
  ge_search : search_env
}.

(** The first half of [uct_genmove], up to the return of [uct_search]. *)
Definition genmove_search (w : world) (b : board) (ti : time_info)
           (color : stone) (env : genmove_env)
  : outcome (world * board * time_info * Z) :=
  let '(w, b) :=
    if b_superko_violation b
    then (say w MsgSuperkoViolation, set_superko_violation b false)
    else (w, b) in
  w <- uct_pondering_stop w (ge_pondered env) ;;
  '(w, b) <- prepare_move w b color ;;
  _ <- assert (match u_t (w_u w) with Some _ => true | None => false end) w ;;
  '(w, ti, played_games) <- uct_search w b ti color (ge_search env) ;;
  Done (w, b, ti, played_games).

(** The engine's tree, if any, holds moves and passes only. *)
Definition moves_only (us : uct) : bool :=
  match u_t us with
  | Some t => no_resign (root t)
  | None => true
  end.

(** The test guarding [return coord_copy(resign)]. *)
Definition resign_test (us : uct) (t : tree) (n : tree_node) : bool :=
  fltb (tree_node_get_value t 1 (value (u n))) (resign_ratio us)
  && negb (is_pass (coord n))
  && (playouts (u n) >? GJ_MINGAMES).

(** "If the opponent just passed and we win counting, always pass as
    well": the tree after the playouts that fill the owner map, with
    [best->coord = pass] when passing is safe. *)
Definition genmove_pass_check (fuel : nat) (w : world) (b : board)
           (color : stone) (pass_all_alive_arg : bool) (t : tree)
           (best : node_ptr) : outcome (world * tree) :=
  if (b_moves b >? 1) && is_pass (m_coord (b_last_move b)) then
    us <- fill_ownermap fuel (w_u w) b color ;;
    match u_t us with
    | None => Undefined
    | Some t =>
        if uct_pass_is_safe us b color (pass_all_alive us || pass_all_alive_arg)
        then
          Done (say_if (UDEBUGL us 0) (put_u w us) MsgWillPass,
                set_root t (node_set_coord (root t) best pass))
        else Done (put_u w us, t)
    end
  else Done (w, t).

(** From [tree_promote_node] to [return coord_copy(best->coord)]. *)
Definition genmove_promote (w : world) (b : board) (color : stone) (t : tree)
           (best : node_ptr) : outcome (coord_t * world) :=
  let '(t, best) := tree_promote_node t best in
  let w := put_u w (set_t (w_u w) (Some t)) in
  match node_at (root t) best with
  | None => Undefined
  | Some n =>
      w <- (if pondering_opt (w_u w) && negb (is_pass (coord n))
            then uct_pondering_start w b t (stone_other color)
            else Done w) ;;
      let w := say_if (UDEBUGL (w_u w) 2) w MsgGenmoveTime in
      Done (coord n, w)
  end.

(** The second half: from the choice of the best move to the return. *)
Definition genmove_finish (fuel : nat) (w : world) (b : board) (color : stone)
           (pass_all_alive_arg : bool) : outcome (coord_t * world) :=
  match policy (w_u w), u_t (w_u w) with
  | Some pol, Some t =>
      match pol_choose pol (root t) b color with
      | None =>
          w <- reset_state w ;;
          Done (pass, w)
      | Some best =>
          match node_at (root t) best with
          | None => Undefined
          | Some n =>
              let w := say_if (UDEBUGL (w_u w) 1) w (MsgWinner (coord n)) in
              if resign_test (w_u w) t n then
                w <- reset_state w ;;
                Done (resign, w)
              else
                '(w, t) <- genmove_pass_check fuel w b color
                                              pass_all_alive_arg t best ;;
                genmove_promote w b color t best
          end
      end
  | _, _ => Undefined
  end.

Definition uct_genmove (fuel : nat) (w : world) (b : board) (ti : time_info)
           (color : stone) (pass_all_alive_arg : bool) (env : genmove_env)
  : outcome (coord_t * world) :=
  '(w, b, _, _) <- genmove_search w b ti color env ;;
  genmove_finish fuel w b color pass_all_alive_arg.

(* ---------------------------------------------------------------- *)
(** *** Engine set-up *)

Inductive init_error : Type := OnlyOneRandomPolicy | FastAllocWithRoot.

(** uct/policy, uct/prior.h, playout/moggy.h: the default components. *)
Variable policy_ucb1amaf_init : uct -> uct_policy.
Variable uct_prior_init : board -> uct_prior.
Variable playout_moggy_init : playout_policy.
Variable playout_set_debug_level : playout_policy -> Z -> playout_policy.
(** [malloc]: the contents are whatever the allocator hands out. *)
Variable malloc_ownermap : Z -> list (list Z).

(** The tail of [uct_state_init], after the option loop: [parsed] is the
    state the defaults and the loop over [arg] leave. *)
Definition uct_state_init_tail (parsed : uct) (b : board)
  : uct + init_error :=
  let resign_ratio' := F32.round (F64.lit 2 10) in
  let loss_threshold' := F32.round (F64.lit 85 100) in
  let mk pol pri play om :=
    {| u_id := u_id parsed; debug_level := debug_level parsed;
       dumpthres := dumpthres parsed; max_tree_size := max_tree_size parsed;
       fast_alloc := fast_alloc parsed; force_seed := force_seed parsed;
       no_book := no_book parsed; dynkomi := dynkomi parsed;
       dynkomi_mask := dynkomi_mask parsed; threads := threads parsed;
       thread_model := thread_model parsed;
       parallel_tree := parallel_tree parsed;
       pondering_opt := pondering_opt parsed;
       pass_all_alive := pass_all_alive parsed;
       fuseki_end := fuseki_end parsed; yose_start := yose_start parsed;
       resign_ratio := resign_ratio'; loss_threshold := loss_threshold';
       policy := pol; random_policy := random_policy parsed;
       random_policy_chance := random_policy_chance parsed;
       playout := play; u_prior := pri;
       pondering := pondering parsed; u_t := u_t parsed; ownermap := om |} in
  let u1 := mk (policy parsed) (u_prior parsed) (playout parsed)
               (ownermap parsed) in
  let pol := match policy u1 with
             | Some p => p
             | None => policy_ucb1amaf_init u1
             end in
  if xorb (negb (random_policy_chance u1 =? 0))
          (match random_policy u1 with Some _ => true | None => false end)
  then inr OnlyOneRandomPolicy
  else if fast_alloc u1 && negb (parallel_tree u1) then inr FastAllocWithRoot
  else
    let pri := match u_prior u1 with
               | Some p => p
               | None => uct_prior_init b
               end in
    let play := match playout u1 with
                | Some p => p
                | None => playout_moggy_init
                end in
    let play := playout_set_debug_level play (debug_level u1) in
    inl (mk (Some pol) (Some pri) (Some play)
            {| om_playouts := om_playouts (ownermap u1);
               om_map := malloc_ownermap (b_size2 b) |}).


(* ---------------------------------------------------------------- *)
(** *** The thread manager *)

(** Trees live in a store and are passed by pointer; [tree_copy]
    allocates, [tree_done] frees. *)
Definition tree_ptr : Type := nat.
Record store : Type := { cells : tree_ptr -> option tree; next : tree_ptr }.

Definition store_put (h : store) (p : tree_ptr) (v : option tree) : store :=
  {| cells := fun q => if Nat.eqb q p then v else cells h q; next := next h |}.
Definition store_alloc (h : store) (v : tree) : store * tree_ptr :=
  ({| cells := fun q => if Nat.eqb q (next h) then Some v else cells h q;
      next := S (next h) |}, next h).

Record spawn_ctx : Type := {
  tid : Z;
  ctx_b : board;
  ctx_color : stone;
  ctx_t : tree_ptr;
  seed : Z;
  games : Z
}.

(** uct/tree.h, random.h, uct/walk.h. *)
Variable tree_copy : tree -> tree.
Variable tree_merge : tree -> tree -> tree.
Variable tree_normalize : tree -> Z -> tree.
(** [fast_random seed k bound]: the [k]-th draw after [fast_srandom(seed)]. *)
Variable fast_random : Z -> nat -> Z -> Z.
(** A worker from start to finish: [uct_playouts] on the worker's tree
    until [uct_halt]; the tree it leaves and the number of games.  Workers
    on private trees do not interact; for a shared tree the workers'
    updates interleave, and the model applies each worker's net effect
    when it is joined. *)
Variable worker_run : uct -> spawn_ctx -> tree -> tree * Z.

Record manager : Type := {
  mg_store : store;
  mctx_t : tree_ptr;
  mg_ctx : nat -> option spawn_ctx;      (* the running threads' contexts *)
  played_games : Z;
  joined : Z;
  uct_halt : bool;
  mg_out : list msg
}.

(** The body of the spawn loop for thread [ti]. *)
Definition spawn_one (us : uct) (mctx : spawn_ctx) (t : tree_ptr)
           (shared_tree : bool) (ti : nat) (st : manager) : outcome manager :=
  match (if shared_tree then Some (mg_store st, t)
         else match cells (mg_store st) t with
              | Some tr => Some (store_alloc (mg_store st) (tree_copy tr))
              | None => None
              end) with
  | None => Undefined
  | Some (h, p) =>
      let ctx := {| tid := Z.of_nat ti; ctx_b := ctx_b mctx;
                    ctx_color := ctx_color mctx; ctx_t := p;
                    seed := fast_random (seed mctx) ti 65536 + Z.of_nat ti;
                    games := 0 |} in
      Done {| mg_store := h; mctx_t := p;
              mg_ctx := fun k => if Nat.eqb k ti then Some ctx else mg_ctx st k;
              played_games := played_games st; joined := joined st;
              uct_halt := uct_halt st;
              mg_out := if UDEBUGL us 2
                        then mg_out st ++ [MsgSpawned (Z.of_nat ti)]
                        else mg_out st |}
  end.

(** [for (ti = from; ti < from + n; ti++)]. *)
Fixpoint spawn_loop (us : uct) (mctx : spawn_ctx) (t : tree_ptr)
         (shared_tree : bool) (n : nat) (from : nat) (st : manager)
  : outcome manager :=
  match n with
  | O => Done st
  | S k =>
      st <- spawn_one us mctx t shared_tree from st ;;
      spawn_loop us mctx t shared_tree k (S from) st
  end.

(** The body of the collect loop once [finish_thread >= 0]. *)
Definition join_one (us : uct) (t : tree_ptr) (shared_tree : bool)
           (finish_thread : Z) (st : manager) : outcome manager :=
  match mg_ctx st (Z.to_nat finish_thread) with
  | None => Undefined
  | Some ctx =>
      match cells (mg_store st) (ctx_t ctx) with
      | None => Undefined
      | Some wt =>
          let '(wt, g) := worker_run us ctx wt in
          let h := store_put (mg_store st) (ctx_t ctx) (Some wt) in
          let out := if UDEBUGL us 2
                     then mg_out st ++ [MsgJoined finish_thread]
                     else mg_out st in
          let rest k := if Nat.eqb k (Z.to_nat finish_thread) then None
                        else mg_ctx st k in
          if negb shared_tree then
            let m := if Nat.eqb (ctx_t ctx) (mctx_t st) then t else mctx_t st in
            match cells h t, cells h (ctx_t ctx) with
            | Some dest, Some src =>
                let h := store_put h t (Some (tree_merge dest src)) in
                let h := store_put h (ctx_t ctx) None in
                Done {| mg_store := h; mctx_t := m; mg_ctx := rest;
                        played_games := played_games st + g;
                        joined := joined st + 1;
                        uct_halt := uct_halt st; mg_out := out |}
            | _, _ => Undefined
            end
          else
            Done {| mg_store := h; mctx_t := mctx_t st; mg_ctx := rest;
                    played_games := played_games st + g;
                    joined := joined st + 1;
                    uct_halt := uct_halt st; mg_out := out |}
      end
  end.

(** [while (joined < u->threads)]; [events] are the values of
    [finish_thread] found at the successive wake-ups from
    [pthread_cond_wait]. *)
Fixpoint collect_loop (us : uct) (t : tree_ptr) (shared_tree : bool)
         (events : list Z) (st : manager) : outcome manager :=
  if joined st <? threads us then
    match events with
    | [] => Pending
    | finish_thread :: rest =>
        if finish_thread <? 0 then
          collect_loop us t shared_tree rest
            {| mg_store := mg_store st; mctx_t := mctx_t st;
               mg_ctx := mg_ctx st; played_games := played_games st;
               joined := joined st; uct_halt := true; mg_out := mg_out st |}
        else
          st <- join_one us t shared_tree finish_thread st ;;
          collect_loop us t shared_tree rest st
    end
  else Done st.

(** Returns the store, [mctx->t] and [mctx->games]. *)
Definition spawn_thread_manager (us : uct) (mctx : spawn_ctx) (h : store)
           (events : list Z) : outcome (store * tree_ptr * Z) :=
  let t := ctx_t mctx in
  let shared_tree := parallel_tree us in
  let st := {| mg_store := h; mctx_t := t; mg_ctx := fun _ => None;
               played_games := 0; joined := 0; uct_halt := false;
               mg_out := [] |} in
  st <- spawn_loop us mctx t shared_tree (Z.to_nat (threads us)) 0 st ;;
  st <- collect_loop us t shared_tree events st ;;
  if negb shared_tree then
    match cells (mg_store st) (mctx_t st) with
    | None => Undefined
    | Some tr =>
        Done (store_put (mg_store st) (mctx_t st)
                        (Some (tree_normalize tr (threads us))),
              mctx_t st, played_games st)
    end
  else Done (mg_store st, mctx_t st, played_games st).

(** The context the spawn loop builds for worker [ti] under root
    parallelisation, its private tree being the [ti]-th allocation after
    [h]. *)
Definition worker_ctx (mctx : spawn_ctx) (h : store) (ti : nat) : spawn_ctx :=
  {| tid := Z.of_nat ti; ctx_b := ctx_b mctx; ctx_color := ctx_color mctx;
     ctx_t := (next h + ti)%nat;
     seed := fast_random (seed mctx) ti 65536 + Z.of_nat ti;
     games := 0 |}.

(** The workers named by the wake-ups, in the order they finish. *)
Definition joins (events : list Z) : list nat :=
  List.map Z.to_nat (filter (fun e => negb (e <? 0)) events).

(** What worker [ti] makes of its private copy of the master tree [t0],
    and how many games it played. *)
Definition worker_tree (us : uct) (mctx : spawn_ctx) (h : store) (t0 : tree)
           (ti : nat) : tree :=
  fst (worker_run us (worker_ctx mctx h ti) (tree_copy t0)).
Definition worker_games (us : uct) (mctx : spawn_ctx) (h : store) (t0 : tree)
           (ti : nat) : Z :=
  snd (worker_run us (worker_ctx mctx h ti) (tree_copy t0)).

(** The manager after [j] turns of the spawn loop: [j] private copies of
    the master tree [t0], none of them touched yet. *)
Record spawned (mctx : spawn_ctx) (h : store) (t0 : tree) (j : nat)
       (st : manager) : Prop := {
  sp_next : next (mg_store st) = (next h + j)%nat;
  sp_master : cells (mg_store st) (ctx_t mctx) = Some t0;
  sp_private : forall i, (i < j)%nat ->
                         cells (mg_store st) (next h + i)%nat = Some (tree_copy t0);
  sp_ctx : forall i, (i < j)%nat -> mg_ctx st i = Some (worker_ctx mctx h i);
  sp_none : forall i, (j <= i)%nat -> mg_ctx st i = None;
  sp_mctx : mctx_t st = match j with O => ctx_t mctx | S k => (next h + k)%nat end;
  sp_played : played_games st = 0;
  sp_joined : joined st = 0
}.

(** The manager of [n] workers after it joined the workers [done], in that
    order: their trees are merged into the master tree and freed, the others
    still run on their copies. *)
Record collected (us : uct) (mctx : spawn_ctx) (h : store) (t0 : tree)
       (n : nat) (done : list nat) (st : manager) : Prop := {
  co_master : cells (mg_store st) (ctx_t mctx)
              = Some (fold_left tree_merge
                                (List.map (worker_tree us mctx h t0) done) t0);
  co_private : forall i, (i < n)%nat -> ~ In i done ->
                         cells (mg_store st) (next h + i)%nat = Some (tree_copy t0);
  co_ctx : forall i, (i < n)%nat -> ~ In i done ->
                     mg_ctx st i = Some (worker_ctx mctx h i);
  co_mctx : mctx_t st = if existsb (Nat.eqb (pred n)) done then ctx_t mctx
                        else (next h + pred n)%nat;
  co_played : played_games st
              = fold_left Z.add (List.map (worker_games us mctx h t0) done) 0;
  co_joined : joined st = Z.of_nat (length done)
}.

End Engine.
End Uct.

(* ================================================================== *)
(** ** Tree merging and normalising (uct/tree.c) *)

Module TreeSpec.

(** Modelled from the spec: [playouts] is a u32. *)
Definition u32 (n : Z) : Z := n mod 2 ^ 32.

(** Modelled from the spec: stats_merge of uct/tree.c is not part of the
    two files.  "Sum of playouts, reciprocal-weighted average of value":
    the destination's value moves towards the source's by the source's
    share of the summed playouts, [src.playouts / (dest.playouts +
    src.playouts)]; a source without playouts has no share and leaves the
    destination as it is. *)
Definition stats_merge (dest src : move_stats) : move_stats :=
  if playouts src =? 0 then dest
  else
    let n := u32 (playouts dest + playouts src) in
    {| playouts := n;
       value := F32.add (value dest)
                  (F32.div (F32.mul (F32.sub (value src) (value dest))
                                    (F32.of_Z (playouts src)))
                           (F32.of_Z n)) |}.

Definition same_coord (a b : tree_node) : bool := coord_eqb (coord a) (coord b).

(** Modelled from the spec: tree_merge of uct/tree.c is not part of the
    two files.  "Field-wise recursive sum of playouts, reciprocal-weighted
    average of value and amaf.value, for nodes sharing the same coord.
    Nodes present in exactly one tree are copied in." *)
Fixpoint node_merge (dest src : tree_node) {struct dest} : tree_node :=
  match dest with
  | Node c du da dp dch =>
      {| coord := c;
         u := stats_merge du (u src);
         amaf := stats_merge da (amaf src);
         prior := dp;
         children :=
           List.map (fun d =>
                       match find (same_coord d) (children src) with
                       | Some s => node_merge d s
                       | None => d
                       end) dch
           ++ filter (fun s => negb (existsb (same_coord s) dch))
                     (children src) |}
  end.

Definition tree_merge (dest src : tree) : tree :=
  set_root dest (node_merge (root dest) (root src)).

Definition stats_normalize (s : move_stats) (k : Z) : move_stats :=
  {| playouts := playouts s / k; value := value s |}.

(** Modelled from the spec: tree_normalize of uct/tree.c is not part of
    the two files.  "Divide all playouts by k." *)
Fixpoint node_normalize (n : tree_node) (k : Z) : tree_node :=
  match n with
  | Node c nu na np ch =>
      {| coord := c;
         u := stats_normalize nu k;
         amaf := stats_normalize na k;
         prior := np;
         children := List.map (fun d => node_normalize d k) ch |}
  end.

Definition tree_normalize (t : tree) (k : Z) : tree :=
  set_root t (node_normalize (root t) k).

(** Modelled from the spec: tree_copy of uct/tree.c is not part of the two
    files.  A copy has the contents of the original. *)
Definition tree_copy (t : tree) : tree := t.






End TreeSpec.

(* ================================================================== *)
(** ** Concrete positions and settings *)

Module Examples.

Definition ps0 : @Elo.patternset unit unit unit :=
  {| Elo.ps := tt; Elo.pc := tt; Elo.fg := tt |}.
Definition pp0 : @Elo.elo_policy unit unit unit :=
  {| Elo.selfatari := F32.round (F64.lit 6 100); Elo.choose := ps0; Elo.assess := ps0 |}.

Definition mk_board (free : list coord_t) : board :=
  {| b_size := 11; b_size2 := 121; b_f := free; b_moves := 0;
     b_last_move := {| m_coord := pass; m_color := S_NONE |};
     b_superko_violation := false; b_es := None |}.

(** Two free points; the first may be played, the second is an eye of the
    mover. *)
Definition board2 : board := mk_board [point 12; point 13].
Definition valid_all (_ : board) (_ : move) : bool := true.
Definition valid_none (_ : board) (_ : move) : bool := false.
Definition eye_13 (_ : board) (c : coord_t) (_ : stone) : bool :=
  coord_eqb c (point 13).
Definition eye_none (_ : board) (_ : coord_t) (_ : stone) : bool := false.

(** Two features are matched at every point; their gammas are 2 and 3. *)
Definition match_two (_ _ : unit) (_ : board) (_ : move) : list nat := [0; 1]%nat.
Definition gamma_small (_ : unit) (k : nat) : F32.t :=
  match k with O => F32.of_Z 2 | _ => F32.of_Z 3 end.
(** 2^100 each: the product leaves the range of [float]. *)
Definition gamma_huge (_ : unit) (_ : nat) : F32.t := S754_finite false 8388608 77.

(** No free point at all. *)
Definition board0 : board := mk_board [].
(** One free point, which the mover may not play. *)
Definition board1 : board := mk_board [point 12].

Definition pick_first (_ : probdist) : Z := 0.

(** A prior store that records the calls of [add_prior_value]. *)
Definition record_prior (st : list (coord_t * F32.t * Z)) (c : coord_t)
           (v : F32.t) (games : Z) : list (coord_t * F32.t * Z) :=
  st ++ [(c, v, games)].
(** The only free point is an eye of the mover: a valid move, and so one
    the prior map considers. *)
Definition board_eye : board := mk_board [point 13].
Definition map_eye : @Elo.prior_map (list (coord_t * F32.t * Z)) :=
  {| Elo.pm_b := board_eye; Elo.pm_to_play := S_BLACK;
     Elo.pm_consider := fun _ => true; Elo.pm_prior := [] |}.
Definition map2 : @Elo.prior_map (list (coord_t * F32.t * Z)) :=
  {| Elo.pm_b := board2; Elo.pm_to_play := S_BLACK;
     Elo.pm_consider := fun _ => true; Elo.pm_prior := [] |}.

(** The engine. *)
Definition debugl (l n : Z) : bool := l >? n.
Definition f32 (n d : Z) : F32.t := F32.round (F64.lit n d).
Definition stats (p : Z) (v : F32.t) : move_stats := {| playouts := p; value := v |}.
Definition leaf (c : coord_t) (p : Z) (v : F32.t) : tree_node :=
  Node c (stats p v) (stats 0 F32.zero) (stats 0 F32.zero) [].
Definition mk_tree (r : tree_node) (col : stone) : tree :=
  {| root := r; root_color := col; extra_komi := F32.zero; nodes_size := 3 |}.

(** The most played move wins one game in ten. *)
Definition lost_root : tree_node :=
  Node pass (stats 3100 (f32 1 2)) (stats 0 F32.zero) (stats 0 F32.zero)
       [leaf (point 12) 2500 (f32 1 10); leaf (point 13) 600 (f32 9 10)].
Definition lost_tree : tree := mk_tree lost_root S_BLACK.
(** The most played move wins nine games in ten. *)
Definition won_root : tree_node :=
  Node pass (stats 3100 (f32 1 2)) (stats 0 F32.zero) (stats 0 F32.zero)
       [leaf (point 12) 2500 (f32 9 10); leaf (point 13) 600 (f32 1 10)].
Definition won_tree : tree := mk_tree won_root S_BLACK.
(** A root with exactly 1000 playouts and nothing to choose yet. *)
Definition bare_tree : tree := mk_tree (leaf pass 1000 (f32 1 2)) S_BLACK.
Definition past_tree : tree := mk_tree (leaf pass 1001 (f32 1 2)) S_BLACK.

Definition first_child (r : tree_node) (_ : board) (_ : stone) : option node_ptr :=
  match children r with [] => None | _ => Some [0%nat] end.
Definition policy0 : Uct.uct_policy :=
  {| Uct.pol_choose := first_child;
     Uct.pol_winner := Some (fun _ r => first_child r board0 S_BLACK);
     Uct.pol_evaluate := true |}.

Definition ownermap0 (n : Z) : Uct.board_ownermap :=
  {| Uct.om_playouts := n; Uct.om_map := [] |}.

Definition uct0 (t : option tree) (om_games : Z) : @Uct.uct unit unit :=
  {| Uct.u_id := 1; Uct.debug_level := 0; Uct.dumpthres := 1000;
     Uct.max_tree_size := 3221225472; Uct.fast_alloc := false;
     Uct.force_seed := 0; Uct.no_book := true; Uct.dynkomi := 0;
     Uct.dynkomi_mask := 1; Uct.threads := 1; Uct.thread_model := Uct.TM_TREEVL;
     Uct.parallel_tree := true; Uct.pondering_opt := false;
     Uct.pass_all_alive := false; Uct.fuseki_end := 20; Uct.yose_start := 40;
     Uct.resign_ratio := f32 2 10; Uct.loss_threshold := f32 85 100;
     Uct.policy := Some policy0; Uct.random_policy := None;
     Uct.random_policy_chance := 0; Uct.playout := Some tt;
     Uct.u_prior := Some tt; Uct.pondering := false; Uct.u_t := t;
     Uct.ownermap := ownermap0 om_games |}.

Definition world0 (t : option tree) (om_games : Z) : @Uct.world unit unit :=
  {| Uct.w_u := uct0 t om_games; Uct.w_out := []; Uct.w_running := false |}.

(** A position after one move, held by engine 1. *)
Definition board_mid : board :=
  {| b_size := 11; b_size2 := 121; b_f := [point 12; point 13]; b_moves := 1;
     b_last_move := {| m_coord := point 14; m_color := S_BLACK |};
     b_superko_violation := false; b_es := Some 1%nat |}.

Definition ti_games (g : Z) : Uct.time_info :=
  {| Uct.period := Uct.TT_MOVE; Uct.dim := Uct.TD_GAMES; Uct.len := Uct.len_games g |}.

Definition tree_init0 (_ : board) (c : stone) (_ : Z) : tree :=
  mk_tree (leaf pass 0 F32.zero) c.
Definition tree_load0 (t : tree) (_ : board) : tree := t.
Definition extra_komi0 (_ : @Uct.uct unit unit) (_ : board) : F32.t := F32.zero.
Definition node_value0 (_ : tree) (_ : Z) (v : F32.t) : F32.t := v.
(** Re-rooting at the node pointed to. *)
Definition promote0 (t : tree) (p : node_ptr) : tree * node_ptr :=
  match node_at (root t) p with
  | Some n => ({| root := n; root_color := stone_other (root_color t);
                  extra_komi := extra_komi t; nodes_size := nodes_size t |}, [])
  | None => (t, p)
  end.
Definition judge0 (_ : board) (_ : Uct.board_ownermap) (_ : F64.t) : unit := tt.
Definition dead0 (_ : board) (_ : unit) (mq : unit) : unit := mq.
Definition safe0 (_ : board) (_ : stone) (_ : unit) : bool := true.
Definition byoyomi0 (_ : Uct.time_info) : bool := false.
Definition moves_left0 (_ : board) : Z := 50.
Definition playout0 (us : @Uct.uct unit unit) (_ : board) (_ : stone)
  : @Uct.uct unit unit :=
  Uct.set_ownermap us {| Uct.om_playouts := Uct.om_playouts (Uct.ownermap us) + 1;
                         Uct.om_map := Uct.om_map (Uct.ownermap us) |}.
Definition board_play0 (b : board) (_ : move) : Z * board := (0, b).

(** A search that has passed 1000 games at its first poll and leaves the
    lost position. *)
Definition env_lost : Uct.genmove_env :=
  {| Uct.ge_pondered := lost_tree;
     Uct.ge_search := {| Uct.polls := [ {| Uct.p_tree := past_tree;
                                           Uct.p_now := F64.zero |} ];
                         Uct.stopped_tree := lost_tree;
                         Uct.stopped_games := 1001 |} |}.

Definition policy_init0 (_ : @Uct.uct unit unit) : Uct.uct_policy := policy0.
Definition prior_init0 (_ : board) : unit := tt.
Definition set_debug0 (p : unit) (_ : Z) : unit := p.
Definition malloc0 (_ : Z) : list (list Z) := [].

Definition poll_of (t : tree) : Uct.poll :=
  {| Uct.p_tree := t; Uct.p_now := F64.zero |}.

(** Root parallelisation with two workers. *)
Definition uct_root : @Uct.uct unit unit :=
  {| Uct.u_id := 1; Uct.debug_level := 0; Uct.dumpthres := 1000;
     Uct.max_tree_size := 3221225472; Uct.fast_alloc := false;
     Uct.force_seed := 0; Uct.no_book := true; Uct.dynkomi := 0;
     Uct.dynkomi_mask := 1; Uct.threads := 2; Uct.thread_model := Uct.TM_ROOT;
     Uct.parallel_tree := false; Uct.pondering_opt := false;
     Uct.pass_all_alive := false; Uct.fuseki_end := 20; Uct.yose_start := 40;
     Uct.resign_ratio := f32 2 10; Uct.loss_threshold := f32 85 100;
     Uct.policy := Some policy0; Uct.random_policy := None;
     Uct.random_policy_chance := 0; Uct.playout := Some tt;
     Uct.u_prior := Some tt; Uct.pondering := false; Uct.u_t := Some won_tree;
     Uct.ownermap := ownermap0 0 |}.
Definition store0 : Uct.store :=
  {| Uct.cells := fun p => match p with O => Some won_tree | _ => None end;
     Uct.next := 1%nat |}.
Definition mctx0 : Uct.spawn_ctx :=
  {| Uct.tid := 0; Uct.ctx_b := board_mid; Uct.ctx_color := S_WHITE;
     Uct.ctx_t := 0%nat; Uct.seed := 42; Uct.games := 0 |}.
Definition random0 (s : Z) (k : nat) (bound : Z) : Z := (s + Z.of_nat k) mod bound.
(** Worker [tid] plays [100 * (tid + 1)] games, all through the root. *)
Definition worker0 (_ : @Uct.uct unit unit) (ctx : Uct.spawn_ctx) (t : tree)
  : tree * Z :=
  let g := 100 * (Uct.tid ctx + 1) in
  (set_root t (Node (coord (root t))
                    (stats (playouts (u (root t)) + g) (value (u (root t))))
                    (amaf (root t)) (prior (root t)) (children (root t))),
   g).
(** Worker 1 finishes first; the caller's stop signal arrives before worker
    0 finishes. *)
Definition events0 : list Z := [1; -1; 0].

Definition loop0 : Uct.loop_state :=
  {| Uct.last_print := 0; Uct.print_fullmem := false;
     Uct.best := None; Uct.winner := None |}.

End Examples.

(* ================================================================== *)
(** ** C strings and the library calls on them *)

From Stdlib Require Ascii String.

Module CStr.
Import Ascii.AsciiSyntax String.StringSyntax.
Local Open Scope char_scope.

(** A [char *] to a NUL-terminated string: the characters before the NUL. *)
Definition cstring : Type := list Ascii.ascii.

Definition str (s : String.string) : cstring := String.list_ascii_of_string s.

Definition code (c : Ascii.ascii) : Z := Z.of_nat (Ascii.nat_of_ascii c).

Definition ch_space : Ascii.ascii := " ".
Definition ch_newline : Ascii.ascii := "010".
Definition ch_tab : Ascii.ascii := "009".
Definition ch_comma : Ascii.ascii := ",".
Definition ch_colon : Ascii.ascii := ":".
Definition ch_equals : Ascii.ascii := "=".
Definition ch_zero : Ascii.ascii := "0".

(** <ctype.h> in the "C" locale. *)
Definition tolower (c : Ascii.ascii) : Ascii.ascii :=
  if (65 <=? code c) && (code c <=? 90)
  then Ascii.ascii_of_nat (Ascii.nat_of_ascii c + 32)
  else c.
Definition isspace (c : Ascii.ascii) : bool :=
  (code c =? 32) || ((9 <=? code c) && (code c <=? 13)).
Definition isdigit (c : Ascii.ascii) : bool :=
  (48 <=? code c) && (code c <=? 57).

(** [!strcasecmp(a, b)]. *)
Fixpoint strcaseeq (a b : cstring) : bool :=
  match a, b with
  | [], [] => true
  | x :: a', y :: b' => Ascii.eqb (tolower x) (tolower y) && strcaseeq a' b'
  | _, _ => false
  end.

(** [!strncasecmp(a, b, n)]. *)
Fixpoint strncaseeq (n : nat) (a b : cstring) : bool :=
  match n with
  | O => true
  | S k =>
      match a, b with
      | [], [] => true
      | x :: a', y :: b' => Ascii.eqb (tolower x) (tolower y) && strncaseeq k a' b'
      | _, _ => false
      end
  end.

(** [s + strspn(s, accept)]. *)
Fixpoint skip (accept : Ascii.ascii -> bool) (s : cstring) : cstring :=
  match s with
  | c :: r => if accept c then skip accept r else s
  | [] => []
  end.

(** [strchr(s, sep)] (or [s + strcspn(s, sep)]) with a NUL written over the
    separator found: the string up to the separator, and the string after
    it, if there is a separator. *)
Fixpoint break_at (sep : Ascii.ascii) (s : cstring) : cstring * option cstring :=
  match s with
  | [] => ([], None)
  | c :: r =>
      if Ascii.eqb c sep then ([], Some r)
      else let '(tok, rest) := break_at sep r in (c :: tok, rest)
  end.

Definition INT_MAX : Z := 2147483647.
Definition INT_MIN : Z := -2147483648.
Definition in_int (v : Z) : bool := (INT_MIN <=? v) && (v <=? INT_MAX).

(** The digits at the head of [s], read in base 10 onto [acc]. *)
Fixpoint digits (s : cstring) (acc : Z) : Z :=
  match s with
  | c :: r => if isdigit c then digits r (10 * acc + (code c - 48)) else acc
  | [] => acc
  end.

(** <stdlib.h>: white space, an optional sign, decimal digits; 0 when there
    is no digit.  [None]: the value does not fit, which is undefined. *)
Definition strtol10 (s : cstring) : Z :=
  match skip isspace s with
  | "-" :: r => - digits r 0
  | "+" :: r => digits r 0
  | r => digits r 0
  end.
Definition atoi (s : cstring) : option Z :=
  let v := strtol10 s in if in_int v then Some v else None.

End CStr.

(** Conversion of a [float] to [int]: the fraction is discarded; a value
    that does not fit, an infinity or a NaN is undefined. *)
Definition float_to_int (x : spec_float) : option Z :=
  match x with
  | S754_zero _ => Some 0
  | S754_finite s m e =>
      let v := if 0 <=? e then Z.shiftl (Zpos m) e else Z.shiftr (Zpos m) (- e) in
      let v := if s then - v else v in
      if CStr.in_int v then Some v else None
  | _ => None
  end.

(* ================================================================== *)
(** ** uct/uct.c: the other engine hooks *)

Module UctHooks.
Import Uct.
Section Hooks.

Variable DEBUGL_ : Z -> Z -> bool.
Context {playout_policy uct_prior : Type}.
Variable tree_init : board -> stone -> Z -> tree.
Variable tree_load : tree -> board -> tree.
Variable uct_get_extra_komi : @uct playout_policy uct_prior -> board -> F32.t.
Variable tree_node_get_value : tree -> Z -> F32.t -> F32.t.
Context {group_judgement move_queue : Type}.
Variable board_ownermap_judge_group :
  board -> board_ownermap -> F64.t -> group_judgement.
Variable groups_of_dead_status :
  board -> group_judgement -> move_queue -> move_queue.
Variable time_in_byoyomi : time_info -> bool.
Variable board_estimated_moves_left : board -> Z.
Variable MIN_MOVES_LEFT : Z.
Variable uct_playout : @uct playout_policy uct_prior -> board -> stone
                       -> @uct playout_policy uct_prior.
(** uct/tree.h: [tree_promote_at] re-roots the tree at the child of the
    move and says whether there was one; [tree_save] writes the book. *)
Variable tree_promote_at : tree -> board -> coord_t -> option tree.
Context {book : Type}.
Variable tree_save : tree -> board -> Z -> book.

Definition has_tree (us : @uct playout_policy uct_prior) : bool :=
  match u_t us with Some _ => true | None => false end.

(** What [uct_notify_play] itself prints. *)
Inductive notify_warning : Type := WarnCannotPromote.

(** [pondered]: the tree as a background search leaves it when stopped. *)
Definition uct_notify_play (w : world) (b : board) (m : move) (pondered : tree)
  : outcome (world * board * list notify_warning) :=
  '(w, b) <-
    (if negb (has_tree (w_u w)) then
       '(w, b) <- prepare_move DEBUGL_ tree_init tree_load uct_get_extra_komi
                               w b (m_color m) ;;
       _ <- assert (has_tree (w_u w)) w ;;
       Done (w, b)
     else Done (w, b)) ;;
  w <- uct_pondering_stop DEBUGL_ w pondered ;;
  if is_resign (m_coord m) then
    w <- reset_state w ;;
    Done (w, b, [])
  else
    match u_t (w_u w) with
    | None => Undefined
    | Some t =>
        match tree_promote_at t b (m_coord m) with
        | None =>
            let warn := if UDEBUGL DEBUGL_ (w_u w) 0 then [WarnCannotPromote]
                        else [] in
            w <- reset_state w ;;
            Done (w, b, warn)
        | Some t' => Done (put_u w (set_t (w_u w) (Some t')), b, [])
        end
    end.

(** [for (i = 0; i < n; i++) uct_playout(u, b, color, u->t)]. *)
Fixpoint playouts_n (n : nat) (us : @uct playout_policy uct_prior) (b : board)
         (color : stone) : @uct playout_policy uct_prior :=
  match n with
  | O => us
  | S k => playouts_n k (uct_playout us b color) b color
  end.

(** Returns the queue written through [mq]. *)
Definition uct_dead_group_list (w : world) (b : board) (mq : move_queue)
           (pondered : tree) : outcome (world * board * move_queue) :=
  w <- uct_pondering_stop DEBUGL_ w pondered ;;
  if pass_all_alive (w_u w) then Done (w, b, mq)
  else
    '(w, b, mock_state) <-
      (if negb (has_tree (w_u w)) then
         '(w, b) <- prepare_move DEBUGL_ tree_init tree_load uct_get_extra_komi
                                 w b S_BLACK ;;
         _ <- assert (has_tree (w_u w)) w ;;
         Done (put_u w (playouts_n (Z.to_nat GJ_MINGAMES) (w_u w) b S_BLACK),
               b, true)
       else Done (w, b, false)) ;;
    let mq := dead_group_list board_ownermap_judge_group groups_of_dead_status
                              (w_u w) b mq in
    if mock_state : bool then
      w <- reset_state w ;;
      Done (w, b, mq)
    else Done (w, b, mq).

(** The engine state of [uct_done]; the frees are not modelled. *)
Definition uct_done (w : world) (pondered : tree) : outcome world :=
  w <- uct_pondering_stop DEBUGL_ w pondered ;;
  if has_tree (w_u w) then reset_state w else Done w.

(** The choice of the policy points into the polled tree. *)
Definition choice_in_tree (pol : uct_policy) (b : board) (color : stone)
           (pl : poll) : Prop :=
  forall p, pol_choose pol (root (p_tree pl)) b color = Some p ->
            node_at (root (p_tree pl)) p <> None.

(** The poll is past the hard limit of the budget. *)
Definition past_worst (ti : time_info) (stop : stop_conditions) (pl : poll)
  : Prop :=
  match dim ti, stop with
  | TD_GAMES, stop_p _ worst => worst < playouts (u (root (p_tree pl)))
  | TD_WALLTIME, stop_t _ worst => fgtb (p_now pl) worst = true
  | _, _ => False
  end.

Definition is_TD_GAMES (d : time_dimension) : bool :=
  match d with TD_GAMES => true | TD_WALLTIME => false end.

(** A signed sum outside the range of [int] is undefined. *)
Definition int_add (x y : Z) : outcome Z :=
  if CStr.in_int (x + y) then Done (x + y) else Undefined.

(** Returns the book [tree_save] writes, with the state and the time
    settings as left. *)
Definition uct_genbook (w : world) (b : board) (ti : time_info) (color : stone)
           (env : search_env) : outcome (world * board * time_info * book) :=
  '(w, b) <-
    (if negb (has_tree (w_u w)) then
       prepare_move DEBUGL_ tree_init tree_load uct_get_extra_komi w b color
     else Done (w, b)) ;;
  _ <- assert (has_tree (w_u w)) w ;;
  match u_t (w_u w) with
  | None => Undefined
  | Some t =>
      ti <- (if is_TD_GAMES (dim ti) then
               match len ti with
               | len_games games =>
                   games <- int_add games (playouts (u (root t))) ;;
                   Done {| period := period ti; dim := dim ti;
                           len := len_games games |}
               | len_t _ _ _ _ => Undefined
               end
             else Done ti) ;;
      '(w, ti, _) <- uct_search DEBUGL_ tree_node_get_value time_in_byoyomi
                                board_estimated_moves_left MIN_MOVES_LEFT
                                w b ti color env ;;
      _ <- assert (is_TD_GAMES (dim ti)) w ;;
      match u_t (w_u w), len ti with
      | Some t, len_games games =>
          Done (w, b, ti, tree_save t b (Z.quot games 100))
      | _, _ => Undefined
      end
  end.

End Hooks.
End UctHooks.

(* ================================================================== *)
(** ** uct/uct.c: the chat hook *)

Module UctChat.
Import Uct CStr.
Import String.StringSyntax.
Local Open Scope string_scope.
Section Chat.

Context {playout_policy uct_prior : Type}.
Variable tree_node_get_value : tree -> Z -> F32.t -> F32.t.

(** What [uct_chat] returns: [NULL], the fixed string, or the sentence
    [snprintf] builds, given by the values it prints in order, with the
    clause on the extra komi if it is there. *)
Inductive chat_reply : Type :=
| NoReply
| NoGameContext
| Winrate (playouts threads : Z) (color : stone) (c : coord_t)
          (percent : F32.t) (extra_komi : option F32.t).

Definition is_blank (c : Ascii.ascii) : bool :=
  Ascii.eqb c ch_space || Ascii.eqb c ch_newline || Ascii.eqb c ch_tab.

(** [abs] of <stdlib.h> takes and returns an [int]; [abs(INT_MIN)] is
    undefined. *)
Definition int_abs (v : Z) : outcome Z :=
  if v =? CStr.INT_MIN then Undefined else Done (Z.abs v).

Definition uct_chat (us : @uct playout_policy uct_prior) (b : board)
           (cmd : cstring) : outcome chat_reply :=
  let cmd := skip is_blank cmd in
  if strncaseeq 7 cmd (str "winrate") then
    match u_t us with
    | None => Done NoGameContext
    | Some t =>
        let color := root_color t in
        let n := root t in
        let percent :=
          F32.mul (tree_node_get_value t (-1) (value (u n))) (F32.of_Z 100) in
        match float_to_int (extra_komi t) with
        | None => Undefined
        | Some k =>
            a <- int_abs k ;;
            Done (Winrate (playouts (u n)) (threads us) color (coord n) percent
                          (if fgeb (F64.of_Z a) (F64.lit 5 10)
                           then Some (extra_komi t) else None))
        end
    end
  else Done NoReply.

End Chat.
End UctChat.

(* ================================================================== *)
(** ** The option strings of the two init functions *)

(** Both [playout_elo_init] and [uct_state_init] walk their argument with
    the same loop: cut the next option at the separator, cut it at the
    first '=', dispatch on the name. *)
Module OptArg.
Import CStr.

Inductive init_result (A E : Type) : Type :=
| Init (x : A)             (* the function returns *)
| Exit1 (e : E)            (* [exit(1)] after the message [e] *)
| InitUndefined            (* undefined behaviour *)
| InitPending.             (* out of fuel *)
Arguments Init {A E} x.
Arguments Exit1 {A E} e.
Arguments InitUndefined {A E}.
Arguments InitPending {A E}.

(** How the body of the loop ends for one option. *)
Inductive step (A E : Type) : Type :=
| Next (x : A)             (* on to the next option *)
| Last (x : A)             (* [break] *)
| Stop (r : init_result A E).
Arguments Next {A E} x.
Arguments Last {A E} x.
Arguments Stop {A E} r.

Definition has_value (optval : option cstring) : bool :=
  match optval with Some _ => true | None => false end.
(** [optval] where it is known not to be [NULL]. *)
Definition the_value (optval : option cstring) : cstring :=
  match optval with Some v => v | None => [] end.

(** The loop [while ( *next )]: [optspec = next],
    [next += strcspn(next, sep)], a NUL over the separator,
    [optval = strchr(optspec, '=')]; [body] gets the name, the value and
    [next]. *)
Fixpoint option_loop {A E : Type} (sep : Ascii.ascii)
         (body : cstring -> option cstring -> cstring -> A -> step A E)
         (fuel : nat) (next : cstring) (st : A) : init_result A E :=
  match next with
  | [] => Init st
  | _ :: _ =>
      match fuel with
      | O => InitPending
      | S k =>
          let '(optspec, rest) := break_at sep next in
          let next := match rest with Some r => r | None => [] end in
          let '(optname, optval) := break_at ch_equals optspec in
          match body optname optval next st with
          | Next st => option_loop sep body k next st
          | Last st => Init st
          | Stop r => r
          end
      end
  end.

(** Every turn of the loop moves [next] forward: the length of the string
    is enough fuel. *)
Definition options {A E : Type} (sep : Ascii.ascii)
           (body : cstring -> option cstring -> cstring -> A -> step A E)
           (arg : cstring) (st : A) : init_result A E :=
  option_loop sep body (length arg) arg st.

End OptArg.

(* ================================================================== *)
(** ** playout/elo.c: [playout_elo_init] *)

Module EloInit.
Import CStr OptArg.
Import String.StringSyntax.
Local Open Scope string_scope.
Section Init.

(** pattern.h, patternsp.h: the pattern configurations, the dictionary of
    spatial patterns and the gamma tables; a [pattern_spec] is an array of
    [FEAT_MAX] ints. *)
Context {pattern_config features_gamma spatial_dict : Type}.
Variable features_gamma_filename : cstring.
Variable DEFAULT_PATTERN_CONFIG FAST_PATTERN_CONFIG : pattern_config.
(** [pc.spat_dict = d]. *)
Variable set_spat_dict : pattern_config -> spatial_dict -> pattern_config.
Variable spatial_dict_init : bool -> spatial_dict.
Variable features_gamma_init : pattern_config -> cstring -> features_gamma.
Variable FEAT_MAX : nat.
Variable FEAT_SPATIAL : nat.
Variable PATTERN_SPEC_MATCHALL PATTERN_SPEC_MATCHFAST : list Z.
(** <stdlib.h>. *)
Variable atof : cstring -> F64.t.

(** The locals the option loop sets. *)
Record elo_args : Type := {
  a_selfatari : F32.t;
  a_gammafile : cstring;
  a_xspat : Z
}.

Inductive elo_exit : Type :=
| InvalidPolicyArgument (optname : cstring).

Definition elo_option (optname : cstring) (optval : option cstring)
           (next : cstring) (a : elo_args) : step elo_args elo_exit :=
  if strcaseeq optname (str "selfatari") && has_value optval then
    Next {| a_selfatari := F32.round (atof (the_value optval));
            a_gammafile := a_gammafile a; a_xspat := a_xspat a |}
  else if strcaseeq optname (str "gammafile") && has_value optval then
    Next {| a_selfatari := a_selfatari a;
            a_gammafile := the_value optval; a_xspat := a_xspat a |}
  else if strcaseeq optname (str "xspat") && has_value optval then
    match atoi (the_value optval) with
    | Some x => Next {| a_selfatari := a_selfatari a;
                        a_gammafile := a_gammafile a; a_xspat := x |}
    | None => Stop InitUndefined
    end
  else Stop (Exit1 (InvalidPolicyArgument optname)).

(** [for (i = 0; i < FEAT_MAX; i++) if (...) ps[i] = 0], from [i] on. *)
Fixpoint mask_from (n : nat) (i : nat) (xspat : Z) (ps : list Z) : list Z :=
  match n with
  | O => ps
  | S k =>
      mask_from k (S i) xspat
        (if ((xspat =? 0) && Nat.eqb i FEAT_SPATIAL)
            || ((xspat =? 1) && negb (Nat.eqb i FEAT_SPATIAL))
         then list_set ps i 0 else ps)
  end.
Definition mask_spec (xspat : Z) (ps : list Z) : list Z :=
  mask_from FEAT_MAX 0 xspat ps.

(** What [playout_elo_init] builds: the policy data [p->data], with the
    two files the gamma tables were read from. *)
Record elo_playout : Type := {
  ep_policy : @Elo.elo_policy (list Z) pattern_config features_gamma;
  ep_gammafile : cstring;
  ep_cgammafile : cstring
}.

(** [char cgammafile[256]; strcpy(stpcpy(cgammafile, gammafile), "f")]:
    the name, the 'f' and the NUL have to fit. *)
Definition cgammafile_of (gammafile : cstring) : option cstring :=
  if (Z.of_nat (length gammafile) + 2 <=? 256) then Some (gammafile ++ str "f")
  else None.

Definition playout_elo_init (arg : option cstring)
  : init_result elo_playout elo_exit :=
  let a0 := {| a_selfatari := F32.round (F64.lit 6 100);
               a_gammafile := features_gamma_filename;
               a_xspat := -1 |} in
  match (match arg with
         | Some s => options ch_colon elo_option s a0
         | None => Init a0
         end) with
  | Init a =>
      let dict := spatial_dict_init false in
      let pc := set_spat_dict DEFAULT_PATTERN_CONFIG dict in
      let assess :=
        {| Elo.ps := mask_spec (a_xspat a) PATTERN_SPEC_MATCHALL;
           Elo.pc := pc;
           Elo.fg := features_gamma_init pc (a_gammafile a) |} in
      let cpc := set_spat_dict FAST_PATTERN_CONFIG dict in
      match cgammafile_of (a_gammafile a) with
      | None => InitUndefined
      | Some cgammafile =>
          let choose :=
            {| Elo.ps := mask_spec (a_xspat a) PATTERN_SPEC_MATCHFAST;
               Elo.pc := cpc;
               Elo.fg := features_gamma_init cpc cgammafile |} in
          Init {| ep_policy := {| Elo.selfatari := a_selfatari a;
                                  Elo.choose := choose;
                                  Elo.assess := assess |};
                  ep_gammafile := a_gammafile a;
                  ep_cgammafile := cgammafile |}
      end
  | Exit1 e => Exit1 e
  | InitUndefined => InitUndefined
  | InitPending => InitPending
  end.

End Init.
End EloInit.

(* ================================================================== *)
(** ** uct/uct.c: [uct_state_init] and [engine_uct_init] *)

Module UctInit.
Import Uct CStr OptArg.
Import String.StringSyntax.
Local Open Scope string_scope.
Section Init.

Context {playout_policy uct_prior : Type}.

(** uct/policy, playout/moggy.h, playout/light.h, uct/prior.h: the
    components an option can ask for, with the rest of the option string
    as argument ([None] is [NULL]). *)
Variable policy_ucb1_init :
  @uct playout_policy uct_prior -> option cstring -> uct_policy.
Variable policy_ucb1amaf_init :
  @uct playout_policy uct_prior -> option cstring -> uct_policy.
Variable playout_moggy_init : option cstring -> playout_policy.
Variable playout_light_init : option cstring -> playout_policy.
(** playout/elo.c: [playout_elo_init] (see [EloInit]) behind the
    [struct playout_policy] it returns. *)
Variable playout_elo_init :
  option cstring -> init_result playout_policy EloInit.elo_exit.
Variable uct_prior_init : option cstring -> board -> uct_prior.
Variable playout_set_debug_level : playout_policy -> Z -> playout_policy.
Variable malloc_ownermap : Z -> list (list Z).
(** <stdlib.h>, board.h. *)
Variable atof : cstring -> F64.t.
Variable MC_GAMELEN : Z.
(** The width of [long] and [unsigned long]. *)
Variable long_bits : Z.

(** [atol]: as [atoi], for a [long]. *)
Definition in_long (v : Z) : bool :=
  (- 2 ^ (long_bits - 1) <=? v) && (v <=? 2 ^ (long_bits - 1) - 1).
Definition atol (s : cstring) : option Z :=
  let v := strtol10 s in if in_long v then Some v else None.

Definition set_debug_level (us : @uct playout_policy uct_prior) (v : Z)
  : @uct playout_policy uct_prior :=
  {| u_id := u_id us; debug_level := v; dumpthres := dumpthres us;
     max_tree_size := max_tree_size us; fast_alloc := fast_alloc us;
     force_seed := force_seed us; no_book := no_book us;
     dynkomi := dynkomi us; dynkomi_mask := dynkomi_mask us;
     threads := threads us; thread_model := thread_model us;
     parallel_tree := parallel_tree us; pondering_opt := pondering_opt us;
     pass_all_alive := pass_all_alive us; fuseki_end := fuseki_end us;
     yose_start := yose_start us; resign_ratio := resign_ratio us;
     loss_threshold := loss_threshold us; policy := policy us;
     random_policy := random_policy us;
     random_policy_chance := random_policy_chance us; playout := playout us;
     u_prior := u_prior us; pondering := pondering us; u_t := u_t us;
     ownermap := ownermap us |}.
Definition set_dumpthres (us : @uct playout_policy uct_prior) (v : Z)
  : @uct playout_policy uct_prior :=
  {| u_id := u_id us; debug_level := debug_level us; dumpthres := v;
     max_tree_size := max_tree_size us; fast_alloc := fast_alloc us;
     force_seed := force_seed us; no_book := no_book us;
     dynkomi := dynkomi us; dynkomi_mask := dynkomi_mask us;
     threads := threads us; thread_model := thread_model us;
     parallel_tree := parallel_tree us; pondering_opt := pondering_opt us;
     pass_all_alive := pass_all_alive us; fuseki_end := fuseki_end us;
     yose_start := yose_start us; resign_ratio := resign_ratio us;
     loss_threshold := loss_threshold us; policy := policy us;
     random_policy := random_policy us;
     random_policy_chance := random_policy_chance us; playout := playout us;
     u_prior := u_prior us; pondering := pondering us; u_t := u_t us;
     ownermap := ownermap us |}.
Definition set_max_tree_size (us : @uct playout_policy uct_prior) (v : Z)
  : @uct playout_policy uct_prior :=
  {| u_id := u_id us; debug_level := debug_level us;
     dumpthres := dumpthres us; max_tree_size := v;
     fast_alloc := fast_alloc us; force_seed := force_seed us;
     no_book := no_book us; dynkomi := dynkomi us;
     dynkomi_mask := dynkomi_mask us; threads := threads us;
     thread_model := thread_model us; parallel_tree := parallel_tree us;
     pondering_opt := pondering_opt us; pass_all_alive := pass_all_alive us;
     fuseki_end := fuseki_end us; yose_start := yose_start us;
     resign_ratio := resign_ratio us; loss_threshold := loss_threshold us;
     policy := policy us; random_policy := random_policy us;
     random_policy_chance := random_policy_chance us; playout := playout us;
     u_prior := u_prior us; pondering := pondering us; u_t := u_t us;
     ownermap := ownermap us |}.
Definition set_force_seed (us : @uct playout_policy uct_prior) (v : Z)
  : @uct playout_policy uct_prior :=
  {| u_id := u_id us; debug_level := debug_level us;
     dumpthres := dumpthres us; max_tree_size := max_tree_size us;
     fast_alloc := fast_alloc us; force_seed := v; no_book := no_book us;
     dynkomi := dynkomi us; dynkomi_mask := dynkomi_mask us;
     threads := threads us; thread_model := thread_model us;
     parallel_tree := parallel_tree us; pondering_opt := pondering_opt us;
     pass_all_alive := pass_all_alive us; fuseki_end := fuseki_end us;
     yose_start := yose_start us; resign_ratio := resign_ratio us;
     loss_threshold := loss_threshold us; policy := policy us;
     random_policy := random_policy us;
     random_policy_chance := random_policy_chance us; playout := playout us;
     u_prior := u_prior us; pondering := pondering us; u_t := u_t us;
     ownermap := ownermap us |}.
Definition set_no_book (us : @uct playout_policy uct_prior) (v : bool)
  : @uct playout_policy uct_prior :=
  {| u_id := u_id us; debug_level := debug_level us;
     dumpthres := dumpthres us; max_tree_size := max_tree_size us;
     fast_alloc := fast_alloc us; force_seed := force_seed us; no_book := v;
     dynkomi := dynkomi us; dynkomi_mask := dynkomi_mask us;
     threads := threads us; thread_model := thread_model us;
     parallel_tree := parallel_tree us; pondering_opt := pondering_opt us;
     pass_all_alive := pass_all_alive us; fuseki_end := fuseki_end us;
     yose_start := yose_start us; resign_ratio := resign_ratio us;
     loss_threshold := loss_threshold us; policy := policy us;
     random_policy := random_policy us;
     random_policy_chance := random_policy_chance us; playout := playout us;
     u_prior := u_prior us; pondering := pondering us; u_t := u_t us;
     ownermap := ownermap us |}.
Definition set_dynkomi (us : @uct playout_policy uct_prior) (v : Z)
  : @uct playout_policy uct_prior :=
  {| u_id := u_id us; debug_level := debug_level us;
     dumpthres := dumpthres us; max_tree_size := max_tree_size us;
     fast_alloc := fast_alloc us; force_seed := force_seed us;
     no_book := no_book us; dynkomi := v; dynkomi_mask := dynkomi_mask us;
     threads := threads us; thread_model := thread_model us;
     parallel_tree := parallel_tree us; pondering_opt := pondering_opt us;
     pass_all_alive := pass_all_alive us; fuseki_end := fuseki_end us;
     yose_start := yose_start us; resign_ratio := resign_ratio us;
     loss_threshold := loss_threshold us; policy := policy us;
     random_policy := random_policy us;
     random_policy_chance := random_policy_chance us; playout := playout us;
     u_prior := u_prior us; pondering := pondering us; u_t := u_t us;
     ownermap := ownermap us |}.
Definition set_dynkomi_mask (us : @uct playout_policy uct_prior) (v : Z)
  : @uct playout_policy uct_prior :=
  {| u_id := u_id us; debug_level := debug_level us;
     dumpthres := dumpthres us; max_tree_size := max_tree_size us;
     fast_alloc := fast_alloc us; force_seed := force_seed us;
     no_book := no_book us; dynkomi := dynkomi us; dynkomi_mask := v;
     threads := threads us; thread_model := thread_model us;
     parallel_tree := parallel_tree us; pondering_opt := pondering_opt us;
     pass_all_alive := pass_all_alive us; fuseki_end := fuseki_end us;
     yose_start := yose_start us; resign_ratio := resign_ratio us;
     loss_threshold := loss_threshold us; policy := policy us;
     random_policy := random_policy us;
     random_policy_chance := random_policy_chance us; playout := playout us;
     u_prior := u_prior us; pondering := pondering us; u_t := u_t us;
     ownermap := ownermap us |}.
Definition set_threads (us : @uct playout_policy uct_prior) (v : Z)
  : @uct playout_policy uct_prior :=
  {| u_id := u_id us; debug_level := debug_level us;
     dumpthres := dumpthres us; max_tree_size := max_tree_size us;
     fast_alloc := fast_alloc us; force_seed := force_seed us;
     no_book := no_book us; dynkomi := dynkomi us;
     dynkomi_mask := dynkomi_mask us; threads := v;
     thread_model := thread_model us; parallel_tree := parallel_tree us;
     pondering_opt := pondering_opt us; pass_all_alive := pass_all_alive us;
     fuseki_end := fuseki_end us; yose_start := yose_start us;
     resign_ratio := resign_ratio us; loss_threshold := loss_threshold us;
     policy := policy us; random_policy := random_policy us;
     random_policy_chance := random_policy_chance us; playout := playout us;
     u_prior := u_prior us; pondering := pondering us; u_t := u_t us;
     ownermap := ownermap us |}.
Definition set_pondering_opt (us : @uct playout_policy uct_prior) (v : bool)
  : @uct playout_policy uct_prior :=
  {| u_id := u_id us; debug_level := debug_level us;
     dumpthres := dumpthres us; max_tree_size := max_tree_size us;
     fast_alloc := fast_alloc us; force_seed := force_seed us;
     no_book := no_book us; dynkomi := dynkomi us;
     dynkomi_mask := dynkomi_mask us; threads := threads us;
     thread_model := thread_model us; parallel_tree := parallel_tree us;
     pondering_opt := v; pass_all_alive := pass_all_alive us;
     fuseki_end := fuseki_end us; yose_start := yose_start us;
     resign_ratio := resign_ratio us; loss_threshold := loss_threshold us;
     policy := policy us; random_policy := random_policy us;
     random_policy_chance := random_policy_chance us; playout := playout us;
     u_prior := u_prior us; pondering := pondering us; u_t := u_t us;
     ownermap := ownermap us |}.
Definition set_pass_all_alive (us : @uct playout_policy uct_prior) (v : bool)
  : @uct playout_policy uct_prior :=
  {| u_id := u_id us; debug_level := debug_level us;
     dumpthres := dumpthres us; max_tree_size := max_tree_size us;
     fast_alloc := fast_alloc us; force_seed := force_seed us;
     no_book := no_book us; dynkomi := dynkomi us;
     dynkomi_mask := dynkomi_mask us; threads := threads us;
     thread_model := thread_model us; parallel_tree := parallel_tree us;
     pondering_opt := pondering_opt us; pass_all_alive := v;
     fuseki_end := fuseki_end us; yose_start := yose_start us;
     resign_ratio := resign_ratio us; loss_threshold := loss_threshold us;
     policy := policy us; random_policy := random_policy us;
     random_policy_chance := random_policy_chance us; playout := playout us;
     u_prior := u_prior us; pondering := pondering us; u_t := u_t us;
     ownermap := ownermap us |}.
Definition set_fuseki_end (us : @uct playout_policy uct_prior) (v : Z)
  : @uct playout_policy uct_prior :=
  {| u_id := u_id us; debug_level := debug_level us;
     dumpthres := dumpthres us; max_tree_size := max_tree_size us;
     fast_alloc := fast_alloc us; force_seed := force_seed us;
     no_book := no_book us; dynkomi := dynkomi us;
     dynkomi_mask := dynkomi_mask us; threads := threads us;
     thread_model := thread_model us; parallel_tree := parallel_tree us;
     pondering_opt := pondering_opt us; pass_all_alive := pass_all_alive us;
     fuseki_end := v; yose_start := yose_start us;
     resign_ratio := resign_ratio us; loss_threshold := loss_threshold us;
     policy := policy us; random_policy := random_policy us;
     random_policy_chance := random_policy_chance us; playout := playout us;
     u_prior := u_prior us; pondering := pondering us; u_t := u_t us;
     ownermap := ownermap us |}.
Definition set_yose_start (us : @uct playout_policy uct_prior) (v : Z)
  : @uct playout_policy uct_prior :=
  {| u_id := u_id us; debug_level := debug_level us;
     dumpthres := dumpthres us; max_tree_size := max_tree_size us;
     fast_alloc := fast_alloc us; force_seed := force_seed us;
     no_book := no_book us; dynkomi := dynkomi us;
     dynkomi_mask := dynkomi_mask us; threads := threads us;
     thread_model := thread_model us; parallel_tree := parallel_tree us;
     pondering_opt := pondering_opt us; pass_all_alive := pass_all_alive us;
     fuseki_end := fuseki_end us; yose_start := v;
     resign_ratio := resign_ratio us; loss_threshold := loss_threshold us;
     policy := policy us; random_policy := random_policy us;
     random_policy_chance := random_policy_chance us; playout := playout us;
     u_prior := u_prior us; pondering := pondering us; u_t := u_t us;
     ownermap := ownermap us |}.
Definition set_policy (us : @uct playout_policy uct_prior) (v : option uct_policy)
  : @uct playout_policy uct_prior :=
  {| u_id := u_id us; debug_level := debug_level us;
     dumpthres := dumpthres us; max_tree_size := max_tree_size us;
     fast_alloc := fast_alloc us; force_seed := force_seed us;
     no_book := no_book us; dynkomi := dynkomi us;
     dynkomi_mask := dynkomi_mask us; threads := threads us;
     thread_model := thread_model us; parallel_tree := parallel_tree us;
     pondering_opt := pondering_opt us; pass_all_alive := pass_all_alive us;
     fuseki_end := fuseki_end us; yose_start := yose_start us;
     resign_ratio := resign_ratio us; loss_threshold := loss_threshold us;
     policy := v; random_policy := random_policy us;
     random_policy_chance := random_policy_chance us; playout := playout us;
     u_prior := u_prior us; pondering := pondering us; u_t := u_t us;
     ownermap := ownermap us |}.
Definition set_random_policy (us : @uct playout_policy uct_prior) (v : option uct_policy)
  : @uct playout_policy uct_prior :=
  {| u_id := u_id us; debug_level := debug_level us;
     dumpthres := dumpthres us; max_tree_size := max_tree_size us;
     fast_alloc := fast_alloc us; force_seed := force_seed us;
     no_book := no_book us; dynkomi := dynkomi us;
     dynkomi_mask := dynkomi_mask us; threads := threads us;
     thread_model := thread_model us; parallel_tree := parallel_tree us;
     pondering_opt := pondering_opt us; pass_all_alive := pass_all_alive us;
     fuseki_end := fuseki_end us; yose_start := yose_start us;
     resign_ratio := resign_ratio us; loss_threshold := loss_threshold us;
     policy := policy us; random_policy := v;
     random_policy_chance := random_policy_chance us; playout := playout us;
     u_prior := u_prior us; pondering := pondering us; u_t := u_t us;
     ownermap := ownermap us |}.
Definition set_random_policy_chance (us : @uct playout_policy uct_prior) (v : Z)
  : @uct playout_policy uct_prior :=
  {| u_id := u_id us; debug_level := debug_level us;
     dumpthres := dumpthres us; max_tree_size := max_tree_size us;
     fast_alloc := fast_alloc us; force_seed := force_seed us;
     no_book := no_book us; dynkomi := dynkomi us;
     dynkomi_mask := dynkomi_mask us; threads := threads us;
     thread_model := thread_model us; parallel_tree := parallel_tree us;
     pondering_opt := pondering_opt us; pass_all_alive := pass_all_alive us;
     fuseki_end := fuseki_end us; yose_start := yose_start us;
     resign_ratio := resign_ratio us; loss_threshold := loss_threshold us;
     policy := policy us; random_policy := random_policy us;
     random_policy_chance := v; playout := playout us; u_prior := u_prior us;
     pondering := pondering us; u_t := u_t us; ownermap := ownermap us |}.
Definition set_playout (us : @uct playout_policy uct_prior) (v : option playout_policy)
  : @uct playout_policy uct_prior :=
  {| u_id := u_id us; debug_level := debug_level us;
     dumpthres := dumpthres us; max_tree_size := max_tree_size us;
     fast_alloc := fast_alloc us; force_seed := force_seed us;
     no_book := no_book us; dynkomi := dynkomi us;
     dynkomi_mask := dynkomi_mask us; threads := threads us;
     thread_model := thread_model us; parallel_tree := parallel_tree us;
     pondering_opt := pondering_opt us; pass_all_alive := pass_all_alive us;
     fuseki_end := fuseki_end us; yose_start := yose_start us;
     resign_ratio := resign_ratio us; loss_threshold := loss_threshold us;
     policy := policy us; random_policy := random_policy us;
     random_policy_chance := random_policy_chance us; playout := v;
     u_prior := u_prior us; pondering := pondering us; u_t := u_t us;
     ownermap := ownermap us |}.
Definition set_u_prior (us : @uct playout_policy uct_prior) (v : option uct_prior)
  : @uct playout_policy uct_prior :=
  {| u_id := u_id us; debug_level := debug_level us;
     dumpthres := dumpthres us; max_tree_size := max_tree_size us;
     fast_alloc := fast_alloc us; force_seed := force_seed us;
     no_book := no_book us; dynkomi := dynkomi us;
     dynkomi_mask := dynkomi_mask us; threads := threads us;
     thread_model := thread_model us; parallel_tree := parallel_tree us;
     pondering_opt := pondering_opt us; pass_all_alive := pass_all_alive us;
     fuseki_end := fuseki_end us; yose_start := yose_start us;
     resign_ratio := resign_ratio us; loss_threshold := loss_threshold us;
     policy := policy us; random_policy := random_policy us;
     random_policy_chance := random_policy_chance us; playout := playout us;
     u_prior := v; pondering := pondering us; u_t := u_t us;
     ownermap := ownermap us |}.
Definition set_thread_model (us : @uct playout_policy uct_prior) (m : thread_model_t) (shared : bool)
  : @uct playout_policy uct_prior :=
  {| u_id := u_id us; debug_level := debug_level us;
     dumpthres := dumpthres us; max_tree_size := max_tree_size us;
     fast_alloc := fast_alloc us; force_seed := force_seed us;
     no_book := no_book us; dynkomi := dynkomi us;
     dynkomi_mask := dynkomi_mask us; threads := threads us;
     thread_model := m; parallel_tree := shared;
     pondering_opt := pondering_opt us; pass_all_alive := pass_all_alive us;
     fuseki_end := fuseki_end us; yose_start := yose_start us;
     resign_ratio := resign_ratio us; loss_threshold := loss_threshold us;
     policy := policy us; random_policy := random_policy us;
     random_policy_chance := random_policy_chance us; playout := playout us;
     u_prior := u_prior us; pondering := pondering us; u_t := u_t us;
     ownermap := ownermap us |}.

(** The fields of [struct uct] that uct.c only sets here (uct/internal.h
    is not part of the two files): each assignment is kept, in order,
    with the value of its right-hand side. *)
Inductive other_field : Type :=
| f_gamelen | f_mercymin | f_expand_p | f_playout_amaf
| f_playout_amaf_nakade | f_playout_amaf_cutoff | f_amaf_prior
| f_virtual_loss | f_val_scale | f_val_points | f_val_extra
| f_root_heuristic | f_banner.

Inductive field_value : Type :=
| VInt (v : Z)
| VBool (v : bool)
| VDouble (v : F64.t)
| VStr (v : cstring).

Record uct_opts : Type := {
  o_u : @uct playout_policy uct_prior;
  o_other : list (other_field * field_value)
}.

Definition assign (st : uct_opts) (f : other_field) (v : field_value)
  : uct_opts :=
  {| o_u := o_u st; o_other := o_other st ++ [(f, v)] |}.
Definition upd (st : uct_opts)
           (g : @uct playout_policy uct_prior -> @uct playout_policy uct_prior)
  : uct_opts :=
  {| o_u := g (o_u st); o_other := o_other st |}.

Inductive uct_exit : Type :=
| InvalidEngineArgument (optname : cstring)
| InvalidTreePolicy (optval : cstring)
| InvalidPlayoutPolicy (optval : cstring)
| InvalidThreadModel (optval : cstring)
| PlayoutEloExit (e : EloInit.elo_exit)
| TailExit (e : init_error).

(** [atoi(s)], then [k]. *)
Definition with_int (s : cstring) (k : Z -> step uct_opts uct_exit)
  : step uct_opts uct_exit :=
  match atoi s with
  | Some v => k v
  | None => Stop InitUndefined
  end.

(** [!optval || atoi(optval)]. *)
Definition flag_of (optval : option cstring) (k : bool -> step uct_opts uct_exit)
  : step uct_opts uct_exit :=
  match optval with
  | None => k true
  | Some v => with_int v (fun n => k (negb (n =? 0)))
  end.

(** [optval && *optval == '0']. *)
Definition starts_with_zero (optval : option cstring) : bool :=
  match optval with
  | Some (c :: _) => Ascii.eqb c ch_zero
  | _ => false
  end.

(** The state the defaults leave, in a zeroed [struct uct]. *)
Definition uct_defaults (id : nat) (b : board) : uct_opts :=
  {| o_u :=
       {| u_id := id; debug_level := 1; dumpthres := 1000;
          max_tree_size := 3072 * 1048576; fast_alloc := false;
          force_seed := 0; no_book := false;
          dynkomi := if b_size b - 2 >=? 19 then 200 else 0;
          dynkomi_mask := stone_code S_BLACK;
          threads := 1; thread_model := TM_TREEVL; parallel_tree := true;
          pondering_opt := false; pass_all_alive := false;
          fuseki_end := 20; yose_start := 40;
          resign_ratio := F32.zero; loss_threshold := F32.zero;
          policy := None; random_policy := None; random_policy_chance := 0;
          playout := None; u_prior := None;
          pondering := false; u_t := None;
          ownermap := {| om_playouts := 0; om_map := [] |} |};
     o_other :=
       [(f_gamelen, VInt MC_GAMELEN); (f_mercymin, VInt 0);
        (f_expand_p, VInt 2); (f_playout_amaf, VBool true);
        (f_playout_amaf_nakade, VBool false); (f_amaf_prior, VBool false);
        (f_virtual_loss, VBool true); (f_val_scale, VDouble (F64.lit 4 100));
        (f_val_points, VInt 40)] |}.

(** The body of the option loop: the chain of tests on the name. *)
Definition uct_option (b : board) (optname : cstring) (optval : option cstring)
           (next : cstring) (st : uct_opts) : step uct_opts uct_exit :=
  let named s := strcaseeq optname (str s) in
  let valued := has_value optval in
  let v := the_value optval in
  let us := o_u st in
  if named "debug" then
    match optval with
    | Some v => with_int v (fun n => Next (upd st (fun us => set_debug_level us n)))
    | None =>
        if in_int (debug_level us + 1)
        then Next (upd st (fun us => set_debug_level us (debug_level us + 1)))
        else Stop InitUndefined
    end
  else if named "mercy" && valued then
    with_int v (fun n => Next (assign st f_mercymin (VInt n)))
  else if named "gamelen" && valued then
    with_int v (fun n => Next (assign st f_gamelen (VInt n)))
  else if named "expand_p" && valued then
    with_int v (fun n => Next (assign st f_expand_p (VInt n)))
  else if named "dumpthres" && valued then
    with_int v (fun n => Next (upd st (fun us => set_dumpthres us n)))
  else if named "playout_amaf" then
    Next (assign st f_playout_amaf (VBool (negb (starts_with_zero optval))))
  else if named "playout_amaf_nakade" then
    Next (assign st f_playout_amaf_nakade
                 (VBool (negb (starts_with_zero optval))))
  else if named "playout_amaf_cutoff" && valued then
    with_int v (fun n => Next (assign st f_playout_amaf_cutoff (VInt n)))
  else if (named "policy" || named "random_policy") && valued then
    let '(pname, policyarg) := break_at ch_colon v in
    let set p := if named "policy" then set_policy us (Some p)
                 else set_random_policy us (Some p) in
    if strcaseeq pname (str "ucb1") then
      Next (upd st (fun _ => set (policy_ucb1_init us policyarg)))
    else if strcaseeq pname (str "ucb1amaf") then
      Next (upd st (fun _ => set (policy_ucb1amaf_init us policyarg)))
    else Stop (Exit1 (InvalidTreePolicy pname))
  else if named "playout" && valued then
    let '(pname, playoutarg) := break_at ch_colon v in
    if strcaseeq pname (str "moggy") then
      Next (upd st (fun us => set_playout us (Some (playout_moggy_init playoutarg))))
    else if strcaseeq pname (str "light") then
      Next (upd st (fun us => set_playout us (Some (playout_light_init playoutarg))))
    else if strcaseeq pname (str "elo") then
      match playout_elo_init playoutarg with
      | Init p => Next (upd st (fun us => set_playout us (Some p)))
      | Exit1 e => Stop (Exit1 (PlayoutEloExit e))
      | InitUndefined => Stop InitUndefined
      | InitPending => Stop InitPending
      end
    else Stop (Exit1 (InvalidPlayoutPolicy pname))
  else if named "prior" && valued then
    Next (upd st (fun us => set_u_prior us (Some (uct_prior_init (Some v) b))))
  else if named "amaf_prior" && valued then
    with_int v (fun n => Next (assign st f_amaf_prior (VInt n)))
  else if named "threads" && valued then
    with_int v (fun n => Next (upd st (fun us => set_threads us n)))
  else if named "thread_model" && valued then
    if strcaseeq v (str "root") then
      Next (assign (upd st (fun us => set_thread_model us TM_ROOT false))
                   f_virtual_loss (VBool false))
    else if strcaseeq v (str "tree") then
      Next (assign (upd st (fun us => set_thread_model us TM_TREE true))
                   f_virtual_loss (VBool false))
    else if strcaseeq v (str "treevl") then
      Next (assign (upd st (fun us => set_thread_model us TM_TREEVL true))
                   f_virtual_loss (VBool true))
    else Stop (Exit1 (InvalidThreadModel v))
  else if named "pondering" then
    flag_of optval (fun f => Next (upd st (fun us => set_pondering_opt us f)))
  else if named "fuseki_end" && valued then
    with_int v (fun n => Next (upd st (fun us => set_fuseki_end us n)))
  else if named "yose_start" && valued then
    with_int v (fun n => Next (upd st (fun us => set_yose_start us n)))
  else if named "force_seed" && valued then
    with_int v (fun n => Next (upd st (fun us => set_force_seed us n)))
  else if named "no_book" then
    Next (upd st (fun us => set_no_book us true))
  else if named "dynkomi" then
    match optval with
    | Some v => with_int v (fun n => Next (upd st (fun us => set_dynkomi us n)))
    | None => Next (upd st (fun us => set_dynkomi us 150))
    end
  else if named "dynkomi_mask" && valued then
    with_int v (fun n => Next (upd st (fun us => set_dynkomi_mask us n)))
  else if named "val_scale" && valued then
    Next (assign st f_val_scale (VDouble (atof v)))
  else if named "val_points" && valued then
    with_int v (fun n => if in_int (n * 2)
                         then Next (assign st f_val_points (VInt (n * 2)))
                         else Stop InitUndefined)
  else if named "val_extra" then
    flag_of optval (fun f => Next (assign st f_val_extra (VBool f)))
  else if named "root_heuristic" && valued then
    with_int v (fun n => Next (assign st f_root_heuristic (VInt n)))
  else if named "pass_all_alive" then
    flag_of optval (fun f => Next (upd st (fun us => set_pass_all_alive us f)))
  else if named "random_policy_chance" && valued then
    with_int v (fun n => Next (upd st (fun us => set_random_policy_chance us n)))
  else if named "max_tree_size" && valued then
    match atol v with
    | Some n =>
        if in_long (n * 1048576)
        then Next (upd st (fun us =>
                     set_max_tree_size us ((n * 1048576) mod 2 ^ long_bits)))
        else Stop InitUndefined
    | None => Stop InitUndefined
    end
  else if named "banner" && valued then
    (* [if ( *next ) *--next = ','], [strdup(optval)], [break] *)
    let banner := match next with
                  | [] => v
                  | _ :: _ => v ++ ch_comma :: next
                  end in
    Last (assign st f_banner (VStr banner))
  else Stop (Exit1 (InvalidEngineArgument optname)).

(** [id] is the address of the [struct uct] allocated. *)
Definition uct_state_init (id : nat) (arg : option cstring) (b : board)
  : init_result uct_opts uct_exit :=
  let st0 := uct_defaults id b in
  match (match arg with
         | Some s => options ch_comma (uct_option b) s st0
         | None => Init st0
         end) with
  | Init st =>
      match uct_state_init_tail (fun us => policy_ucb1amaf_init us None)
                                (uct_prior_init None) (playout_moggy_init None)
                                playout_set_debug_level malloc_ownermap
                                (o_u st) b with
      | inl us => Init {| o_u := us; o_other := o_other st |}
      | inr e => Exit1 (TailExit e)
      end
  | r => r
  end.

(** [u->banner], or the empty string [engine_uct_init] puts there. *)
Fixpoint banner_of (log : list (other_field * field_value)) (cur : cstring)
  : cstring :=
  match log with
  | [] => cur
  | (f_banner, VStr s) :: r => banner_of r s
  | _ :: r => banner_of r cur
  end.

Definition engine_banner : cstring :=
  str "I'm playing UCT. When I'm losing, I will resign, if I think I win, I play until you pass. Anyone can send me 'winrate' in private chat to get my assessment of the position.".

(** The engine, with the size asked of [malloc] for the comment. *)
Record engine : Type := {
  e_name : cstring;
  e_comment : cstring;
  e_comment_size : Z;
  e_data : uct_opts
}.

Definition engine_uct_init (id : nat) (arg : option cstring) (b : board)
  : init_result engine uct_exit :=
  match uct_state_init id arg b with
  | Init st =>
      let ubanner := banner_of (o_other st) [] in
      (* [sizeof(banner)] counts the NUL *)
      let size := (Z.of_nat (length engine_banner) + 1)
                  + Z.of_nat (length ubanner) + 1 in
      Init {| e_name := str "UCT Engine";
              e_comment := engine_banner ++ str " " ++ ubanner;
              e_comment_size := size;
              e_data := st |}
  | Exit1 e => Exit1 e
  | InitUndefined => InitUndefined
  | InitPending => InitPending
  end.

End Init.
End UctInit.

(* ================================================================== *)
(** ** More example inputs *)

Module MoreExamples.
Import Examples.
Import String.StringSyntax.
Local Open Scope string_scope.

(** Re-rooting at the child of the move, if there is one. *)
Definition promote_at0 (t : tree) (_ : board) (c : coord_t) : option tree :=
  match find (fun n => coord_eqb (coord n) c) (children (root t)) with
  | Some n => Some {| root := n; root_color := stone_other (root_color t);
                      extra_komi := extra_komi t; nodes_size := nodes_size t |}
  | None => None
  end.

(** A book is the tree saved and the threshold. *)
Definition save0 (t : tree) (_ : board) (thres : Z) : tree * Z := (t, thres).

Definition move_12 : move := {| m_coord := point 12; m_color := S_WHITE |}.

(** The root has passed 1100 playouts at the second poll. *)
Definition book_tree : tree := mk_tree (leaf pass 1101 (f32 1 2)) S_BLACK.
Definition env_book : Uct.search_env :=
  {| Uct.polls := [poll_of bare_tree; poll_of book_tree];
     Uct.stopped_tree := book_tree;
     Uct.stopped_games := 101 |}.

(** An engine that uses the opening book. *)
Definition world_book : @Uct.world unit unit :=
  {| Uct.w_u := UctInit.set_no_book (uct0 None 0) false; Uct.w_out := [];
     Uct.w_running := false |}.

(** A tree with an extra komi of 0.75. *)
Definition komi_tree : tree :=
  {| root := won_root; root_color := S_BLACK; extra_komi := f32 3 4;
     nodes_size := 3 |}.

(** Four features, the third being the spatial one; a gamma table is the
    name of its file. *)
Definition gamma_init0 (_ : unit) (file : CStr.cstring) : CStr.cstring := file.
Definition spat_dict0 (pc : unit) (_ : unit) : unit := pc.
Definition dict_init0 (_ : bool) : unit := tt.
Definition atof0 (_ : CStr.cstring) : F64.t := F64.zero.
Definition elo_init0 (arg : option CStr.cstring)
  : OptArg.init_result (@EloInit.elo_playout unit CStr.cstring)
                       EloInit.elo_exit :=
  EloInit.playout_elo_init (CStr.str "patterns.gamma") tt tt spat_dict0
                           dict_init0 gamma_init0 4 2 [1; 1; 1; 1] [1; 0; 1; 0]
                           atof0 arg.

(** The engine's components, the Elo policy behind its wrapper. *)
Definition policy_arg0 (_ : @Uct.uct unit unit) (_ : option CStr.cstring)
  : Uct.uct_policy := policy0.
Definition playout_arg0 (_ : option CStr.cstring) : unit := tt.
Definition playout_elo0 (arg : option CStr.cstring)
  : OptArg.init_result unit EloInit.elo_exit :=
  match elo_init0 arg with
  | OptArg.Init _ => OptArg.Init tt
  | OptArg.Exit1 e => OptArg.Exit1 e
  | OptArg.InitUndefined => OptArg.InitUndefined
  | OptArg.InitPending => OptArg.InitPending
  end.
Definition prior_arg0 (_ : option CStr.cstring) (_ : board) : unit := tt.
Definition state_init0 (arg : option CStr.cstring)
  : OptArg.init_result (@UctInit.uct_opts unit unit) UctInit.uct_exit :=
  UctInit.uct_state_init policy_arg0 policy_arg0 playout_arg0 playout_arg0
                         playout_elo0 prior_arg0 set_debug0 malloc0 atof0 600
                         64 1%nat arg board_mid.
Definition engine_init0 (arg : option CStr.cstring)
  : OptArg.init_result (@UctInit.engine unit unit) UctInit.uct_exit :=
  UctInit.engine_uct_init policy_arg0 policy_arg0 playout_arg0 playout_arg0
                          playout_elo0 prior_arg0 set_debug0 malloc0 atof0 600
                          64 1%nat arg board_mid.

End MoreExamples.

(* ================================================================== *)
(** * Properties *)



Lemma list_set_app {A} (pre : list A) (x v : A) (post : list A) :
  list_set (pre ++ x :: post) (length pre) v = pre ++ v :: post.
Proof. induction pre as [|y pre IH]; simpl; [reflexivity | now rewrite IH]. Qed.

Lemma f_at_nth (b : board) (i : Z) (c : coord_t) :
  f_at b i = Some c -> 0 <= i /\ nth_error (b_f b) (Z.to_nat i) = Some c.
Proof.
  unfold f_at. destruct (i <? 0) eqn:E; [discriminate|].
  apply Z.ltb_ge in E. auto.
Qed.

Lemma f_at_In (b : board) (i : Z) (c : coord_t) :
  f_at b i = Some c -> In c (b_f b).
Proof. intro H. apply f_at_nth in H as [_ H]. eapply nth_error_In; eauto. Qed.

(* ------------------------------------------------------------------ *)
(** ** The Elo policy *)

Section EloFacts.

Variable board_is_valid_move : board -> move -> bool.
Variable board_is_one_point_eye : board -> coord_t -> stone -> bool.
Context {pattern_spec pattern_config feature features_gamma : Type}.
Variable pattern_match :
  pattern_config -> pattern_spec -> board -> move -> list feature.
Variable feature_gamma : features_gamma -> feature -> F32.t.

Local Abbreviation patternset :=
  (@Elo.patternset pattern_spec pattern_config features_gamma).
Local Abbreviation elo_policy :=
  (@Elo.elo_policy pattern_spec pattern_config features_gamma).
Local Abbreviation weight :=
  (Elo.elo_weight board_is_valid_move board_is_one_point_eye
                  pattern_match feature_gamma).
Local Abbreviation get_probdist :=
  (Elo.elo_get_probdist board_is_valid_move board_is_one_point_eye
                        pattern_match feature_gamma).
Local Abbreviation points :=
  (Elo.elo_points board_is_valid_move board_is_one_point_eye
                  pattern_match feature_gamma).
Local Abbreviation skipped :=
  (Elo.skipped board_is_valid_move board_is_one_point_eye).
Local Abbreviation gamma_product := (Elo.team_gamma pattern_match feature_gamma).

(** The loop fills the slots from [f] on with the weights of the points
    still to visit and leaves the earlier ones alone. *)
Lemma elo_points_items (pset : patternset) b to_play rest :
  forall pre zs moves,
    length zs = length rest ->
    pd_items (fst (points pset b to_play rest (Z.of_nat (length pre))
                          ({| pd_items := pre ++ zs |}, moves)))
    = pre ++ List.map (weight pset b to_play) rest.
Proof.
  induction rest as [|c rest IH]; intros pre zs moves Hlen.
  - destruct zs; [reflexivity | discriminate].
  - destruct zs as [|z zs]; [discriminate|]. simpl in Hlen.
    simpl Elo.elo_points. unfold Elo.elo_point, Elo.elo_weight at 1.
    unfold probdist_set.
    assert (E : (Z.of_nat (length pre) <? 0) = false) by (apply Z.ltb_ge; lia).
    destruct (skipped b to_play c) eqn:Es;
      rewrite E; simpl pd_items; rewrite Nat2Z.id, list_set_app.
    + replace (pre ++ F32.zero :: zs) with ((pre ++ [F32.zero]) ++ zs)
        by (now rewrite <- app_assoc).
      replace (Z.of_nat (length pre) + 1) with (Z.of_nat (length (pre ++ [F32.zero])))
        by (rewrite length_app; simpl; lia).
      rewrite IH by lia. rewrite <- app_assoc. simpl. do 2 f_equal.
      unfold Elo.elo_weight. now rewrite Es.
    + set (g := gamma_product pset b _).
      replace (pre ++ g :: zs) with ((pre ++ [g]) ++ zs)
        by (now rewrite <- app_assoc).
      replace (Z.of_nat (length pre) + 1) with (Z.of_nat (length (pre ++ [g])))
        by (rewrite length_app; simpl; lia).
      rewrite IH by lia. rewrite <- app_assoc. simpl. do 2 f_equal.
      unfold Elo.elo_weight. now rewrite Es.
Qed.

Lemma elo_get_probdist_items (pset : patternset) b to_play :
  pd_items (fst (get_probdist pset b to_play))
  = List.map (weight pset b to_play) (b_f b).
Proof.
  unfold Elo.elo_get_probdist, probdist_init, flen. rewrite Nat2Z.id.
  apply (elo_points_items pset b to_play (b_f b) [] _ 0).
  apply repeat_length.
Qed.

Lemma probdist_one_at (pset : patternset) b to_play f c :
  f_at b f = Some c ->
  probdist_one (fst (get_probdist pset b to_play)) f = weight pset b to_play c.
Proof.
  intro H. apply f_at_nth in H as [Hf Hn].
  unfold probdist_one. replace (f <? 0) with false by (symmetry; apply Z.ltb_ge; lia).
  rewrite elo_get_probdist_items.
  apply nth_error_nth. now rewrite nth_error_map, Hn.
Qed.

(** C1: for every board and colour, the distribution built by
    [elo_get_probdist] gives the free point at index [f] the weight 0 when
    the point is pass, is not a valid move or is a single-point eye of the
    mover, and otherwise the product, started from 1, of the gammas of the
    features the pattern matcher returns for the move. *)
Theorem elo_get_probdist_weight (pset : patternset) b to_play f c :
  f_at b f = Some c ->
  probdist_one (fst (get_probdist pset b to_play)) f
  = let m := {| m_coord := c; m_color := to_play |} in
    if is_pass c || negb (board_is_valid_move b m)
       || board_is_one_point_eye b c to_play
    then F32.zero
    else fold_left (fun g ft => F32.mul g (feature_gamma (Elo.fg pset) ft))
                   (pattern_match (Elo.pc pset) (Elo.ps pset) b m) F32.one.
Proof.
  intro H. rewrite (probdist_one_at pset b to_play f c H).
  unfold Elo.elo_weight, Elo.skipped, Elo.team_gamma. cbv zeta.
  destruct (is_pass c); [reflexivity|].
  destruct (board_is_valid_move b _); simpl; [|reflexivity].
  destruct (board_is_one_point_eye b c to_play); reflexivity.
Qed.

(** C4, as the code has it: the product of the gammas is stored as it is.
    When it is not finite, the weight of the point is that non-finite product
    and not 0. *)
Theorem elo_nonfinite_product_stored (pset : patternset) b to_play f c :
  f_at b f = Some c ->
  skipped b to_play c = false ->
  is_finite (gamma_product pset b {| m_coord := c; m_color := to_play |}) = false ->
  probdist_one (fst (get_probdist pset b to_play)) f
  = gamma_product pset b {| m_coord := c; m_color := to_play |}
  /\ is_finite (probdist_one (fst (get_probdist pset b to_play)) f) = false
  /\ probdist_one (fst (get_probdist pset b to_play)) f <> F32.zero.
Proof.
  intros H Hs Hfin.
  rewrite (probdist_one_at pset b to_play f c H).
  unfold Elo.elo_weight. rewrite Hs.
  repeat split; [exact Hfin|].
  intro E. rewrite E in Hfin. discriminate.
Qed.

Local Abbreviation choose_move :=
  (Elo.playout_elo_choose board_is_valid_move board_is_one_point_eye
                          pattern_match feature_gamma).

(** C3, as the code has it: [playout_elo_choose] returns the entry of the
    free-point list at the index [probdist_pick] yields, whatever the
    weights.  On a board whose free-point list holds points only it never
    returns pass, and with [flen == 0] there is no entry to return. *)
Theorem playout_elo_choose_free_point (probdist_pick : probdist -> Z)
        (pp : elo_policy) b to_play :
  (forall c, In c (b_f b) -> is_pass c = false) ->
  choose_move probdist_pick pp b to_play
  = f_at b (probdist_pick (fst (get_probdist (Elo.choose pp) b to_play)))
  /\ choose_move probdist_pick pp b to_play <> Some pass
  /\ (forall c, choose_move probdist_pick pp b to_play = Some c -> In c (b_f b))
  /\ (flen b = 0 -> choose_move probdist_pick pp b to_play = None).
Proof.
  intro Hpts. unfold Elo.playout_elo_choose. cbv zeta.
  set (i := probdist_pick _).
  split; [reflexivity|]. split; [|split].
  - intro E. apply f_at_In in E. apply Hpts in E. discriminate.
  - intros c E. now apply f_at_In in E.
  - intro H0. unfold flen in H0.
    destruct (b_f b) eqn:Ef; [|simpl in H0; lia].
    unfold f_at. rewrite Ef. destruct (i <? 0); [reflexivity|].
    now destruct (Z.to_nat i).
Qed.

Context {prior_store : Type}.
Variable add_prior_value : prior_store -> coord_t -> F32.t -> Z -> prior_store.

Local Abbreviation assess_move :=
  (Elo.playout_elo_assess board_is_valid_move board_is_one_point_eye
                          pattern_match feature_gamma add_prior_value).

Lemma assess_points_calls pd consider games rest :
  forall f store,
    Elo.assess_points add_prior_value pd consider games rest f store
    = fold_left (fun st cv => add_prior_value st (fst cv) (snd cv) games)
                (Elo.prior_calls pd consider rest f) store.
Proof.
  induction rest as [|c rest IH]; intros f store; [reflexivity|].
  simpl. unfold Elo.assess_point. rewrite IH.
  destruct (consider c); reflexivity.
Qed.

Lemma prior_calls_In pd consider rest :
  forall k c v,
    In (c, v) (Elo.prior_calls pd consider rest (Z.of_nat k)) <->
    exists j, nth_error rest j = Some c /\ consider c = true
              /\ v = F32.div (probdist_one pd (Z.of_nat (k + j))) (probdist_total pd).
Proof.
  induction rest as [|x rest IH]; intros k c v.
  - simpl. split; [tauto|]. intros [j [H _]]. now destruct j.
  - simpl Elo.prior_calls.
    replace (Z.of_nat k + 1) with (Z.of_nat (S k)) by lia.
    split.
    + intro H.
      assert (Hcases : ((c, v) = (x, F32.div (probdist_one pd (Z.of_nat k)) (probdist_total pd))
                        /\ consider x = true)
                       \/ In (c, v) (Elo.prior_calls pd consider rest (Z.of_nat (S k)))).
      { destruct (consider x) eqn:Ex; [destruct H as [H|H]|]; auto. }
      destruct Hcases as [[E Ex]|Hin].
      * inversion E; subst. exists O. rewrite Nat.add_0_r. auto.
      * apply IH in Hin as [j [Hj [Hc Hv]]]. exists (S j).
        rewrite Nat.add_succ_r. auto.
    + intros [j [Hj [Hc Hv]]]. destruct j as [|j].
      * simpl in Hj. inversion Hj; subst x. rewrite Hc. left.
        now rewrite Nat.add_0_r in Hv; subst v.
      * simpl in Hj.
        assert (Hin : In (c, v) (Elo.prior_calls pd consider rest (Z.of_nat (S k)))).
        { apply IH. exists j. rewrite Nat.add_succ_r in Hv. auto. }
        destruct (consider x); [right|]; exact Hin.
Qed.

(** C8, as the code has it: for every point [c] of the free-point list with
    [map->consider[c]] set, and for no other, [playout_elo_assess] calls
    [add_prior_value] with [probdist_one(pd, f) / probdist_total(pd)], the
    weight of the point divided in [float] by the total of the
    distribution.  When the weight and the total are both 0 that value is
    NaN, outside [0,1]. *)
Theorem playout_elo_assess_values (pp : elo_policy) map games :
  let b := Elo.pm_b map in
  let pd := fst (get_probdist (Elo.assess pp) b (Elo.pm_to_play map)) in
  let normalized f := F32.div (probdist_one pd f) (probdist_total pd) in
  let calls := Elo.prior_calls pd (Elo.pm_consider map) (b_f b) 0 in
  Elo.pm_prior (assess_move pp map games)
  = fold_left (fun st cv => add_prior_value st (fst cv) (snd cv) games)
              calls (Elo.pm_prior map)
  /\ (forall f c, f_at b f = Some c -> Elo.pm_consider map c = true ->
                  In (c, normalized f) calls
                  /\ probdist_one pd f = weight (Elo.assess pp) b (Elo.pm_to_play map) c)
  /\ (forall c v, In (c, v) calls ->
                  exists f, f_at b f = Some c /\ Elo.pm_consider map c = true
                            /\ v = normalized f)
  /\ (forall f, probdist_one pd f = F32.zero -> probdist_total pd = F32.zero ->
                is_nan (normalized f) = true
                /\ in_unit_interval (normalized f) = false).
Proof.
  cbv zeta. split; [|split; [|split]].
  - unfold Elo.playout_elo_assess. simpl. apply assess_points_calls.
  - intros f c Hf Hc. split.
    + apply (prior_calls_In _ _ _ 0%nat). apply f_at_nth in Hf as [H0 Hn].
      exists (Z.to_nat f). simpl. rewrite Z2Nat.id by lia. auto.
    + now apply probdist_one_at.
  - intros c v Hin. apply (prior_calls_In _ _ _ 0%nat) in Hin as [j [Hj [Hc Hv]]].
    exists (Z.of_nat j). simpl in Hv. split; [|auto].
    unfold f_at. replace (Z.of_nat j <? 0) with false by (symmetry; apply Z.ltb_ge; lia).
    now rewrite Nat2Z.id.
  - intros f E1 E2. rewrite E1, E2. split; reflexivity.
Qed.

End EloFacts.

Section EloExamples.
Import Examples.

Lemma elo_get_probdist_weight_witness :
  (f_at board2 0 = Some (point 12)
   /\ probdist_one (fst (Elo.elo_get_probdist valid_all eye_13 match_two
                           gamma_small ps0 board2 S_BLACK)) 0 = F32.of_Z 6)
  /\ (f_at board2 1 = Some (point 13)
      /\ probdist_one (fst (Elo.elo_get_probdist valid_all eye_13 match_two
                              gamma_small ps0 board2 S_BLACK)) 1 = F32.zero).
Proof.
  split; (split; [reflexivity|]).
  - rewrite (elo_get_probdist_weight valid_all eye_13 match_two gamma_small
               ps0 board2 S_BLACK 0 (point 12) eq_refl).
    reflexivity.
  - rewrite (elo_get_probdist_weight valid_all eye_13 match_two gamma_small
               ps0 board2 S_BLACK 1 (point 13) eq_refl).
    reflexivity.
Defined.

(** C4 as stated fails: two gammas of 2^100 multiply to infinity, and the
    weight stored for the point is infinity, not 0. *)
Lemma elo_nonfinite_product_counterexample :
  is_finite (Elo.team_gamma match_two gamma_huge ps0 board2
               {| m_coord := point 12; m_color := S_BLACK |}) = false
  /\ probdist_one (fst (Elo.elo_get_probdist valid_all eye_none match_two
                          gamma_huge ps0 board2 S_BLACK)) 0
     = S754_infinity false
  /\ probdist_one (fst (Elo.elo_get_probdist valid_all eye_none match_two
                          gamma_huge ps0 board2 S_BLACK)) 0 <> F32.zero.
Proof.
  split; [reflexivity | split; [reflexivity |]].
  intro E. vm_compute in E. discriminate.
Qed.

Lemma elo_nonfinite_product_stored_witness :
  f_at board2 0 = Some (point 12)
  /\ Elo.skipped valid_all eye_none board2 S_BLACK (point 12) = false
  /\ is_finite (Elo.team_gamma match_two gamma_huge ps0 board2
                  {| m_coord := point 12; m_color := S_BLACK |}) = false
  /\ probdist_one (fst (Elo.elo_get_probdist valid_all eye_none match_two
                          gamma_huge ps0 board2 S_BLACK)) 0 <> F32.zero.
Proof.
  repeat split; try reflexivity.
  apply (elo_nonfinite_product_stored valid_all eye_none match_two gamma_huge
           ps0 board2 S_BLACK 0 (point 12) eq_refl eq_refl eq_refl).
Defined.

(** C3 as stated fails.  With no free point the distribution is empty and
    its total 0, and no index leads to pass; with one free point that may
    not be played the only weight is 0, and the entry at index 0 is that
    point. *)
Lemma playout_elo_choose_counterexample :
  (flen board0 = 0
   /\ probdist_total (fst (Elo.elo_get_probdist valid_none eye_none match_two
                             gamma_small ps0 board0 S_BLACK)) = F32.zero
   /\ forall pick,
       Elo.playout_elo_choose valid_none eye_none match_two gamma_small
                              pick pp0 board0 S_BLACK = None)
  /\ (probdist_total (fst (Elo.elo_get_probdist valid_none eye_none match_two
                             gamma_small ps0 board1 S_BLACK)) = F32.zero
      /\ Elo.playout_elo_choose valid_none eye_none match_two gamma_small
                                pick_first pp0 board1 S_BLACK
         = Some (point 12)).
Proof.
  split; [split; [reflexivity | split; [reflexivity |]] | split; reflexivity].
  intro pick. unfold Elo.playout_elo_choose, f_at. simpl.
  destruct (pick _ <? 0); [reflexivity|]. now destruct (Z.to_nat _).
Qed.

Lemma playout_elo_choose_free_point_witness :
  (forall c, In c (b_f board1) -> is_pass c = false)
  /\ Elo.playout_elo_choose valid_none eye_none match_two gamma_small
                            pick_first pp0 board1 S_BLACK <> Some pass.
Proof.
  assert (H : forall c, In c (b_f board1) -> is_pass c = false).
  { intros c [E|[]]. now subst c. }
  split; [exact H|].
  apply (playout_elo_choose_free_point valid_none eye_none match_two gamma_small
           pick_first pp0 board1 S_BLACK H).
Defined.

(** C8 as stated fails: on a board whose only free point is an eye of the
    mover, the weight and the total are 0 and the prior value handed over
    for the considered point is NaN, not a number of [0,1]. *)
Lemma playout_elo_assess_counterexample :
  Elo.pm_consider map_eye (point 13) = true
  /\ valid_all board_eye {| m_coord := point 13; m_color := S_BLACK |} = true
  /\ probdist_total (fst (Elo.elo_get_probdist valid_all eye_13 match_two
                            gamma_small ps0 board_eye S_BLACK)) = F32.zero
  /\ Elo.pm_prior (Elo.playout_elo_assess valid_all eye_13 match_two
                     gamma_small record_prior pp0 map_eye 10)
     = [(point 13, S754_nan, 10)]
  /\ in_unit_interval S754_nan = false.
Proof. repeat split. Qed.

Lemma playout_elo_assess_values_witness :
  f_at board2 0 = Some (point 12)
  /\ Elo.pm_consider map2 (point 12) = true
  /\ In (point 12, F32.one)
        (Elo.prior_calls
           (fst (Elo.elo_get_probdist valid_all eye_13 match_two gamma_small
                   ps0 board2 S_BLACK))
           (fun _ => true) (b_f board2) 0).
Proof.
  split; [reflexivity | split; [reflexivity|]].
  pose proof (playout_elo_assess_values valid_all eye_13 match_two gamma_small
                record_prior pp0 map2 10) as H.
  cbv zeta in H. destruct H as [_ [H _]].
  destruct (H 0 (point 12) eq_refl eq_refl) as [Hin _].
  exact Hin.
Defined.

End EloExamples.

(* ------------------------------------------------------------------ *)
(** ** Trees and pointers *)

Lemma no_resign_node_at (p : node_ptr) :
  forall r n, no_resign r = true -> node_at r p = Some n -> no_resign n = true.
Proof.
  induction p as [|i p IH]; intros r n Hr Hn; simpl in Hn.
  - now inversion Hn; subst.
  - destruct (nth_error (children r) i) as [ch|] eqn:Ech; [|discriminate].
    apply (IH ch n); [|exact Hn].
    destruct r as [c ru ra rp chs]. simpl in *.
    apply andb_prop in Hr as [_ Hall].
    rewrite forallb_forall in Hall. apply Hall. eapply nth_error_In; eauto.
Qed.

Lemma no_resign_coord (n : tree_node) : no_resign n = true -> coord n <> resign.
Proof.
  destruct n as [c nu na np ch]. simpl. intros H E. subst c.
  apply andb_prop in H as [H _]. discriminate.
Qed.

Lemma forallb_list_set {A} (f : A -> bool) (l : list A) :
  forall i x, forallb f l = true -> f x = true ->
              forallb f (list_set l i x) = true.
Proof.
  induction l as [|y l IH]; intros i x Hl Hx; [reflexivity|].
  simpl in Hl. apply andb_prop in Hl as [Hy Hl].
  destruct i; simpl; rewrite ?Hx, ?Hy; simpl; auto.
Qed.

Lemma no_resign_set_pass (p : node_ptr) :
  forall r, no_resign r = true -> no_resign (node_set_coord r p pass) = true.
Proof.
  induction p as [|i p IH]; intros [c ru ra rp chs] Hr; simpl in *.
  - apply andb_prop in Hr as [_ Hall]. exact Hall.
  - destruct (nth_error chs i) as [ch|] eqn:Ech; simpl; [|exact Hr].
    apply andb_prop in Hr as [Hc Hall]. rewrite Hc. simpl.
    apply forallb_list_set; [exact Hall|].
    apply IH. rewrite forallb_forall in Hall. apply Hall.
    eapply nth_error_In; eauto.
Qed.

(* ------------------------------------------------------------------ *)
(** ** The engine *)

Section UctFacts.
Import Uct.

Variable DEBUGL_ : Z -> Z -> bool.
Context {playout_policy uct_prior : Type}.
Variable tree_init : board -> stone -> Z -> tree.
Variable tree_load : tree -> board -> tree.
Variable uct_get_extra_komi : @uct playout_policy uct_prior -> board -> F32.t.
Variable tree_node_get_value : tree -> Z -> F32.t -> F32.t.
Variable tree_promote_node : tree -> node_ptr -> tree * node_ptr.
Context {group_judgement move_queue : Type}.
Variable mq_empty : move_queue.
Variable board_ownermap_judge_group :
  board -> board_ownermap -> F64.t -> group_judgement.
Variable groups_of_dead_status :
  board -> group_judgement -> move_queue -> move_queue.
Variable pass_is_safe : board -> stone -> move_queue -> bool.
Variable time_in_byoyomi : time_info -> bool.
Variable board_estimated_moves_left : board -> Z.
Variable MIN_MOVES_LEFT : Z.
Variable uct_playout : @uct playout_policy uct_prior -> board -> stone
                       -> @uct playout_policy uct_prior.
Variable board_play : board -> move -> Z * board.
Variable policy_ucb1amaf_init : @uct playout_policy uct_prior -> uct_policy.
Variable uct_prior_init : board -> uct_prior.
Variable playout_moggy_init : playout_policy.
Variable playout_set_debug_level : playout_policy -> Z -> playout_policy.
Variable malloc_ownermap : Z -> list (list Z).

Local Abbreviation prepare := (prepare_move DEBUGL_ tree_init tree_load uct_get_extra_komi).
Local Abbreviation safe_to_pass :=
  (uct_pass_is_safe mq_empty board_ownermap_judge_group groups_of_dead_status
                    pass_is_safe).
Local Abbreviation prep_time :=
  (time_prep DEBUGL_ time_in_byoyomi board_estimated_moves_left MIN_MOVES_LEFT).
Local Abbreviation iter := (search_iter DEBUGL_ tree_node_get_value).
Local Abbreviation decide := (search_decide DEBUGL_ tree_node_get_value).
Local Abbreviation loop := (search_loop DEBUGL_ tree_node_get_value).
Local Abbreviation search_phase :=
  (genmove_search DEBUGL_ tree_init tree_load uct_get_extra_komi
                  tree_node_get_value time_in_byoyomi
                  board_estimated_moves_left MIN_MOVES_LEFT).
Local Abbreviation finish :=
  (genmove_finish DEBUGL_ tree_node_get_value tree_promote_node mq_empty
                  board_ownermap_judge_group groups_of_dead_status pass_is_safe
                  uct_playout board_play).
Local Abbreviation genmove :=
  (uct_genmove DEBUGL_ tree_init tree_load uct_get_extra_komi
               tree_node_get_value tree_promote_node mq_empty
               board_ownermap_judge_group groups_of_dead_status pass_is_safe
               time_in_byoyomi board_estimated_moves_left MIN_MOVES_LEFT
               uct_playout board_play).
Local Abbreviation init_tail :=
  (uct_state_init_tail policy_ucb1amaf_init uct_prior_init playout_moggy_init
                       playout_set_debug_level malloc_ownermap).

(** C2, as the code has it: when a tree exists and the colour to move is not
    the opposite of its root colour, [prepare_move] prints "Fatal:
    Non-alternating play detected" and exits with status 1.  It never
    returns, so the tree is not reset and no further request is served. *)
Theorem prepare_move_non_alternating (w : @world playout_policy uct_prior)
        b color t :
  u_t (w_u w) = Some t ->
  stone_eqb color (stone_other (root_color t)) = false ->
  (es_is b (w_u w) = true -> b_moves b <> 0 ->
   prepare w b color
   = Exited 1 (w_out w ++ [MsgFatalNonAlternating color (root_color t)]))
  /\ (forall r, prepare w b color <> Done r).
Proof.
  intros Ht Hc. unfold prepare_move. rewrite Ht. unfold assert.
  split.
  - intros Hes Hm. rewrite Hes. apply Z.eqb_neq in Hm. rewrite Hm. simpl.
    now rewrite Hc.
  - intro r. destruct (es_is b (w_u w)); simpl; [|discriminate].
    destruct (b_moves b =? 0); simpl; [discriminate|].
    rewrite Hc. simpl. discriminate.
Qed.

(** C10: whatever the board, the colour and the flag, [uct_pass_is_safe] is
    false while fewer than [GJ_MINGAMES] = 500 playouts went into the owner
    map; it can be true only from that count on, where it is what
    [pass_is_safe] says of the dead groups. *)
Theorem uct_pass_is_safe_min_games (us : @uct playout_policy uct_prior)
        b color pass_all_alive :
  GJ_MINGAMES = 500
  /\ (om_playouts (ownermap us) < GJ_MINGAMES ->
      safe_to_pass us b color pass_all_alive = false)
  /\ (safe_to_pass us b color pass_all_alive = true ->
      GJ_MINGAMES <= om_playouts (ownermap us))
  /\ (GJ_MINGAMES <= om_playouts (ownermap us) ->
      safe_to_pass us b color pass_all_alive
      = pass_is_safe b color
          (if pass_all_alive then mq_empty
           else dead_group_list board_ownermap_judge_group
                                groups_of_dead_status us b mq_empty)).
Proof.
  unfold uct_pass_is_safe.
  split; [reflexivity|]. split; [|split].
  - intro H. apply Z.ltb_lt in H. now rewrite H.
  - destruct (om_playouts (ownermap us) <? GJ_MINGAMES) eqn:E; [discriminate|].
    intros _. now apply Z.ltb_ge in E.
  - intro H. apply Z.ltb_ge in H. rewrite H. now destruct pass_all_alive.
Qed.

Lemma search_report_u (w : @world playout_policy uct_prior) t pi st :
  w_u (fst (search_report DEBUGL_ w t pi st)) = w_u w.
Proof.
  unfold search_report.
  destruct (_ >? pi); simpl;
    destruct (negb _ && _); simpl; unfold say_if;
      try destruct (UDEBUGL _ _ _); reflexivity.
Qed.

(** What [time_prep] writes through [stop] is the member the loop reads. *)
Lemma time_prep_fits (w : @world playout_policy uct_prior) ti b w' ti' stop :
  prep_time w ti b = Done (w', ti', stop) ->
  match dim ti', stop with
  | TD_GAMES, stop_p _ _ | TD_WALLTIME, stop_t _ _ => True
  | _, _ => False
  end.
Proof.
  unfold time_prep, assert.
  destruct (negb (is_TT_TOTAL (period ti))); simpl; [|discriminate].
  set (ti1 := match period ti with TT_NULL => _ | _ => ti end).
  destruct (dim ti1) eqn:Ed, (len ti1) eqn:El; try discriminate.
  - intro H. inversion H; subst. now rewrite Ed.
  - destruct (time_prep_walltime _ _ _ _ _ _ _ _).
    intro H. inversion H; subst. now rewrite Ed.
Qed.

Lemma search_decide_won (w : @world playout_policy uct_prior) b color t dd st pol p n :
  policy (w_u w) = Some pol ->
  pol_choose pol (root t) b color = Some p ->
  node_at (root t) p = Some n ->
  won_situation tree_node_get_value (w_u w) t n = true ->
  decide w b color t dd st = Done (w, Break BrWon).
Proof.
  intros Hp Hc Hn Hw. unfold search_decide. rewrite Hp, Hc, Hn. simpl.
  now rewrite Hw.
Qed.

(** C6: in a turn of the polling loop of [uct_search] in which the best
    child has at least 2000 playouts and a value of at least
    [loss_threshold], or at least 500 playouts and a value of at least 0.95,
    the loop is left in that turn, by the break of the won situation if not
    already by the one of the hard limit, and never through the test of
    [desired_done]; whatever polls would follow are not looked at.
    [uct_state_init] leaves [loss_threshold] at 0.85. *)
Theorem uct_search_won_situation_stops
        (w0 w1 w : @world playout_policy uct_prior) ti0 ti b color stop
        print_interval pl rest st pol p n :
  prep_time w0 ti0 b = Done (w1, ti, stop) ->
  policy (w_u w) = Some pol ->
  pol_choose pol (root (p_tree pl)) b color = Some p ->
  node_at (root (p_tree pl)) p = Some n ->
  (2000 <= playouts (u n)
   /\ fgeb (tree_node_get_value (p_tree pl) 1 (value (u n)))
           (loss_threshold (w_u w)) = true)
  \/ (500 <= playouts (u n)
      /\ fgeb (F64.of_float (tree_node_get_value (p_tree pl) 1 (value (u n))))
              (F64.lit 95 100) = true) ->
  (exists w' why,
      iter w b ti color stop print_interval pl st = Done (w', Break why)
      /\ (why = BrWon \/ why = BrWorstTime \/ why = BrWorstPlayouts)
      /\ loop w b ti color stop print_interval (pl :: rest) st = Done (w', why))
  /\ (forall parsed b0 us,
         init_tail parsed b0 = inl us ->
         loss_threshold us = F32.round (F64.lit 85 100)).
Proof.
  intros Hprep Hpol Hch Hn Hwon. split.
  - apply time_prep_fits in Hprep.
    assert (Hw : forall w2 : @world playout_policy uct_prior,
               w_u w2 = w_u w ->
               won_situation tree_node_get_value (w_u w2) (p_tree pl) n = true).
    { intros w2 E. unfold won_situation. rewrite E.
      destruct Hwon as [[Hp Hv]|[Hp Hv]]; rewrite Hv;
        apply Z.geb_le in Hp; rewrite Hp; simpl; [reflexivity|].
      apply orb_true_r. }
    simpl search_loop. unfold search_iter.
    pose proof (search_report_u w (p_tree pl) print_interval st) as Hu.
    destruct (search_report DEBUGL_ w (p_tree pl) print_interval st) as [w2 st2].
    simpl in Hu.
    assert (Hd : forall dd, decide w2 b color (p_tree pl) dd st2
                            = Done (w2, Break BrWon)).
    { intro dd. apply (search_decide_won w2 b color (p_tree pl) dd st2 pol p n);
        [rewrite Hu; exact Hpol | exact Hch | exact Hn | apply Hw; exact Hu]. }
    destruct (dim ti), stop as [ds ws|dp wp]; try contradiction.
    + destruct (_ >? wp).
      * exists w2, BrWorstPlayouts. simpl. auto.
      * rewrite Hd. exists w2, BrWon. simpl. auto.
    + destruct (fgtb (p_now pl) ws).
      * exists w2, BrWorstTime. simpl. auto.
      * rewrite Hd. exists w2, BrWon. simpl. auto.
  - intros parsed b0 us. unfold uct_state_init_tail.
    destruct (xorb _ _); [discriminate|].
    destruct (_ && _); [discriminate|].
    intro H. inversion H. reflexivity.
Qed.

Lemma search_decide_not_done (w : @world playout_policy uct_prior) b color t st w' s :
  decide w b color t false st = Done (w', s) ->
  s = Break BrWon \/ exists st', s = Continue st'.
Proof.
  unfold search_decide. destruct (policy (w_u w)) as [pol|]; [|discriminate].
  destruct (pol_choose pol (root t) b color) as [p|]; simpl.
  - destruct (node_at (root t) p) as [n|]; simpl; [|discriminate].
    destruct (won_situation _ _ _ _); intro H; inversion H; eauto.
  - intro H; inversion H; eauto.
Qed.

(** C7, as the code has it: for a budget counted in games, [time_prep] sets
    [worst_playouts] and [desired_playouts] both to that count.  A turn of
    the polling loop of [uct_search] then leaves the loop when the root has
    more playouts than the count; while it has no more than the count the
    turn either leaves through the won situation or goes on to the next
    poll, and the loop never waits for choose == winner. *)
Theorem uct_search_games_budget (w : @world playout_policy uct_prior) ti b g :
  (period ti = TT_NULL /\ g = MC_GAMES)
  \/ (period ti = TT_MOVE /\ dim ti = TD_GAMES /\ len ti = len_games g) ->
  exists ti',
    prep_time w ti b = Done (w, ti', stop_p g g)
    /\ dim ti' = TD_GAMES /\ len ti' = len_games g
    /\ forall (w2 : @world playout_policy uct_prior) color print_interval pl st,
        (g < playouts (u (root (p_tree pl))) ->
         exists w3,
           iter w2 b ti' color (stop_p g g) print_interval pl st
           = Done (w3, Break BrWorstPlayouts))
        /\ (playouts (u (root (p_tree pl))) <= g ->
            forall w3 s,
              iter w2 b ti' color (stop_p g g) print_interval pl st = Done (w3, s) ->
              s = Break BrWon \/ exists st', s = Continue st').
Proof.
  intros Hti.
  assert (Hprep : exists ti', prep_time w ti b = Done (w, ti', stop_p g g)
                              /\ dim ti' = TD_GAMES /\ len ti' = len_games g).
  { unfold time_prep, assert.
    destruct Hti as [[Hp Hg]|[Hp [Hd Hl]]]; rewrite Hp; simpl.
    - subst g. eexists. split; [reflexivity|]. split; reflexivity.
    - rewrite Hd, Hl. exists ti. auto. }
  destruct Hprep as [ti' [Hprep [Hd Hl]]]. exists ti'.
  split; [exact Hprep|]. split; [exact Hd|]. split; [exact Hl|].
  intros w2 color print_interval pl st. unfold search_iter.
  destruct (search_report DEBUGL_ w2 (p_tree pl) print_interval st) as [w3 st3].
  rewrite Hd. split.
  - intro Hi. apply Z.gtb_lt in Hi. rewrite Hi. eauto.
  - intro Hi.
    assert (E : (playouts (u (root (p_tree pl))) >? g) = false).
    { destruct (_ >? g) eqn:E; [|reflexivity]. apply Z.gtb_lt in E. lia. }
    rewrite E. intros w4 s. apply search_decide_not_done.
Qed.

(** After the search the engine holds the tree the search leaves. *)
Lemma uct_search_tree (w : @world playout_policy uct_prior) b ti color env w1 ti1 g :
  uct_search DEBUGL_ tree_node_get_value time_in_byoyomi
             board_estimated_moves_left MIN_MOVES_LEFT w b ti color env
  = Done (w1, ti1, g) ->
  u_t (w_u w1) = Some (stopped_tree env).
Proof.
  unfold uct_search. intro H.
  repeat match type of H with
         | obind ?x _ = Done _ =>
             let E := fresh "E" in
             destruct x as [[[? ?] ?]| | | |] eqn:E; simpl in H; try discriminate
         | obind ?x _ = Done _ =>
             let E := fresh "E" in
             destruct x as [[? ?]| | | |] eqn:E; simpl in H; try discriminate
         | obind ?x _ = Done _ =>
             let E := fresh "E" in
             destruct x as [?| | | |] eqn:E; simpl in H; try discriminate
         | match ?x with _ => _ end = Done _ =>
             destruct x eqn:?; try discriminate
         end.
  inversion H; subst. unfold say_if.
  repeat match goal with |- context [if ?c then _ else _] => destruct c end;
    reflexivity.
Qed.

Lemma genmove_search_tree (w : @world playout_policy uct_prior) b ti color env
      w1 b1 ti1 g :
  search_phase w b ti color env = Done (w1, b1, ti1, g) ->
  u_t (w_u w1) = Some (stopped_tree (ge_search env)).
Proof.
  unfold genmove_search. intro H.
  destruct (b_superko_violation b).
  all: repeat match type of H with
         | obind ?x _ = Done _ =>
             let E := fresh "E" in
             destruct x as [[[? ?] ?]| | | |] eqn:E; simpl in H; try discriminate
         | obind ?x _ = Done _ =>
             let E := fresh "E" in
             destruct x as [[? ?]| | | |] eqn:E; simpl in H; try discriminate
         | obind ?x _ = Done _ =>
             let E := fresh "E" in
             destruct x as [?| | | |] eqn:E; simpl in H; try discriminate
         end.
  all: inversion H; subst; eapply uct_search_tree; eassumption.
Qed.

Section Resign.

(** Tree nodes are made for moves and for pass; re-rooting and playouts
    keep it so. *)
Hypothesis promote_moves_only :
  forall t p, no_resign (root t) = true ->
              no_resign (root (fst (tree_promote_node t p))) = true.
Hypothesis playout_moves_only :
  forall us b c, moves_only us = true -> moves_only (uct_playout us b c) = true.

Lemma fill_ownermap_moves_only fuel :
  forall (us : @uct playout_policy uct_prior) b c us',
    moves_only us = true ->
    fill_ownermap uct_playout fuel us b c = Done us' ->
    moves_only us' = true.
Proof.
  induction fuel as [|k IH]; intros us b c us' Hm; simpl;
    destruct (om_playouts (ownermap us) <? GJ_MINGAMES);
    intro H; try discriminate; try (now inversion H; subst).
  eapply IH; [|exact H]. now apply playout_moves_only.
Qed.

Lemma genmove_pass_check_moves_only fuel (w : @world playout_policy uct_prior)
      b color paa t best w2 t2 :
  moves_only (w_u w) = true ->
  no_resign (root t) = true ->
  genmove_pass_check DEBUGL_ mq_empty board_ownermap_judge_group
                     groups_of_dead_status pass_is_safe uct_playout
                     fuel w b color paa t best
  = Done (w2, t2) ->
  no_resign (root t2) = true.
Proof.
  intros Hm Ht. unfold genmove_pass_check.
  destruct ((b_moves b >? 1) && is_pass (m_coord (b_last_move b)));
    [|intro H; now inversion H; subst].
  destruct (fill_ownermap uct_playout fuel (w_u w) b color) as [us| | | |] eqn:Ef;
    simpl; try discriminate.
  apply fill_ownermap_moves_only in Ef; [|exact Hm].
  unfold moves_only in Ef.
  destruct (u_t us) as [t3|]; [|discriminate].
  destruct (uct_pass_is_safe _ _ _ _ _ _ _ _); intro H; inversion H; subst.
  - simpl. now apply no_resign_set_pass.
  - exact Ef.
Qed.

Lemma genmove_promote_not_resign (w : @world playout_policy uct_prior)
      b color t best w' :
  no_resign (root t) = true ->
  genmove_promote DEBUGL_ tree_promote_node board_play w b color t best
  <> Done (resign, w').
Proof.
  intros Ht. unfold genmove_promote.
  pose proof (promote_moves_only t best Ht) as Hp.
  destruct (tree_promote_node t best) as [t2 best2]. simpl in Hp.
  destruct (node_at (root t2) best2) as [n|] eqn:En; [|discriminate].
  pose proof (no_resign_coord n (no_resign_node_at best2 (root t2) n Hp En)) as Hc.
  match goal with
  | |- obind ?x _ <> _ => destruct x; simpl; try discriminate
  end.
  intro H. inversion H. contradiction.
Qed.

(** C5: [uct_genmove] returns resign if and only if the search leaves a best
    child whose value is below [resign_ratio], which has more than
    [GJ_MINGAMES] = 500 playouts, and whose move is not a pass;
    [uct_state_init] leaves [resign_ratio] at 0.2.  The tree the search
    leaves is one of moves and passes. *)
Theorem uct_genmove_resign_iff fuel (w : @world playout_policy uct_prior)
        b ti color pass_all_alive_arg env :
  no_resign (root (stopped_tree (ge_search env))) = true ->
  ((exists w', genmove fuel w b ti color pass_all_alive_arg env = Done (resign, w'))
   <-> (exists w1 b1 ti1 g pol t best n,
           search_phase w b ti color env = Done (w1, b1, ti1, g)
           /\ policy (w_u w1) = Some pol
           /\ u_t (w_u w1) = Some t
           /\ pol_choose pol (root t) b1 color = Some best
           /\ node_at (root t) best = Some n
           /\ fltb (tree_node_get_value t 1 (value (u n)))
                   (resign_ratio (w_u w1)) = true
           /\ GJ_MINGAMES < playouts (u n)
           /\ is_pass (coord n) = false))
  /\ GJ_MINGAMES = 500
  /\ (forall parsed b0 us,
         init_tail parsed b0 = inl us ->
         resign_ratio us = F32.round (F64.lit 2 10)).
Proof.
  intro Hsearch. split; [|split; [reflexivity|]].
  - unfold uct_genmove.
    destruct (search_phase w b ti color env) as [[[[w1 b1] ti1] g]| | | |] eqn:Es;
      simpl;
      try (split; [intros [w' H]; discriminate
                  | intros (w2 & b2 & ti2 & g2 & pol & t & best & n & H & _);
                    discriminate]).
    assert (Hm : moves_only (w_u w1) = true).
    { unfold moves_only.
      now rewrite (genmove_search_tree w b ti color env w1 b1 ti1 g Es). }
    unfold genmove_finish. split.
    + intros [w' H].
      destruct (policy (w_u w1)) as [pol|] eqn:Ep; [|discriminate].
      destruct (u_t (w_u w1)) as [t|] eqn:Et; [|discriminate].
      destruct (pol_choose pol (root t) b1 color) as [best|] eqn:Ec.
      2:{ destruct (reset_state w1); simpl in H; discriminate. }
      destruct (node_at (root t) best) as [n|] eqn:En; [|discriminate].
      assert (Eu : forall c m, w_u (say_if c w1 m) = w_u w1)
        by (intros [] m; reflexivity).
      rewrite Eu in H.
      destruct (resign_test tree_node_get_value (w_u w1) t n) eqn:Er.
      * exists w1, b1, ti1, g, pol, t, best, n.
        unfold resign_test in Er.
        apply andb_prop in Er as [Er Hg]. apply andb_prop in Er as [Hv Hp].
        apply Z.gtb_lt in Hg. apply negb_true_iff in Hp. auto 10.
      * exfalso.
        assert (Ht : no_resign (root t) = true)
          by (unfold moves_only in Hm; now rewrite Et in Hm).
        match type of H with
        | obind ?x _ = _ => destruct x as [[w2 t2]| | | |] eqn:Epc
        end; simpl in H; try discriminate.
        apply genmove_pass_check_moves_only in Epc;
          [|rewrite Eu; exact Hm | exact Ht].
        exact (genmove_promote_not_resign w2 b1 color t2 best w' Epc H).
    + intros (w2 & b2 & ti2 & g2 & pol & t & best & n & H & Ep & Et & Ec & En
              & Hv & Hg & Hp).
      inversion H; subst w2 b2 ti2 g2.
      rewrite Ep, Et, Ec, En.
      assert (Er : resign_test tree_node_get_value
                     (w_u (say_if (UDEBUGL DEBUGL_ (w_u w1) 1) w1 (MsgWinner (coord n))))
                     t n = true).
      { replace (w_u (say_if _ w1 _)) with (w_u w1)
          by (unfold say_if; destruct (UDEBUGL _ _ _); reflexivity).
        unfold resign_test. rewrite Hv, Hp. simpl. now apply Z.gtb_lt. }
      rewrite Er. unfold reset_state, assert.
      replace (u_t (w_u (say_if (UDEBUGL DEBUGL_ (w_u w1) 1) w1 (MsgWinner (coord n)))))
        with (u_t (w_u w1))
        by (unfold say_if; destruct (UDEBUGL _ _ _); reflexivity).
      rewrite Et. simpl. eauto.
  - intros parsed b0 us. unfold uct_state_init_tail.
    destruct (xorb _ _); [discriminate|].
    destruct (_ && _); [discriminate|].
    intro H. inversion H. reflexivity.
Qed.

End Resign.

End UctFacts.

Section UctExamples.
Import Uct Examples.

Local Abbreviation prepare0 := (prepare_move debugl tree_init0 tree_load0 extra_komi0).
Local Abbreviation safe_to_pass0 := (uct_pass_is_safe tt judge0 dead0 safe0).
Local Abbreviation time_prep0 := (time_prep debugl byoyomi0 moves_left0 30).
Local Abbreviation iter0 := (search_iter debugl node_value0).
Local Abbreviation loop_0 := (search_loop debugl node_value0).
Local Abbreviation search_phase0 :=
  (genmove_search debugl tree_init0 tree_load0 extra_komi0 node_value0
                  byoyomi0 moves_left0 30).
Local Abbreviation genmove0 :=
  (uct_genmove debugl tree_init0 tree_load0 extra_komi0 node_value0 promote0
               tt judge0 dead0 safe0 byoyomi0 moves_left0 30 playout0
               board_play0).

(** C2 as stated fails: with a tree whose root colour is black, a request for
    a black move ends the process with status 1 after the "Fatal" line;
    [prepare_move] does not return, with or without a fresh tree. *)
Lemma prepare_move_counterexample :
  u_t (w_u (world0 (Some lost_tree) 0)) = Some lost_tree
  /\ stone_eqb S_BLACK (stone_other (root_color lost_tree)) = false
  /\ prepare0 (world0 (Some lost_tree) 0) board_mid S_BLACK
     = Exited 1 [MsgFatalNonAlternating S_BLACK S_BLACK].
Proof. repeat split. Qed.

Lemma prepare_move_non_alternating_witness :
  u_t (w_u (world0 (Some lost_tree) 0)) = Some lost_tree
  /\ stone_eqb S_BLACK (stone_other (root_color lost_tree)) = false
  /\ es_is board_mid (w_u (world0 (Some lost_tree) 0)) = true
  /\ b_moves board_mid <> 0
  /\ prepare0 (world0 (Some lost_tree) 0) board_mid S_BLACK
     = Exited 1 (w_out (world0 (Some lost_tree) 0)
                 ++ [MsgFatalNonAlternating S_BLACK (root_color lost_tree)]).
Proof.
  assert (Hm : b_moves board_mid <> 0) by (simpl; lia).
  split; [reflexivity | split; [reflexivity | split; [reflexivity | split; [exact Hm|]]]].
  apply (prepare_move_non_alternating debugl tree_init0 tree_load0 extra_komi0
           (world0 (Some lost_tree) 0) board_mid S_BLACK lost_tree
           eq_refl eq_refl); [reflexivity | exact Hm].
Defined.

Lemma uct_pass_is_safe_min_games_witness :
  om_playouts (ownermap (uct0 None 499)) < GJ_MINGAMES
  /\ safe_to_pass0 (uct0 None 499) board_mid S_WHITE true = false.
Proof.
  assert (H : om_playouts (ownermap (uct0 None 499)) < GJ_MINGAMES)
    by (vm_compute; reflexivity).
  split; [exact H|].
  apply (uct_pass_is_safe_min_games tt judge0 dead0 safe0 (uct0 None 499)
           board_mid S_WHITE true); exact H.
Defined.

Lemma uct_search_won_situation_stops_witness :
  exists w' why,
    iter0 (world0 (Some won_tree) 0) board_mid (ti_games 100000) S_WHITE
          (stop_p 100000 100000) 10000 (poll_of won_tree) loop0
    = Done (w', Break why)
    /\ (why = BrWon \/ why = BrWorstTime \/ why = BrWorstPlayouts)
    /\ loop_0 (world0 (Some won_tree) 0) board_mid (ti_games 100000) S_WHITE
              (stop_p 100000 100000) 10000
              [poll_of won_tree; poll_of bare_tree] loop0
       = Done (w', why).
Proof.
  apply (uct_search_won_situation_stops debugl node_value0 byoyomi0 moves_left0 30
           policy_init0 prior_init0 tt set_debug0 malloc0
           (world0 (Some won_tree) 0) (world0 (Some won_tree) 0)
           (world0 (Some won_tree) 0) (ti_games 100000) (ti_games 100000)
           board_mid S_WHITE (stop_p 100000 100000) 10000 (poll_of won_tree)
           [poll_of bare_tree] loop0 policy0 [0%nat]
           (leaf (point 12) 2500 (f32 9 10))
           eq_refl eq_refl eq_refl eq_refl).
  left. split; [vm_compute; discriminate | reflexivity].
Defined.

(** C7 as stated fails: at the poll that finds the root at exactly the count
    of 1000 games the loop goes on; it is the poll that finds 1001 that ends
    the search.  And with a budget of 100000 games a poll that finds a won
    position ends the search at 3100 playouts. *)
Lemma uct_search_games_budget_counterexample :
  time_prep0 (world0 (Some bare_tree) 0) (ti_games 1000) board_mid
  = Done (world0 (Some bare_tree) 0, ti_games 1000, stop_p 1000 1000)
  /\ playouts (u (root bare_tree)) = 1000
  /\ iter0 (world0 (Some bare_tree) 0) board_mid (ti_games 1000) S_WHITE
           (stop_p 1000 1000) 10000 (poll_of bare_tree) loop0
     = Done (world0 (Some bare_tree) 0, Continue loop0)
  /\ loop_0 (world0 (Some bare_tree) 0) board_mid (ti_games 1000) S_WHITE
            (stop_p 1000 1000) 10000 [poll_of bare_tree] loop0
     = Pending
  /\ loop_0 (world0 (Some bare_tree) 0) board_mid (ti_games 1000) S_WHITE
            (stop_p 1000 1000) 10000 [poll_of bare_tree; poll_of past_tree] loop0
     = Done (world0 (Some bare_tree) 0, BrWorstPlayouts)
  /\ playouts (u (root won_tree)) = 3100
  /\ loop_0 (world0 (Some won_tree) 0) board_mid (ti_games 100000) S_WHITE
            (stop_p 100000 100000) 10000 [poll_of won_tree] loop0
     = Done (world0 (Some won_tree) 0, BrWon).
Proof. repeat split. Qed.

Lemma uct_search_games_budget_witness :
  (period (ti_games 1000) = TT_MOVE /\ dim (ti_games 1000) = TD_GAMES
   /\ len (ti_games 1000) = len_games 1000)
  /\ exists ti',
      time_prep0 (world0 (Some bare_tree) 0) (ti_games 1000) board_mid
      = Done (world0 (Some bare_tree) 0, ti', stop_p 1000 1000)
      /\ dim ti' = TD_GAMES.
Proof.
  assert (H : period (ti_games 1000) = TT_MOVE /\ dim (ti_games 1000) = TD_GAMES
              /\ len (ti_games 1000) = len_games 1000) by (repeat split).
  split; [exact H|].
  destruct (uct_search_games_budget debugl node_value0 byoyomi0 moves_left0 30
              (world0 (Some bare_tree) 0) (ti_games 1000) board_mid 1000
              (or_intror H)) as [ti' [Hp [Hd _]]].
  exists ti'. split; assumption.
Defined.

Lemma promote0_moves_only t p :
  no_resign (root t) = true -> no_resign (root (fst (promote0 t p))) = true.
Proof.
  intro H. unfold promote0.
  destruct (node_at (root t) p) as [n|] eqn:En; simpl; [|exact H].
  exact (no_resign_node_at p (root t) n H En).
Defined.

Lemma playout0_moves_only (us : @uct unit unit) (b : board) (c : stone) :
  moves_only us = true -> moves_only (playout0 us b c) = true.
Proof. intro H. exact H. Defined.

Lemma uct_genmove_resign_iff_witness :
  no_resign (root (stopped_tree (ge_search env_lost))) = true
  /\ (exists w', genmove0 0%nat (world0 None 0) board_mid (ti_games 1000)
                         S_WHITE false env_lost = Done (resign, w'))
  /\ exists w1 b1 ti1 g pol t best n,
      search_phase0 (world0 None 0) board_mid (ti_games 1000) S_WHITE env_lost
      = Done (w1, b1, ti1, g)
      /\ policy (w_u w1) = Some pol
      /\ u_t (w_u w1) = Some t
      /\ pol_choose pol (root t) b1 S_WHITE = Some best
      /\ node_at (root t) best = Some n
      /\ fltb (node_value0 t 1 (value (u n))) (resign_ratio (w_u w1)) = true
      /\ GJ_MINGAMES < playouts (u n)
      /\ is_pass (coord n) = false.
Proof.
  assert (Hs : no_resign (root (stopped_tree (ge_search env_lost))) = true)
    by reflexivity.
  assert (Hr : exists w', genmove0 0%nat (world0 None 0) board_mid (ti_games 1000)
                                   S_WHITE false env_lost = Done (resign, w')).
  { eexists. vm_compute. reflexivity. }
  split; [exact Hs | split; [exact Hr|]].
  apply (proj1 (proj1 (uct_genmove_resign_iff debugl tree_init0 tree_load0
                         extra_komi0 node_value0 promote0 tt judge0 dead0 safe0
                         byoyomi0 moves_left0 30 playout0 board_play0
                         policy_init0 prior_init0 tt set_debug0 malloc0
                         promote0_moves_only playout0_moves_only
                         0%nat (world0 None 0) board_mid (ti_games 1000)
                         S_WHITE false env_lost Hs))).
  exact Hr.
Defined.

End UctExamples.

(* ------------------------------------------------------------------ *)
(** ** The thread manager under root parallelisation *)

Section ManagerFacts.
Import Uct.

Variable DEBUGL_ : Z -> Z -> bool.
Context {playout_policy uct_prior : Type}.
Variable tree_copy : tree -> tree.
Variable tree_merge : tree -> tree -> tree.
Variable tree_normalize : tree -> Z -> tree.
Variable fast_random : Z -> nat -> Z -> Z.
Variable worker_run : @uct playout_policy uct_prior -> spawn_ctx -> tree -> tree * Z.

Variable us : @uct playout_policy uct_prior.
Variable mctx : spawn_ctx.
Variable h : store.
Variable t0 : tree.

Local Abbreviation t := (ctx_t mctx).
Local Abbreviation n := (Z.to_nat (threads us)).
Local Abbreviation wctx := (worker_ctx fast_random mctx h).
Local Abbreviation wtree := (worker_tree tree_copy fast_random worker_run us mctx h t0).
Local Abbreviation wgames := (worker_games tree_copy fast_random worker_run us mctx h t0).
Local Abbreviation spawn := (spawn_loop DEBUGL_ tree_copy fast_random us mctx t false).
Local Abbreviation join := (join_one DEBUGL_ tree_merge worker_run us t false).
Local Abbreviation collect := (collect_loop DEBUGL_ tree_merge worker_run us t false).
Local Abbreviation is_spawned := (spawned tree_copy fast_random mctx h t0).
Local Abbreviation is_collected :=
  (collected tree_copy tree_merge fast_random worker_run us mctx h t0 n).

Hypothesis master : cells h t = Some t0.
Hypothesis master_allocated : (t < next h)%nat.

Lemma spawn_loop_spawned k :
  forall j st, is_spawned j st ->
               exists st', spawn k j st = Done st' /\ is_spawned (j + k) st'.
Proof.
  induction k as [|k IH]; intros j st Hst.
  - exists st. rewrite Nat.add_0_r. auto.
  - simpl spawn_loop. unfold spawn_one. simpl negb.
    rewrite (sp_master _ _ _ _ _ _ _ Hst). cbv iota beta. unfold store_alloc.
    rewrite (sp_next _ _ _ _ _ _ _ Hst). simpl obind.
    match goal with
    | |- exists st', spawn k (S j) ?s = _ /\ _ =>
        destruct (IH (S j) s) as [st' [Hrun Hsp]]
    end.
    + constructor; simpl.
      * lia.
      * replace (Nat.eqb t (next h + j)) with false
          by (symmetry; apply Nat.eqb_neq; lia).
        exact (sp_master _ _ _ _ _ _ _ Hst).
      * intros i Hi. destruct (Nat.eqb (next h + i) (next h + j)) eqn:E.
        -- reflexivity.
        -- apply Nat.eqb_neq in E. apply (sp_private _ _ _ _ _ _ _ Hst). lia.
      * intros i Hi. destruct (Nat.eqb i j) eqn:E.
        -- apply Nat.eqb_eq in E. subst i. reflexivity.
        -- apply Nat.eqb_neq in E. apply (sp_ctx _ _ _ _ _ _ _ Hst). lia.
      * intros i Hi. replace (Nat.eqb i j) with false
          by (symmetry; apply Nat.eqb_neq; lia).
        apply (sp_none _ _ _ _ _ _ _ Hst). lia.
      * reflexivity.
      * exact (sp_played _ _ _ _ _ _ _ Hst).
      * exact (sp_joined _ _ _ _ _ _ _ Hst).
    + exists st'. split; [exact Hrun|].
      now replace (j + S k)%nat with (S j + k)%nat by lia.
Qed.







End ManagerFacts.

(* ------------------------------------------------------------------ *)
(** ** Rounding to [float] *)


Lemma digits2_pos_bounds (p : positive) :
  2 ^ (Zpos (digits2_pos p) - 1) <= Zpos p < 2 ^ Zpos (digits2_pos p).
Proof.
  induction p as [p IH|p IH|]; simpl digits2_pos.
  - rewrite Pos2Z.inj_succ.
    replace (Z.succ (Zpos (digits2_pos p)) - 1) with (Z.succ (Zpos (digits2_pos p) - 1)) by lia.
    rewrite !Z.pow_succ_r by lia. lia.
  - rewrite Pos2Z.inj_succ.
    replace (Z.succ (Zpos (digits2_pos p)) - 1) with (Z.succ (Zpos (digits2_pos p) - 1)) by lia.
    rewrite !Z.pow_succ_r by lia. lia.
  - simpl. lia.
Qed.




















(* ------------------------------------------------------------------ *)
(** ** Merging and normalising *)


Section MergeExamples.
Import Uct Examples.


End MergeExamples.

(* ================================================================== *)
(** * Further properties of the engine *)

(** Inverts one step of a chain of calls that returned. *)
Ltac obind_step H :=
  match type of H with
  | Uct.obind ?x _ = Uct.Done _ =>
      let E := fresh "E" in
      let a := fresh "a" in
      destruct x as [a| | | |] eqn:E; try discriminate H;
      try match type of a with
          | (_ * _ * _ * _)%type => destruct a as [[[? ?] ?] ?]
          | (_ * _ * _)%type => destruct a as [[? ?] ?]
          | (_ * _)%type => destruct a as [? ?]
          | unit => destruct a
          end;
      cbn [Uct.obind] in H
  end.

Lemma SFltb_irrefl (x : spec_float) : SFltb x x = false.
Proof.
  unfold SFltb. destruct x as [s|s| |s m e]; simpl; try reflexivity.
  - now destruct s.
  - rewrite Z.compare_refl, Pos.compare_cont_refl. now destruct s.
Qed.

Section HookFacts.
Import Uct UctHooks.

Variable DEBUGL_ : Z -> Z -> bool.
Context {playout_policy uct_prior : Type}.
Variable tree_init : board -> stone -> Z -> tree.
Variable tree_load : tree -> board -> tree.
Variable uct_get_extra_komi : @uct playout_policy uct_prior -> board -> F32.t.
Variable tree_node_get_value : tree -> Z -> F32.t -> F32.t.
Variable tree_promote_node : tree -> node_ptr -> tree * node_ptr.
Context {group_judgement move_queue : Type}.
Variable mq_empty : move_queue.
Variable board_ownermap_judge_group :
  board -> board_ownermap -> F64.t -> group_judgement.
Variable groups_of_dead_status :
  board -> group_judgement -> move_queue -> move_queue.
Variable pass_is_safe : board -> stone -> move_queue -> bool.
Variable time_in_byoyomi : time_info -> bool.
Variable board_estimated_moves_left : board -> Z.
Variable MIN_MOVES_LEFT : Z.
Variable uct_playout : @uct playout_policy uct_prior -> board -> stone
                       -> @uct playout_policy uct_prior.
Variable board_play : board -> move -> Z * board.
Variable tree_promote_at : tree -> board -> coord_t -> option tree.
Context {book : Type}.
Variable tree_save : tree -> board -> Z -> book.

Local Abbreviation World := (@world playout_policy uct_prior).
Local Abbreviation prepare := (prepare_move DEBUGL_ tree_init tree_load uct_get_extra_komi).
Local Abbreviation ponder_stop := (uct_pondering_stop DEBUGL_).
Local Abbreviation search :=
  (uct_search DEBUGL_ tree_node_get_value time_in_byoyomi
              board_estimated_moves_left MIN_MOVES_LEFT).
Local Abbreviation prep_time :=
  (time_prep DEBUGL_ time_in_byoyomi board_estimated_moves_left MIN_MOVES_LEFT).
Local Abbreviation iter := (search_iter DEBUGL_ tree_node_get_value).
Local Abbreviation decide := (search_decide DEBUGL_ tree_node_get_value).
Local Abbreviation loop := (search_loop DEBUGL_ tree_node_get_value).
Local Abbreviation genmove :=
  (uct_genmove DEBUGL_ tree_init tree_load uct_get_extra_komi
               tree_node_get_value tree_promote_node mq_empty
               board_ownermap_judge_group groups_of_dead_status pass_is_safe
               time_in_byoyomi board_estimated_moves_left MIN_MOVES_LEFT
               uct_playout board_play).
Local Abbreviation notify_play :=
  (uct_notify_play DEBUGL_ tree_init tree_load uct_get_extra_komi tree_promote_at).
Local Abbreviation dead_groups :=
  (uct_dead_group_list DEBUGL_ tree_init tree_load uct_get_extra_komi
                       board_ownermap_judge_group groups_of_dead_status
                       uct_playout).
Local Abbreviation genbook :=
  (uct_genbook DEBUGL_ tree_init tree_load uct_get_extra_komi
               tree_node_get_value time_in_byoyomi board_estimated_moves_left
               MIN_MOVES_LEFT tree_save).

Lemma say_if_u (c : bool) (w : World) m : w_u (say_if c w m) = w_u w.
Proof. now destruct c. Qed.

Lemma say_if_running (c : bool) (w : World) m :
  w_running (say_if c w m) = w_running w.
Proof. now destruct c. Qed.

Lemma prepare_move_post (w w' : World) b b' color :
  prepare w b color = Done (w', b') ->
  has_tree (w_u w') = true
  /\ om_playouts (ownermap (w_u w')) = 0
  /\ es_is b' (w_u w') = true
  /\ w_running w' = w_running w
  /\ pondering (w_u w') = pondering (w_u w)
  /\ (forall t0, u_t (w_u w) = Some t0 ->
                 b' = b
                 /\ color = stone_other (root_color t0)
                 /\ exists t, u_t (w_u w') = Some t /\ root t = root t0
                              /\ root_color t = root_color t0).
Proof.
  unfold prepare_move, has_tree. intro H.
  destruct (u_t (w_u w)) as [t0|] eqn:Et.
  - unfold assert in H.
    destruct (es_is b (w_u w)) eqn:Ees; simpl in H; [|discriminate].
    destruct (b_moves b =? 0); simpl in H; [discriminate|].
    destruct (stone_eqb color (stone_other (root_color t0))) eqn:Ec;
      simpl in H; [|discriminate].
    rewrite Et in H. inversion H; subst. simpl.
    do 5 (split; [assumption || reflexivity|]).
    intros tA EA. inversion EA; subst tA.
    split; [reflexivity|]. split.
    + unfold stone_eqb in Ec. apply Z.eqb_eq in Ec.
      destruct color, (stone_other (root_color t0)); simpl in Ec;
        try discriminate; reflexivity.
    + eexists. split; [reflexivity|].
      destruct (_ && _); split; reflexivity.
  - unfold setup_state in H.
    match type of H with
    | obind (obind ?x _) _ = _ => destruct x as [w1| | | |] eqn:E1
    end; simpl in H; try discriminate.
    assert (Hw1 : exists t1, u_t (w_u w1) = Some t1
                            /\ u_id (w_u w1) = u_id (w_u w)
                            /\ w_running w1 = w_running w
                            /\ pondering (w_u w1) = pondering (w_u w)).
    { destruct (negb (no_book (w_u w)) && (b_moves _ =? 0)) in E1.
      - obind_step E1. inversion E1; subst. simpl.
        rewrite say_if_u, say_if_running. simpl. eauto.
      - inversion E1; subst. rewrite say_if_u, say_if_running. simpl. eauto. }
    destruct Hw1 as [t1 [Ht1 [Hid [Hr Hp]]]]. rewrite Ht1 in H.
    inversion H; subst. simpl.
    split; [reflexivity|]. split; [reflexivity|]. split.
    { unfold es_is. simpl. rewrite Hid. apply Nat.eqb_refl. }
    split; [assumption|]. split; [assumption|].
    intros tA EA. discriminate.
Qed.


Lemma assert_done (c : bool) (w : World) (x : unit) :
  assert c w = Done x -> c = true.
Proof. unfold assert. destruct c; [reflexivity|discriminate]. Qed.

Lemma uct_pondering_stop_returns (w w' : World) pondered :
  ponder_stop w pondered = Done w' ->
  w_running w' = false
  /\ pondering (w_u w') = false
  /\ has_tree (w_u w') = has_tree (w_u w)
  /\ (w_running w = false -> u_t (w_u w') = u_t (w_u w))
  /\ pass_all_alive (w_u w') = pass_all_alive (w_u w)
  /\ ownermap (w_u w') = ownermap (w_u w)
  /\ policy (w_u w') = policy (w_u w).
Proof.
  unfold uct_pondering_stop, uct_search_stop, has_tree. simpl.
  destruct (w_running w) eqn:Er; simpl; intro H.
  - inversion H; subst. rewrite say_if_running, say_if_u. simpl.
    repeat split; try reflexivity.
    + now destruct (u_t (w_u w)).
    + discriminate.
  - inversion H; subst. simpl. repeat split; try assumption; reflexivity.
Qed.

Lemma reset_state_returns (w w' : World) :
  reset_state w = Done w' ->
  u_t (w_u w') = None /\ w_running w' = w_running w
  /\ pondering (w_u w') = pondering (w_u w).
Proof.
  unfold reset_state, assert.
  destruct (u_t (w_u w)); simpl; intro H; inversion H; subst.
  simpl. repeat split; reflexivity.
Qed.

Lemma time_prep_returns (w w' : World) ti ti' b stop :
  prep_time w ti b = Done (w', ti', stop) ->
  w_u w' = w_u w /\ w_running w' = w_running w
  /\ period ti <> TT_TOTAL
  /\ (period ti <> TT_NULL -> ti' = ti)
  /\ match dim ti', stop with
     | TD_GAMES, stop_p d wst => len ti' = len_games wst /\ d = wst
     | TD_WALLTIME, stop_t _ _ => True
     | _, _ => False
     end.
Proof.
  unfold time_prep, assert. intro H.
  destruct (period ti) eqn:Ep; simpl in H; try discriminate.
  - inversion H; subst. simpl.
    repeat split; try discriminate; try congruence.
  - destruct (dim ti) eqn:Ed, (len ti) eqn:El; try discriminate.
    + inversion H; subst. rewrite Ed, El.
      repeat split; try discriminate; try reflexivity.
    + destruct (time_prep_walltime _ _ _ _ _ _ _ _) as [d wt].
      inversion H; subst. rewrite say_if_u, say_if_running, Ed.
      repeat split; try discriminate; try reflexivity.
Qed.

Lemma search_report_running (w : World) t pi st :
  w_running (fst (search_report DEBUGL_ w t pi st)) = w_running w.
Proof.
  unfold search_report.
  destruct (_ >? pi); destruct (_ && _); simpl;
    rewrite ?say_if_running; reflexivity.
Qed.

Lemma search_decide_returns (w w' : World) b color t dd st s :
  decide w b color t dd st = Done (w', s) ->
  w_u w' = w_u w /\ w_running w' = w_running w.
Proof.
  unfold search_decide. intro H.
  destruct (policy (w_u w)) as [pol|]; [|discriminate].
  obind_step H.
  destruct a.
  - inversion H; subst. split; reflexivity.
  - destruct dd.
    + destruct (pol_winner pol) as [wf|].
      * destruct (negb (pol_evaluate pol)).
        -- inversion H; subst. split; reflexivity.
        -- match type of H with
           | (if ?c then _ else _) = _ => destruct c
           end.
           ++ inversion H; subst. split; reflexivity.
           ++ inversion H; subst.
              rewrite say_if_u, say_if_running. split; reflexivity.
      * inversion H; subst. split; reflexivity.
    + inversion H; subst. split; reflexivity.
Qed.

Lemma search_iter_returns (w w' : World) b ti color stop pi pl st s :
  iter w b ti color stop pi pl st = Done (w', s) ->
  w_u w' = w_u w /\ w_running w' = w_running w.
Proof.
  unfold search_iter. intro H.
  pose proof (search_report_u DEBUGL_ w (p_tree pl) pi st) as Hu.
  pose proof (search_report_running w (p_tree pl) pi st) as Hr.
  destruct (search_report DEBUGL_ w (p_tree pl) pi st) as [w1 st1].
  simpl in Hu, Hr.
  destruct (dim ti), stop; try discriminate.
  - destruct (_ >? _).
    + inversion H; subst. split; assumption.
    + apply search_decide_returns in H. destruct H. split; congruence.
  - destruct (fgtb _ _).
    + inversion H; subst. split; assumption.
    + apply search_decide_returns in H. destruct H. split; congruence.
Qed.

Lemma search_loop_returns pls : forall (w w' : World) b ti color stop pi st why,
  loop w b ti color stop pi pls st = Done (w', why) ->
  w_u w' = w_u w /\ w_running w' = w_running w.
Proof.
  induction pls as [|pl rest IH]; intros w w' b ti color stop pi st why H;
    simpl in H; [discriminate|].
  obind_step H.
  apply search_iter_returns in E. destruct E as [Eu Er].
  destruct s.
  - inversion H; subst. split; assumption.
  - apply IH in H. destruct H. split; congruence.
Qed.

Lemma uct_search_post (w w' : World) b ti ti' color env g :
  search w b ti color env = Done (w', ti', g) ->
  w_running w = false
  /\ 0 < threads (w_u w)
  /\ period ti <> TT_TOTAL
  /\ w_running w' = false
  /\ g = stopped_games env
  /\ (period ti <> TT_NULL -> ti' = ti).
Proof.
  unfold uct_search. intro H.
  obind_step H.
  apply time_prep_returns in E. destruct E as [Eu [Er [Ep [Eti _]]]].
  destruct (u_t (w_u w0)) as [tr|]; [|discriminate].
  unfold uct_search_start in H at 1.
  unfold assert in H. rewrite say_if_u, say_if_running in H.
  destruct (threads (w_u w0) >? 0) eqn:Et; simpl in H; [|discriminate].
  destruct (w_running w0) eqn:Er0; simpl in H; [discriminate|].
  obind_step H.
  apply search_loop_returns in E. destruct E as [_ Erl]. simpl in Erl.
  unfold uct_search_stop, assert in H. rewrite Erl in H. simpl in H.
  inversion H; subst.
  rewrite !say_if_running. simpl.
  split; [congruence|]. split; [rewrite <- Eu; lia|].
  split; [assumption|]. split; [reflexivity|]. split; [reflexivity|assumption].
Qed.


Lemma search_decide_total (w : World) b color t dd st pol :
  policy (w_u w) = Some pol ->
  (forall p, pol_choose pol (root t) b color = Some p ->
             node_at (root t) p <> None) ->
  exists w' s, decide w b color t dd st = Done (w', s).
Proof.
  intros Hp Hc. unfold search_decide. rewrite Hp.
  destruct (pol_choose pol (root t) b color) as [p|] eqn:Ech.
  - destruct (node_at (root t) p) as [n|] eqn:En.
    + simpl. destruct (won_situation _ _ _ _); [eauto|].
      destruct dd; [|eauto].
      destruct (pol_winner pol); [|eauto].
      destruct (negb _); [eauto|].
      match goal with
      | |- context [if ?c then Done (w, Break BrBestIsWinner) else _] =>
          destruct c
      end; eauto.
    + exfalso. exact (Hc p eq_refl En).
  - simpl. destruct dd; [|eauto].
    destruct (pol_winner pol); [|eauto].
    destruct (negb _); eauto.
Qed.

Lemma search_iter_total (w : World) b ti color stop pi q pl st pol :
  policy (w_u w) = Some pol ->
  choice_in_tree pol b color q ->
  past_worst ti stop pl ->
  exists w' s, iter w b ti color stop pi q st = Done (w', s).
Proof.
  intros Hp Hc Hw. unfold search_iter.
  pose proof (search_report_u DEBUGL_ w (p_tree q) pi st) as Hu.
  destruct (search_report DEBUGL_ w (p_tree q) pi st) as [w1 st1].
  simpl in Hu. unfold past_worst in Hw.
  destruct (dim ti), stop; try contradiction.
  - match goal with
    | |- context [if ?c then Done (_, Break BrWorstPlayouts) else _] =>
        destruct c
    end; [eauto|].
    apply search_decide_total with (pol := pol); [congruence|exact Hc].
  - match goal with
    | |- context [if ?c then Done (_, Break BrWorstTime) else _] =>
        destruct c
    end; [eauto|].
    apply search_decide_total with (pol := pol); [congruence|exact Hc].
Qed.

Lemma search_loop_ends pre : forall (w : World) b ti color stop pi pl
    rest st pol,
  policy (w_u w) = Some pol ->
  (forall q, In q pre -> choice_in_tree pol b color q) ->
  past_worst ti stop pl ->
  exists w' why,
    loop w b ti color stop pi (pre ++ pl :: rest) st = Done (w', why)
    /\ w_u w' = w_u w.
Proof.
  induction pre as [|q pre IH]; intros w b ti color stop pi pl rest st pol
                                       Hp Hc Hw.
  - simpl. unfold search_iter. unfold past_worst in Hw.
    pose proof (search_report_u DEBUGL_ w (p_tree pl) pi st) as Hu.
    destruct (search_report DEBUGL_ w (p_tree pl) pi st) as [w1 st1].
    simpl in Hu.
    destruct (dim ti), stop; try contradiction.
    + replace (_ >? _) with true by (symmetry; apply Z.gtb_lt; exact Hw).
      simpl. eauto.
    + rewrite Hw. simpl. eauto.
  - simpl.
    destruct (search_iter_total w b ti color stop pi q pl st pol)
      as [w1 [s Ei]]; [assumption|apply Hc; now left|assumption|].
    rewrite Ei. simpl.
    pose proof (search_iter_returns _ _ _ _ _ _ _ _ _ _ Ei) as [Eu _].
    destruct s as [why|st'].
    + eauto.
    + destruct (IH w1 b ti color stop pi pl rest st' pol)
        as [w' [why [E1 E2]]].
      * congruence.
      * intros q' Hq. apply Hc. now right.
      * assumption.
      * exists w', why. split; [assumption|congruence].
Qed.

(** X3: the polling loop never outlives the hard limit.  With a policy in
    place whose choices point into the polled trees, the loop ends at the
    latest on the first poll that finds more playouts than the worst count
    (or a clock past the worst stop), whatever the polls after it, and the
    engine state is as before. *)
Theorem search_loop_hard_limit pre (w : World) b ti color stop pi pl rest st pol :
  policy (w_u w) = Some pol ->
  (forall q, In q pre -> choice_in_tree pol b color q) ->
  past_worst ti stop pl ->
  exists w' why,
    search_loop DEBUGL_ tree_node_get_value w b ti color stop pi
                (pre ++ pl :: rest) st = Done (w', why)
    /\ w_u w' = w_u w /\ w_running w' = w_running w.
Proof.
  intros Hp Hc Hw.
  destruct (search_loop_ends pre w b ti color stop pi pl rest st pol Hp Hc Hw)
    as [w' [why [E Hu]]].
  exists w', why. split; [exact E|]. split; [exact Hu|].
  exact (proj2 (search_loop_returns _ _ _ _ _ _ _ _ _ _ E)).
Qed.

(** X30: a search on a budget of games returns.  Entered with no search
    running, a thread, a tree and a policy whose choices point into the
    polled trees, [uct_search] returns once a poll finds more playouts at
    the root than the budget: no search is left running, the tree is the
    one the stopped search leaves and the result its count of games. *)
Theorem uct_search_returns_within_budget (w : World) b ti color env t pol g
        pre pl rest :
  w_running w = false -> 0 < threads (w_u w) ->
  u_t (w_u w) = Some t -> policy (w_u w) = Some pol ->
  period ti = TT_MOVE -> dim ti = TD_GAMES -> len ti = len_games g ->
  polls env = pre ++ pl :: rest ->
  (forall q, In q pre -> choice_in_tree pol b color q) ->
  g < playouts (u (root (p_tree pl))) ->
  exists w',
    uct_search DEBUGL_ tree_node_get_value time_in_byoyomi
               board_estimated_moves_left MIN_MOVES_LEFT w b ti color env
    = Done (w', ti, stopped_games env)
    /\ w_running w' = false
    /\ u_t (w_u w') = Some (stopped_tree env).
Proof.
  intros Hr Hth Ht Hpol Hper Hdim Hlen Hpolls Hc Hg.
  unfold uct_search, time_prep, assert. rewrite Hper, Hdim, Hlen.
  cbn [is_TT_TOTAL negb obind]. rewrite Ht.
  unfold uct_search_start, assert. rewrite say_if_u, say_if_running, Hr.
  replace (threads (w_u w) >? 0) with true by (symmetry; apply Z.gtb_lt; exact Hth).
  cbn [negb obind]. rewrite Hpolls.
  match goal with
  | |- context [search_loop _ _ ?w1 b ti color ?stop ?pi _ ?st] =>
      destruct (search_loop_ends pre w1 b ti color stop pi pl rest st pol)
        as [w2 [why [E Hu]]]
  end.
  - cbn [put_running w_u]. rewrite say_if_u. exact Hpol.
  - exact Hc.
  - unfold past_worst. rewrite Hdim. exact Hg.
  - rewrite E. cbn [obind].
    pose proof (search_loop_returns _ _ _ _ _ _ _ _ _ _ E) as [_ Hrun].
    cbn [put_running w_running] in Hrun.
    unfold uct_search_stop, assert. rewrite Hrun. cbn [obind].
    eexists. split; [reflexivity|].
    rewrite !say_if_running, !say_if_u. cbn. auto.
Qed.


(** X1: when [prepare_move] returns, the engine holds a tree, the owner map
    counts no playout, and the board belongs to the engine.  A tree that
    was there is kept, root and root colour: the board is then unchanged and
    the colour to move is the opposite of the root colour. *)
Theorem prepare_move_returns (w w' : World) b b' color :
  prepare_move DEBUGL_ tree_init tree_load uct_get_extra_komi w b color
  = Done (w', b') ->
  has_tree (w_u w') = true
  /\ om_playouts (ownermap (w_u w')) = 0
  /\ es_is b' (w_u w') = true
  /\ (forall t0, u_t (w_u w) = Some t0 ->
                 b' = b
                 /\ color = stone_other (root_color t0)
                 /\ exists t, u_t (w_u w') = Some t /\ root t = root t0
                              /\ root_color t = root_color t0).
Proof.
  intro H. apply prepare_move_post in H.
  destruct H as [H1 [H2 [H3 [_ [_ H4]]]]]. auto.
Qed.

(** X2: [uct_search] returns only when it was entered with no search
    running, at least one thread and a per-move budget; it then leaves no
    search running and the tree of the stopped search in place, reports the
    game count of the joined manager, and the time settings are the
    caller's unless the period was unset. *)
Theorem uct_search_returns (w w' : World) b ti ti' color env g :
  uct_search DEBUGL_ tree_node_get_value time_in_byoyomi
             board_estimated_moves_left MIN_MOVES_LEFT w b ti color env
  = Done (w', ti', g) ->
  w_running w = false
  /\ 0 < threads (w_u w)
  /\ period ti <> TT_TOTAL
  /\ w_running w' = false
  /\ u_t (w_u w') = Some (stopped_tree env)
  /\ g = stopped_games env
  /\ (period ti <> TT_NULL -> ti' = ti).
Proof.
  intro H.
  pose proof (uct_search_tree _ _ _ _ _ _ _ _ _ _ _ _ _ H) as Ht.
  apply uct_search_post in H.
  destruct H as [H1 [H2 [H3 [H4 [H5 H6]]]]].
  repeat (split; [assumption|]). assumption.
Qed.

(** X4: the thinking times [time_prep] settles on are ordered whatever the
    clock says: the worst time is never above the maximum time, and the
    desired time never above the worst time. *)
Theorem time_prep_walltime_ordered ti (us : @uct playout_policy uct_prior) b
        recommended max_time :
  let '(desired_time, worst_time) :=
    time_prep_walltime time_in_byoyomi board_estimated_moves_left
                       MIN_MOVES_LEFT ti us b recommended max_time in
  fgtb worst_time max_time = false /\ fgtb desired_time worst_time = false.
Proof.
  unfold time_prep_walltime.
  destruct (if time_in_byoyomi ti then _ else _) as [d0 w0].
  assert (Hw : fgtb (if fgtb w0 max_time then max_time else w0) max_time = false).
  { destruct (fgtb w0 max_time) eqn:E; [apply SFltb_irrefl|exact E]. }
  split; [exact Hw|].
  match goal with
  | |- fgtb (if fgtb d0 ?x then _ else _) _ = false =>
      destruct (fgtb d0 x) eqn:E; [apply SFltb_irrefl|exact E]
  end.
Qed.

Lemma genmove_search_post (w w1 : World) b b1 ti ti1 color env g :
  genmove_search DEBUGL_ tree_init tree_load uct_get_extra_komi
                 tree_node_get_value time_in_byoyomi board_estimated_moves_left
                 MIN_MOVES_LEFT w b ti color env = Done (w1, b1, ti1, g) ->
  w_running w1 = false.
Proof.
  unfold genmove_search. intro H.
  destruct (if b_superko_violation b then _ else _) as [w0 b0].
  do 4 obind_step H.
  inversion H; subst.
  apply uct_search_post in E2. tauto.
Qed.

Lemma genmove_pass_check_running fuel (w w2 : World) b color paa t t2 best :
  genmove_pass_check DEBUGL_ mq_empty board_ownermap_judge_group
                     groups_of_dead_status pass_is_safe uct_playout
                     fuel w b color paa t best = Done (w2, t2) ->
  w_running w2 = w_running w.
Proof.
  unfold genmove_pass_check. intro H.
  destruct (_ && _).
  - obind_step H. destruct (u_t a); [|discriminate].
    destruct (uct_pass_is_safe _ _ _ _ _ _ _ _);
      inversion H; subst; rewrite ?say_if_running; reflexivity.
  - inversion H; subst. reflexivity.
Qed.

Lemma genmove_promote_post (w w' : World) b color t best c :
  w_running w = false ->
  genmove_promote DEBUGL_ tree_promote_node board_play w b color t best
  = Done (c, w') ->
  (w_running w' = true -> is_pass c = false) /\ has_tree (w_u w') = true.
Proof.
  unfold genmove_promote. intros Hr H.
  destruct (tree_promote_node t best) as [t1 best1].
  destruct (node_at (root t1) best1) as [n|]; [|discriminate].
  simpl in H.
  destruct (pondering_opt (w_u w) && negb (is_pass (coord n))) eqn:Ep;
    simpl in H.
  - obind_step H. inversion H; subst.
    apply andb_true_iff in Ep. destruct Ep as [_ Ep].
    apply negb_true_iff in Ep. split; [intros _; exact Ep|].
    unfold uct_pondering_start in E.
    destruct (board_play b _) as [res b2].
    obind_step E. unfold uct_search_start in E. do 2 obind_step E.
    inversion E; subst. rewrite say_if_u. unfold has_tree. simpl.
    rewrite say_if_u. reflexivity.
  - inversion H; subst. rewrite say_if_running, say_if_u. simpl.
    split; [congruence|reflexivity].
Qed.

(** X5: when [uct_genmove] returns, a search is left running in the
    background only if the move is not a pass, and the engine has dropped
    its tree only if the move is a pass or a resignation: a move on the
    board always leaves the tree in place for the reply. *)
Theorem uct_genmove_returns fuel (w w' : World) b ti color pass_all_alive_arg
        env c :
  uct_genmove DEBUGL_ tree_init tree_load uct_get_extra_komi
              tree_node_get_value tree_promote_node mq_empty
              board_ownermap_judge_group groups_of_dead_status pass_is_safe
              time_in_byoyomi board_estimated_moves_left MIN_MOVES_LEFT
              uct_playout board_play fuel w b ti color pass_all_alive_arg env
  = Done (c, w') ->
  (w_running w' = true -> is_pass c = false)
  /\ (u_t (w_u w') = None -> c = pass \/ c = resign).
Proof.
  unfold uct_genmove. intro H. obind_step H.
  apply genmove_search_post in E. rename E into Hr.
  unfold genmove_finish in H.
  destruct (policy (w_u w0)) as [pol|]; [|discriminate].
  destruct (u_t (w_u w0)) as [tr|]; [|discriminate].
  destruct (pol_choose pol (root tr) b0 color) as [best|].
  - destruct (node_at (root tr) best) as [n|]; [|discriminate].
    destruct (resign_test _ _ _ _).
    + obind_step H. inversion H; subst.
      apply reset_state_returns in E. destruct E as [_ [E _]].
      rewrite say_if_running in E. split; [congruence|auto].
    + obind_step H.
      apply genmove_pass_check_running in E. rewrite say_if_running in E.
      apply genmove_promote_post in H; [|congruence].
      destruct H as [H1 H2]. split; [exact H1|].
      unfold has_tree in H2. intro Hn. rewrite Hn in H2. discriminate.
  - obind_step H. inversion H; subst.
    apply reset_state_returns in E. destruct E as [_ [E _]].
    split; [congruence|auto].
Qed.

(** X6: when [uct_notify_play] returns, no search runs and the pondering
    flag is down; the engine either has no tree or has the tree promoted to
    the move played, never the tree of the position before; after a
    resignation it has none, and the warning is printed only when the tree
    was dropped for a move that could not be promoted. *)
Theorem uct_notify_play_returns (w w' : World) b b' m pondered warns :
  uct_notify_play DEBUGL_ tree_init tree_load uct_get_extra_komi
                  tree_promote_at w b m pondered = Done (w', b', warns) ->
  w_running w' = false
  /\ pondering (w_u w') = false
  /\ (is_resign (m_coord m) = true -> u_t (w_u w') = None)
  /\ (forall t', u_t (w_u w') = Some t' ->
                 exists t, tree_promote_at t b' (m_coord m) = Some t')
  /\ (warns <> [] -> u_t (w_u w') = None /\ is_resign (m_coord m) = false).
Proof.
  unfold uct_notify_play. intro H. do 2 obind_step H.
  apply uct_pondering_stop_returns in E0.
  destruct E0 as [Hr [Hp _]].
  destruct (is_resign (m_coord m)) eqn:Eres.
  - obind_step H. inversion H; subst.
    apply reset_state_returns in E0. destruct E0 as [Ht [Hr' Hp']].
    split; [congruence|]. split; [congruence|]. split; [auto|].
    split; [intros t' Ht'; congruence|]. intros Hw. now elim Hw.
  - destruct (u_t (w_u a)) as [tr|] eqn:Et; [|discriminate].
    destruct (tree_promote_at tr b0 (m_coord m)) as [tp|] eqn:Epr.
    + inversion H; subst. simpl.
      split; [assumption|]. split; [assumption|]. split; [discriminate|].
      split.
      * intros t' Ht'. inversion Ht'; subst. eauto.
      * intros Hw. now elim Hw.
    + simpl in H. obind_step H. inversion H; subst.
      apply reset_state_returns in E0. destruct E0 as [Ht [Hr' Hp']].
      split; [congruence|]. split; [congruence|]. split; [discriminate|].
      split; [intros t' Ht'; congruence|]. auto.
Qed.

Lemma playouts_n_count (Hplay : forall us b c,
    om_playouts (ownermap (uct_playout us b c)) = om_playouts (ownermap us) + 1)
    n : forall (us : @uct playout_policy uct_prior) b c,
  om_playouts (ownermap (playouts_n uct_playout n us b c))
  = om_playouts (ownermap us) + Z.of_nat n.
Proof.
  induction n as [|k IH]; intros us b c; simpl playouts_n.
  - simpl. lia.
  - rewrite IH, Hplay. lia.
Qed.

(** X7: [uct_dead_group_list] leaves the engine as stateless or stateful as
    it found it, with no search running; with [pass_all_alive] the queue is
    returned as passed in; and when it has to set up a mock state, the
    groups are judged on an owner map of exactly [GJ_MINGAMES] playouts,
    given that each playout counts once in the owner map. *)
Theorem uct_dead_group_list_returns (w w' : World) b b' mq mq' pondered :
  (forall us b c,
      om_playouts (ownermap (uct_playout us b c))
      = om_playouts (ownermap us) + 1) ->
  uct_dead_group_list DEBUGL_ tree_init tree_load uct_get_extra_komi
                      board_ownermap_judge_group groups_of_dead_status
                      uct_playout w b mq pondered = Done (w', b', mq') ->
  w_running w' = false
  /\ has_tree (w_u w') = has_tree (w_u w)
  /\ (pass_all_alive (w_u w) = true -> mq' = mq)
  /\ (pass_all_alive (w_u w) = false -> has_tree (w_u w) = false ->
      exists us : @uct playout_policy uct_prior,
        om_playouts (ownermap us) = GJ_MINGAMES
                 /\ mq' = dead_group_list board_ownermap_judge_group
                                          groups_of_dead_status us b' mq).
Proof.
  intros Hplay. unfold uct_dead_group_list.
  assert (Hk : exists k, Z.to_nat GJ_MINGAMES = k /\ Z.of_nat k = GJ_MINGAMES).
  { eexists. split; [reflexivity|reflexivity]. }
  destruct Hk as [k [Hk Ek]]. rewrite Hk. clear Hk.
  intro H. obind_step H.
  apply uct_pondering_stop_returns in E.
  destruct E as [Hr [_ [Ht [_ [Hpa _]]]]].
  rewrite Hpa in H.
  destruct (pass_all_alive (w_u w)) eqn:Epa.
  - inversion H; subst.
    split; [assumption|]. split; [assumption|]. split; [auto|discriminate].
  - obind_step H.
    destruct (has_tree (w_u a)) eqn:Eh; cbn [negb] in E.
    + inversion E; subst. cbn [obind] in H. inversion H; subst.
      split; [assumption|]. split; [congruence|]. split; [discriminate|].
      intros _ Hn. congruence.
    + do 2 obind_step E. inversion E; subst. cbn [obind] in H.
      obind_step H. inversion H; subst.
      apply reset_state_returns in E2. destruct E2 as [Hn [Hr' _]].
      cbn [w_running put_u] in Hr'.
      apply prepare_move_post in E0.
      destruct E0 as [_ [Hom [_ [Hr0 _]]]].
      split; [congruence|].
      split; [unfold has_tree at 1; rewrite Hn; congruence|].
      split; [discriminate|].
      intros _ _. eexists. split; [|reflexivity].
      cbn [w_u put_u]. rewrite (playouts_n_count Hplay), Hom, Ek.
      reflexivity.
Qed.

(** X8: [uct_done] leaves an engine with no tree and no search running,
    whether or not it held a tree or was pondering. *)
Theorem uct_done_returns (w w' : World) pondered :
  uct_done DEBUGL_ w pondered = Done w' ->
  has_tree (w_u w') = false /\ w_running w' = false
  /\ pondering (w_u w') = false.
Proof.
  unfold uct_done. intro H. obind_step H.
  apply uct_pondering_stop_returns in E. destruct E as [Hr [Hp _]].
  destruct (has_tree (w_u a)) eqn:Eh.
  - apply reset_state_returns in H. destruct H as [Hn [Hr' Hp']].
    unfold has_tree. rewrite Hn. split; [reflexivity|]. split; congruence.
  - inversion H; subst. auto.
Qed.

(** X9: [uct_genbook] completes only for a budget counted in games.  For a
    per-move budget of [g] games and a tree whose root has [p] playouts,
    the search runs with a budget of [g + p] games and the book is written
    from the tree the search leaves with the threshold [(g + p) / 100]. *)
Theorem uct_genbook_returns (w w' : World) b b' ti ti' color env bk :
  uct_genbook DEBUGL_ tree_init tree_load uct_get_extra_komi
              tree_node_get_value time_in_byoyomi board_estimated_moves_left
              MIN_MOVES_LEFT tree_save w b ti color env
  = Done (w', b', ti', bk) ->
  dim ti' = TD_GAMES
  /\ (period ti <> TT_NULL -> dim ti = TD_GAMES)
  /\ (forall g t, period ti = TT_MOVE -> len ti = len_games g ->
                  u_t (w_u w) = Some t ->
                  len ti' = len_games (g + playouts (u (root t)))
                  /\ bk = tree_save (stopped_tree env) b
                                    (Z.quot (g + playouts (u (root t))) 100)).
Proof.
  unfold uct_genbook. intro H.
  obind_step H. rename E into Eprep.
  obind_step H. rename E into Eas.
  destruct (u_t (w_u w0)) as [t1|] eqn:Et1; [|discriminate].
  obind_step H. rename E into Eti. rename a into ti1.
  obind_step H. rename E into Esearch.
  obind_step H. rename E into Edim.
  pose proof (uct_search_tree _ _ _ _ _ _ _ _ _ _ _ _ _ Esearch) as Hst.
  apply uct_search_post in Esearch.
  destruct Esearch as [_ [_ [_ [_ [_ Hti]]]]].
  apply assert_done in Edim.
  rewrite Hst in H.
  destruct (len t) as [games|] eqn:El; [|discriminate].
  inversion H; subst.
  assert (Hd : dim ti' = TD_GAMES).
  { destruct (dim ti'); [reflexivity|discriminate]. }
  split; [assumption|].
  assert (Ha : period ti1 = period ti
               /\ (is_TD_GAMES (dim ti) = false -> ti1 = ti)
               /\ (forall g, len ti = len_games g ->
                             is_TD_GAMES (dim ti) = true ->
                             len ti1 = len_games (g + playouts (u (root t1))))).
  { destruct (is_TD_GAMES (dim ti)).
    - destruct (len ti); [|discriminate]. unfold int_add in Eti.
      destruct (CStr.in_int _); [|discriminate].
      inversion Eti; subst. simpl.
      split; [reflexivity|]. split; [discriminate|].
      intros g Hg _. inversion Hg; subst. reflexivity.
    - inversion Eti; subst. split; [reflexivity|]. split; [reflexivity|].
      discriminate. }
  destruct Ha as [Hper [Hwall Hlen]].
  split.
  - intro Hn. rewrite <- Hper in Hn. specialize (Hti Hn). subst ti1.
    destruct (is_TD_GAMES (dim ti)) eqn:Ed.
    + destruct (dim ti); [reflexivity|discriminate].
    + rewrite (Hwall eq_refl) in Hd. rewrite Hd in Ed. discriminate.
  - intros g t0 Hp Hl Ht0.
    assert (Hn : period ti1 <> TT_NULL) by (rewrite Hper, Hp; discriminate).
    specialize (Hti Hn). subst ti1.
    destruct (is_TD_GAMES (dim ti)) eqn:Ed.
    + specialize (Hlen g Hl eq_refl).
      assert (Hw : w0 = w /\ b' = b).
      { unfold has_tree in Eprep. rewrite Ht0 in Eprep. simpl in Eprep.
        inversion Eprep; subst. auto. }
      destruct Hw as [-> ->]. rewrite Ht0 in Et1. inversion Et1; subst t1.
      rewrite Hlen in El. inversion El; subst games.
      split; [assumption|reflexivity].
    + rewrite (Hwall eq_refl) in Hd. rewrite Hd in Ed. discriminate.
Qed.


(** X13: a pondering search that was started can be stopped: after
    [uct_pondering_start] returned, [uct_pondering_stop] returns with no
    search running, the pondering flag down and the tree as the background
    search left it; stopping once more changes nothing and prints nothing. *)
Theorem uct_pondering_start_stop (w w1 : World) b0 t color pondered :
  uct_pondering_start DEBUGL_ board_play w b0 t color = Done w1 ->
  exists w2,
    uct_pondering_stop DEBUGL_ w1 pondered = Done w2
    /\ w_running w2 = false
    /\ pondering (w_u w2) = false
    /\ u_t (w_u w2) = match u_t (w_u w) with
                      | Some _ => Some pondered
                      | None => None
                      end
    /\ forall pondered', uct_pondering_stop DEBUGL_ w2 pondered' = Done w2.
Proof.
  unfold uct_pondering_start. intro H.
  destruct (board_play b0 _) as [res b1].
  obind_step H. unfold uct_search_start in H. do 2 obind_step H.
  inversion H; subst w1. clear H.
  unfold uct_pondering_stop, uct_search_stop, assert, say_if, UDEBUGL.
  destruct (DEBUGL_ (debug_level (w_u w)) 1) eqn:Ed; simpl; rewrite ?Ed; simpl.
  all: eexists; split; [reflexivity|]; simpl.
  all: split; [reflexivity|]; split; [reflexivity|]; split; [reflexivity|].
  all: intros pondered'; reflexivity.
Qed.

(** X14: the loop of [uct_genmove] that fills the owner map ends: when
    each playout counts once in the owner map, it runs
    [GJ_MINGAMES - playouts] playouts, none if the count is there already,
    and leaves an owner map [uct_pass_is_safe] accepts. *)
Theorem fill_ownermap_ends fuel : forall (us : @uct playout_policy uct_prior) b c,
  (forall us b c,
      om_playouts (ownermap (uct_playout us b c))
      = om_playouts (ownermap us) + 1) ->
  (Z.to_nat (GJ_MINGAMES - om_playouts (ownermap us)) <= fuel)%nat ->
  fill_ownermap uct_playout fuel us b c
  = Done (playouts_n uct_playout
                     (Z.to_nat (GJ_MINGAMES - om_playouts (ownermap us)))
                     us b c)
  /\ om_playouts (ownermap
       (playouts_n uct_playout
                   (Z.to_nat (GJ_MINGAMES - om_playouts (ownermap us)))
                   us b c))
     = Z.max (om_playouts (ownermap us)) GJ_MINGAMES.
Proof.
  intros us b c Hplay Hfuel. split.
  - revert us Hfuel.
    induction fuel as [|k IH]; intros us Hfuel; simpl fill_ownermap.
    + destruct (om_playouts (ownermap us) <? GJ_MINGAMES) eqn:E.
      * apply Z.ltb_lt in E. lia.
      * apply Z.ltb_ge in E.
        replace (Z.to_nat (GJ_MINGAMES - om_playouts (ownermap us))) with 0%nat
          by lia.
        reflexivity.
    + destruct (om_playouts (ownermap us) <? GJ_MINGAMES) eqn:E.
      * apply Z.ltb_lt in E.
        rewrite IH by (rewrite Hplay; lia).
        rewrite Hplay.
        replace (Z.to_nat (GJ_MINGAMES - om_playouts (ownermap us)))
          with (S (Z.to_nat (GJ_MINGAMES - (om_playouts (ownermap us) + 1))))
          by lia.
        reflexivity.
      * apply Z.ltb_ge in E.
        replace (Z.to_nat (GJ_MINGAMES - om_playouts (ownermap us))) with 0%nat
          by lia.
        reflexivity.
  - rewrite (playouts_n_count Hplay). lia.
Qed.

Lemma prepare_move_first_not_black (w : World) b color :
  u_t (w_u w) = None -> no_book (w_u w) = false -> b_moves b = 0 ->
  stone_eqb color S_BLACK = false ->
  exists out, prepare w b color = Aborted out.
Proof.
  intros Ht Hb Hm Hc. unfold prepare_move, setup_state. rewrite Ht.
  cbn [put_u w_u no_book set_t with_run set_es b_moves].
  rewrite Hb, Hm. simpl negb. rewrite Z.eqb_refl. cbn [andb].
  unfold assert. rewrite Hc. simpl. eauto.
Qed.

(** X29: with the opening book in use, the first move of a game has to be
    Black's.  On a board with no move played and an engine with no tree,
    [prepare_move] for another colour fails the assertion of
    [setup_state], and so do [uct_notify_play] for such a move and
    [uct_genmove] for that colour, whether or not a search was running. *)
Theorem first_move_not_black_aborts (w : World) b color :
  u_t (w_u w) = None -> no_book (w_u w) = false -> b_moves b = 0 ->
  stone_eqb color S_BLACK = false ->
  (exists out,
      prepare_move DEBUGL_ tree_init tree_load uct_get_extra_komi w b color
      = Aborted out)
  /\ (forall m pondered,
        m_color m = color ->
        exists out,
          uct_notify_play DEBUGL_ tree_init tree_load uct_get_extra_komi
                          tree_promote_at w b m pondered = Aborted out)
  /\ (forall fuel ti pass_all_alive_arg env,
        exists out,
          genmove fuel w b ti color pass_all_alive_arg env = Aborted out).
Proof.
  intros Ht Hb Hm Hc. split; [|split].
  - now apply prepare_move_first_not_black.
  - intros m pondered Hcol. unfold uct_notify_play, has_tree. rewrite Ht.
    cbn [negb]. rewrite Hcol.
    destruct (prepare_move_first_not_black w b color Ht Hb Hm Hc) as [out E].
    rewrite E. simpl. eauto.
  - intros fuel ti paa env. unfold uct_genmove, genmove_search.
    assert (Hstop : forall (w0 : World),
               u_t (w_u w0) = None -> no_book (w_u w0) = false ->
               exists w1, ponder_stop w0 (ge_pondered env) = Done w1
                          /\ u_t (w_u w1) = None /\ no_book (w_u w1) = false).
    { intros w0 H1 H2. unfold uct_pondering_stop, uct_search_stop, assert.
      cbn [put_u w_running w_u].
      destruct (w_running w0) eqn:Er; cbn [negb obind].
      - eexists. split; [reflexivity|]. rewrite !say_if_u.
        cbn. rewrite H1. auto.
      - eexists. split; [reflexivity|]. cbn. auto. }
    destruct (b_superko_violation b).
    + destruct (Hstop (say w MsgSuperkoViolation) Ht Hb) as [w1 [E1 [H1 H2]]].
      rewrite E1. cbn [obind].
      destruct (prepare_move_first_not_black w1
                  (set_superko_violation b false) color H1 H2 Hm Hc)
        as [out E].
      rewrite E. simpl. eauto.
    + destruct (Hstop w Ht Hb) as [w1 [E1 [H1 H2]]].
      rewrite E1. cbn [obind].
      destruct (prepare_move_first_not_black w1 b color H1 H2 Hm Hc)
        as [out E].
      rewrite E. simpl. eauto.
Qed.

Section InitTail.

Variable policy_ucb1amaf_init : @uct playout_policy uct_prior -> uct_policy.
Variable uct_prior_init : board -> uct_prior.
Variable playout_moggy_init : playout_policy.
Variable playout_set_debug_level : playout_policy -> Z -> playout_policy.
Variable malloc_ownermap : Z -> list (list Z).

(** X15: an engine [uct_state_init] hands out is complete and consistent:
    it has a policy, a prior and a playout policy (those of the options
    where given), [fast_alloc] only with a shared tree, and a random policy
    exactly when its chance is not 0; no tree is set up yet.  The two
    errors are raised exactly on the two inconsistent settings. *)
Theorem uct_state_init_tail_consistent (parsed : @uct playout_policy uct_prior) b :
  match uct_state_init_tail policy_ucb1amaf_init uct_prior_init
                            playout_moggy_init playout_set_debug_level
                            malloc_ownermap parsed b with
  | inl us =>
      policy us <> None /\ u_prior us <> None /\ playout us <> None
      /\ (forall p, policy parsed = Some p -> policy us = Some p)
      /\ (forall p, u_prior parsed = Some p -> u_prior us = Some p)
      /\ (fast_alloc us = true -> parallel_tree us = true)
      /\ (random_policy us = None <-> random_policy_chance us = 0)
      /\ u_t us = u_t parsed
      /\ threads us = threads parsed
  | inr OnlyOneRandomPolicy =>
      ~ (random_policy parsed = None <-> random_policy_chance parsed = 0)
  | inr FastAllocWithRoot =>
      (random_policy parsed = None <-> random_policy_chance parsed = 0)
      /\ fast_alloc parsed = true /\ parallel_tree parsed = false
  end.
Proof.
  unfold uct_state_init_tail. cbv zeta.
  cbn [random_policy_chance random_policy fast_alloc parallel_tree policy
       u_prior playout].
  destruct (random_policy_chance parsed =? 0) eqn:Ec;
    [apply Z.eqb_eq in Ec | apply Z.eqb_neq in Ec];
    destruct (random_policy parsed) as [rp|] eqn:Er; cbn [negb xorb].
  1: { intros [H1 H2]. specialize (H2 Ec). discriminate. }
  3: { intros [H1 H2]. specialize (H1 eq_refl). contradiction. }
  all: assert (Hr : random_policy parsed = None <-> random_policy_chance parsed = 0)
    by (rewrite Er; split; [intro H; first [exact Ec | discriminate H]
                           | intro H; first [reflexivity | contradiction]]).
  all: rewrite Er in Hr.
  all: destruct (fast_alloc parsed) eqn:Ef; destruct (parallel_tree parsed) eqn:Ep;
    cbn [andb negb].
  all: try (split; [exact Hr|split; reflexivity]).
  all: cbn [policy u_prior playout fast_alloc parallel_tree random_policy
            random_policy_chance u_t threads].
  all: split; [discriminate|].
  all: split; [discriminate|].
  all: split; [discriminate|].
  all: split; [intros p Hp; rewrite Hp; reflexivity|].
  all: split; [intros p Hp; rewrite Hp; reflexivity|].
  all: split; [intro H; first [reflexivity | exact H]|].
  all: split; [exact Hr|].
  all: split; reflexivity.
Qed.

End InitTail.

End HookFacts.

(* ---------------------------------------------------------------- *)
(** ** The thread manager, whatever the thread model *)

Section ManagerMore.
Import Uct.

Variable DEBUGL_ : Z -> Z -> bool.
Context {playout_policy uct_prior : Type}.
Variable tree_copy : tree -> tree.
Variable tree_merge : tree -> tree -> tree.
Variable tree_normalize : tree -> Z -> tree.
Variable fast_random : Z -> nat -> Z -> Z.
Variable worker_run : @uct playout_policy uct_prior -> spawn_ctx -> tree -> tree * Z.

Variable us : @uct playout_policy uct_prior.
Variable mctx : spawn_ctx.

Local Abbreviation spawn1 := (spawn_one DEBUGL_ tree_copy fast_random us mctx).
Local Abbreviation spawn := (spawn_loop DEBUGL_ tree_copy fast_random us mctx).
Local Abbreviation join := (join_one DEBUGL_ tree_merge worker_run us).
Local Abbreviation collect := (collect_loop DEBUGL_ tree_merge worker_run us).

Lemma spawn_one_joined t sh ti st st' :
  spawn1 t sh ti st = Done st' -> joined st' = joined st.
Proof.
  unfold spawn_one. intro H.
  destruct (if sh then _ else _) as [[h1 p]|]; [|discriminate].
  inversion H; subst. reflexivity.
Qed.

Lemma spawn_loop_joined t sh k : forall from st st',
  spawn t sh k from st = Done st' -> joined st' = joined st.
Proof.
  induction k as [|k IH]; intros from st st' H; simpl in H.
  - inversion H; subst. reflexivity.
  - obind_step H. apply IH in H. apply spawn_one_joined in E. congruence.
Qed.

Lemma join_one_joined t sh ev st st' :
  join t sh ev st = Done st' -> joined st' = joined st + 1.
Proof.
  unfold join_one. intro H.
  destruct (mg_ctx st (Z.to_nat ev)) as [ctx|]; [|discriminate].
  destruct (cells (mg_store st) (ctx_t ctx)) as [wt|]; [|discriminate].
  destruct (worker_run us ctx wt) as [wt' g].
  destruct (negb sh).
  - destruct (cells _ t); [|discriminate].
    destruct (cells _ (ctx_t ctx)); [|discriminate].
    inversion H; subst. reflexivity.
  - inversion H; subst. reflexivity.
Qed.

Lemma collect_loop_joined t sh events : forall st st',
  collect t sh events st = Done st' ->
  threads us <= joined st'
  /\ joined st' <= Z.max (joined st) (threads us)
  /\ joined st' <= joined st + Z.of_nat (length (joins events)).
Proof.
  induction events as [|ev events IH]; intros st st' H; simpl in H.
  - destruct (joined st <? threads us) eqn:Ej; [discriminate|].
    inversion H; subst. apply Z.ltb_ge in Ej. simpl. lia.
  - destruct (joined st <? threads us) eqn:Ej.
    + apply Z.ltb_lt in Ej. destruct (ev <? 0) eqn:Eev.
      * apply IH in H. simpl in H. unfold joins. simpl. rewrite Eev. simpl.
        unfold joins in H. lia.
      * obind_step H. apply join_one_joined in E. apply IH in H.
        unfold joins in *. simpl. rewrite Eev. simpl length. lia.
    + inversion H; subst. apply Z.ltb_ge in Ej. lia.
Qed.

(** X10: the thread manager does not return before it has joined every
    worker: a run that completes has seen at least [threads] wake-ups that
    name a finished worker, and a stop request alone never ends it. *)
Theorem spawn_thread_manager_joins_all h events h' p g :
  spawn_thread_manager DEBUGL_ tree_copy tree_merge tree_normalize fast_random
                       worker_run us mctx h events = Done (h', p, g) ->
  threads us <= Z.of_nat (length (joins events)).
Proof.
  unfold spawn_thread_manager. intro H.
  obind_step H. apply spawn_loop_joined in E. simpl in E.
  obind_step H. apply collect_loop_joined in E0.
  lia.
Qed.

(** The manager on a shared tree: every context points to the caller's
    tree, nothing is allocated, and no other cell is written. *)
Lemma spawn_loop_shared h t k : forall from st st',
  mctx_t st = t -> next (mg_store st) = next h ->
  (forall q, q <> t -> cells (mg_store st) q = cells h q) ->
  (forall i c, mg_ctx st i = Some c -> ctx_t c = t) ->
  spawn t true k from st = Done st' ->
  mctx_t st' = t /\ next (mg_store st') = next h
  /\ (forall q, q <> t -> cells (mg_store st') q = cells h q)
  /\ (forall i c, mg_ctx st' i = Some c -> ctx_t c = t).
Proof.
  induction k as [|k IH]; intros from st st' H1 H2 H3 H4 H; simpl in H.
  - inversion H; subst. auto.
  - apply IH in H; simpl; auto.
    intros i c. destruct (Nat.eqb i from).
    + intro E. inversion E; subst. reflexivity.
    + apply H4.
Qed.

Lemma collect_loop_shared h t events : forall st st',
  mctx_t st = t -> next (mg_store st) = next h ->
  (forall q, q <> t -> cells (mg_store st) q = cells h q) ->
  (forall i c, mg_ctx st i = Some c -> ctx_t c = t) ->
  collect t true events st = Done st' ->
  mctx_t st' = t /\ next (mg_store st') = next h
  /\ (forall q, q <> t -> cells (mg_store st') q = cells h q).
Proof.
  induction events as [|ev events IH]; intros st st' H1 H2 H3 H4 H;
    simpl in H.
  - destruct (joined st <? threads us); [discriminate|].
    inversion H; subst. auto.
  - destruct (joined st <? threads us).
    + destruct (ev <? 0).
      * apply IH in H; simpl; auto.
      * obind_step H. unfold join_one in E.
        destruct (mg_ctx st (Z.to_nat ev)) as [c|] eqn:Ec; [|discriminate].
        pose proof (H4 _ _ Ec) as Hc.
        destruct (cells (mg_store st) (ctx_t c)) as [wt|]; [|discriminate].
        destruct (worker_run us c wt) as [wt' g]. simpl in E.
        inversion E; subst a. clear E.
        apply IH in H; simpl; auto.
        -- intros q Hq. rewrite Hc.
           replace (Nat.eqb q t) with false
             by (symmetry; apply Nat.eqb_neq; exact Hq).
           apply H3. exact Hq.
        -- intros i c'. destruct (Nat.eqb i (Z.to_nat ev)); [discriminate|].
           apply H4.
    + inversion H; subst. auto.
Qed.

(** X11: with a shared tree ([parallel_tree] set) the manager works on the
    caller's tree in place: [mctx->t] is the tree it was given, no tree is
    allocated or freed, and no other tree is written. *)
Theorem spawn_thread_manager_shared h events h' p g :
  parallel_tree us = true ->
  spawn_thread_manager DEBUGL_ tree_copy tree_merge tree_normalize fast_random
                       worker_run us mctx h events = Done (h', p, g) ->
  p = ctx_t mctx
  /\ next h' = next h
  /\ (forall q, q <> ctx_t mctx -> cells h' q = cells h q).
Proof.
  intros Hsh. unfold spawn_thread_manager. rewrite Hsh. intro H.
  obind_step H. obind_step H. simpl in H. inversion H; subst.
  apply (spawn_loop_shared h) in E; simpl; auto; [|discriminate].
  destruct E as [E1 [E2 [E3 E4]]].
  apply (collect_loop_shared h) in E0; auto.
Qed.

End ManagerMore.

(* ---------------------------------------------------------------- *)
(** ** Root parallelisation: what becomes of the private trees *)

Section ManagerRoot.
Import Uct.

Variable DEBUGL_ : Z -> Z -> bool.
Context {playout_policy uct_prior : Type}.
Variable tree_copy : tree -> tree.
Variable tree_merge : tree -> tree -> tree.
Variable tree_normalize : tree -> Z -> tree.
Variable fast_random : Z -> nat -> Z -> Z.
Variable worker_run : @uct playout_policy uct_prior -> spawn_ctx -> tree -> tree * Z.

Variable us : @uct playout_policy uct_prior.
Variable mctx : spawn_ctx.
Variable h : store.
Variable t0 : tree.

Local Abbreviation t := (ctx_t mctx).
Local Abbreviation n := (Z.to_nat (threads us)).
Local Abbreviation spawn := (spawn_loop DEBUGL_ tree_copy fast_random us mctx t false).
Local Abbreviation join := (join_one DEBUGL_ tree_merge worker_run us t false).
Local Abbreviation collect := (collect_loop DEBUGL_ tree_merge worker_run us t false).

Hypothesis master : cells h t = Some t0.
Hypothesis master_allocated : (t < next h)%nat.
Hypothesis unallocated : forall q, (next h <= q)%nat -> cells h q = None.

(** The spawn loop writes only the cells it allocates. *)
Lemma spawn_loop_frame k : forall j st st',
  spawn k j st = Done st' ->
  forall q, (q < next (mg_store st) \/ next (mg_store st) + k <= q)%nat ->
            cells (mg_store st') q = cells (mg_store st) q.
Proof.
  induction k as [|k IH]; intros j st st' H q Hq; simpl in H.
  - inversion H; subst. reflexivity.
  - obind_step H. unfold spawn_one in E. simpl in E.
    destruct (cells (mg_store st) t) as [tr|]; [|discriminate].
    inversion E; subst a. clear E.
    rewrite (IH _ _ _ H q); simpl.
    + replace (Nat.eqb q (next (mg_store st))) with false
        by (symmetry; apply Nat.eqb_neq; lia).
      reflexivity.
    + lia.
Qed.

(** The manager once [joined] has reached [threads]: the workers in
    [done] are joined and their trees freed. *)
Lemma collect_exit_frees done st :
  0 < threads us ->
  next (mg_store st) = (next h + n)%nat ->
  (forall q, (q < next h)%nat -> q <> t -> cells (mg_store st) q = cells h q) ->
  (forall i, In i done ->
             (i < n)%nat /\ mg_ctx st i = None
             /\ cells (mg_store st) (next h + i)%nat = None) ->
  (forall q, (next h + n <= q)%nat -> cells (mg_store st) q = None) ->
  NoDup done -> Z.of_nat (length done) = joined st ->
  mctx_t st = (if existsb (Nat.eqb (pred n)) done then t
               else (next h + pred n)%nat) ->
  threads us <= joined st ->
  mctx_t st = t
  /\ next (mg_store st) = (next h + n)%nat
  /\ (forall q, q <> t -> cells (mg_store st) q = cells h q).
Proof.
  intros Hth H1 H2 H4 H6 Hnd Hlen H8 Hj.
  assert (Hall : incl (seq 0 n) done).
  { apply NoDup_length_incl.
    - assumption.
    - rewrite length_seq. lia.
    - intros k Hk. apply in_seq. destruct (H4 _ Hk). lia. }
  assert (Hlast : existsb (Nat.eqb (pred n)) done = true).
  { apply existsb_exists. exists (pred n).
    split; [apply Hall, in_seq; lia | apply Nat.eqb_refl]. }
  rewrite Hlast in H8.
  split; [assumption|]. split; [assumption|].
  intros q Hq.
  destruct (Nat.ltb_spec q (next h)) as [Hlt|Hge]; [auto|].
  rewrite (unallocated q Hge).
  destruct (Nat.ltb_spec q (next h + n)) as [Hlt|Hge2]; [|auto].
  replace q with (next h + (q - next h))%nat by lia.
  apply H4, Hall, in_seq. lia.
Qed.

(** The manager while it collects: the workers in [done] are joined and
    their trees freed, the others hold the [i]-th allocation each. *)
Lemma collect_loop_frees events : forall done st st',
  0 < threads us ->
  next (mg_store st) = (next h + n)%nat ->
  (forall q, (q < next h)%nat -> q <> t -> cells (mg_store st) q = cells h q) ->
  (forall i, In i done ->
             (i < n)%nat /\ mg_ctx st i = None
             /\ cells (mg_store st) (next h + i)%nat = None) ->
  (forall i c, mg_ctx st i = Some c -> (i < n)%nat /\ ctx_t c = (next h + i)%nat) ->
  (forall q, (next h + n <= q)%nat -> cells (mg_store st) q = None) ->
  NoDup done -> Z.of_nat (length done) = joined st ->
  mctx_t st = (if existsb (Nat.eqb (pred n)) done then t
               else (next h + pred n)%nat) ->
  collect events st = Done st' ->
  mctx_t st' = t
  /\ next (mg_store st') = (next h + n)%nat
  /\ (forall q, q <> t -> cells (mg_store st') q = cells h q).
Proof.
  induction events as [|ev events IH];
    intros done st st' Hth H1 H2 H4 H5 H6 Hnd Hlen H8 H; simpl in H.
  - destruct (joined st <? threads us) eqn:Ej; [discriminate|].
    inversion H; subst st'. apply Z.ltb_ge in Ej.
    now apply (collect_exit_frees done).
  - destruct (joined st <? threads us) eqn:Ej.
    + destruct (ev <? 0) eqn:Eneg.
      * apply (IH done) in H; simpl; auto.
      * obind_step H. unfold join_one in E.
        destruct (mg_ctx st (Z.to_nat ev)) as [c|] eqn:Ec; [|discriminate].
        destruct (H5 _ _ Ec) as [Hi Hc].
        set (i := Z.to_nat ev) in *.
        destruct (cells (mg_store st) (ctx_t c)) as [wt|]; [|discriminate].
        destruct (worker_run us c wt) as [wt' g]. simpl in E.
        rewrite Hc in E.
        replace (Nat.eqb t (next h + i)) with false in E
          by (symmetry; apply Nat.eqb_neq; lia).
        rewrite Nat.eqb_refl in E.
        destruct (cells (mg_store st) t) as [dest|]; [|discriminate].
        inversion E; subst a. clear E.
        assert (Hnew : ~ In i done).
        { intro Hin. destruct (H4 _ Hin) as [_ [Hn _]]. congruence. }
        apply (IH (i :: done)) in H; simpl; auto.
        -- intros q Hq Hqt.
           replace (Nat.eqb q (next h + i)) with false
             by (symmetry; apply Nat.eqb_neq; lia).
           replace (Nat.eqb q t) with false
             by (symmetry; apply Nat.eqb_neq; lia).
           auto.
        -- intros k [Hk|Hk].
           ++ subst k. rewrite !Nat.eqb_refl. auto.
           ++ destruct (H4 _ Hk) as [Hkn [Hkc Hkf]].
              split; [assumption|]. split.
              ** destruct (Nat.eqb k i); [reflexivity|assumption].
              ** destruct (Nat.eqb (next h + k) (next h + i)); [reflexivity|].
                 replace (Nat.eqb (next h + k) t) with false
                   by (symmetry; apply Nat.eqb_neq; lia).
                 assumption.
        -- intros k c'. fold i. destruct (Nat.eqb k i); [discriminate|].
           apply H5.
        -- intros q Hq.
           replace (Nat.eqb q (next h + i)) with false
             by (symmetry; apply Nat.eqb_neq; lia).
           replace (Nat.eqb q t) with false
             by (symmetry; apply Nat.eqb_neq; lia).
           auto.
        -- constructor; assumption.
        -- lia.
        -- rewrite H8.
           destruct (existsb (Nat.eqb (pred n)) done) eqn:Ed.
           ++ rewrite orb_true_r.
              replace (Nat.eqb (next h + i) t) with false
                by (symmetry; apply Nat.eqb_neq; lia).
              reflexivity.
           ++ rewrite orb_false_r. destruct (Nat.eqb (pred n) i) eqn:Ei.
              ** apply Nat.eqb_eq in Ei. rewrite Ei, Nat.eqb_refl. reflexivity.
              ** apply Nat.eqb_neq in Ei.
                 replace (Nat.eqb (next h + i) (next h + pred n)) with false
                   by (symmetry; apply Nat.eqb_neq; lia).
                 reflexivity.
    + inversion H; subst st'. apply Z.ltb_ge in Ej.
      now apply (collect_exit_frees done).
Qed.

(** X12: under root parallelisation a run of the manager that completes
    leaves the store as it found it but for the master tree: [mctx->t] is
    the master tree again, every private tree the manager allocated has
    been freed, and no other tree has been written. *)
Theorem spawn_thread_manager_root_frees events h' p g :
  parallel_tree us = false ->
  0 < threads us ->
  spawn_thread_manager DEBUGL_ tree_copy tree_merge tree_normalize fast_random
                       worker_run us mctx h events = Done (h', p, g) ->
  p = ctx_t mctx
  /\ next h' = (next h + Z.to_nat (threads us))%nat
  /\ (forall q, q <> ctx_t mctx -> cells h' q = cells h q).
Proof.
  intros Hroot Hth. unfold spawn_thread_manager. rewrite Hroot. intro H.
  obind_step H. rename a into st1.
  obind_step H. rename a into st2.
  match type of E with
  | spawn_loop _ _ _ _ _ _ _ _ _ ?s = _ =>
      destruct (spawn_loop_spawned DEBUGL_ tree_copy fast_random us mctx h t0
                  master_allocated n 0%nat s) as [st1' [Hsp Hst1]];
      [constructor; simpl; auto; intros; lia|];
      pose proof (spawn_loop_frame _ _ _ _ E) as Hframe
  end.
  rewrite E in Hsp. inversion Hsp; subst st1'. clear Hsp.
  simpl in Hframe. simpl in Hst1.
  destruct Hst1 as [S1 S2 S3 S4 S5 S6 S7 S8].
  assert (A2 : forall q, (q < next h)%nat -> q <> t ->
                         cells (mg_store st1) q = cells h q).
  { intros q Hq Hqt. apply Hframe. lia. }
  assert (A4 : forall i, In i [] ->
                         (i < n)%nat /\ mg_ctx st1 i = None
                         /\ cells (mg_store st1) (next h + i)%nat = None).
  { intros i []. }
  assert (A5 : forall i c, mg_ctx st1 i = Some c ->
                           (i < n)%nat /\ ctx_t c = (next h + i)%nat).
  { intros i c Hc. destruct (Nat.ltb_spec i n) as [Hlt|Hge].
    - rewrite (S4 i Hlt) in Hc. inversion Hc; subst c. auto.
    - rewrite (S5 i Hge) in Hc. discriminate. }
  assert (A6 : forall q, (next h + n <= q)%nat -> cells (mg_store st1) q = None).
  { intros q Hq. rewrite Hframe by lia. apply unallocated. lia. }
  assert (A7 : Z.of_nat (length (@nil nat)) = joined st1).
  { simpl. lia. }
  assert (A8 : mctx_t st1 = (if existsb (Nat.eqb (pred n)) [] then t
                             else (next h + pred n)%nat)).
  { simpl. rewrite S6. destruct n eqn:En; [lia|reflexivity]. }
  destruct (collect_loop_frees events [] st1 st2 Hth S1 A2 A4 A5 A6
              (NoDup_nil nat) A7 A8 E0) as [C1 [C2 C3]].
  simpl in H. rewrite C1 in H.
  destruct (cells (mg_store st2) t) as [tr|]; [|discriminate].
  inversion H; subst. simpl.
  split; [reflexivity|]. split; [assumption|].
  intros q Hq.
  replace (Nat.eqb q t) with false by (symmetry; apply Nat.eqb_neq; exact Hq).
  auto.
Qed.

End ManagerRoot.

(* ---------------------------------------------------------------- *)
(** ** The Elo policy: the count of moves *)

Section EloMore.

Variable board_is_valid_move : board -> move -> bool.
Variable board_is_one_point_eye : board -> coord_t -> stone -> bool.
Context {pattern_spec pattern_config feature features_gamma : Type}.
Variable pattern_match :
  pattern_config -> pattern_spec -> board -> move -> list feature.
Variable feature_gamma : features_gamma -> feature -> F32.t.

Local Abbreviation patternset :=
  (@Elo.patternset pattern_spec pattern_config features_gamma).
Local Abbreviation elo_policy :=
  (@Elo.elo_policy pattern_spec pattern_config features_gamma).
Local Abbreviation get_probdist :=
  (Elo.elo_get_probdist board_is_valid_move board_is_one_point_eye
                        pattern_match feature_gamma).
Local Abbreviation points :=
  (Elo.elo_points board_is_valid_move board_is_one_point_eye
                  pattern_match feature_gamma).
Local Abbreviation skipped :=
  (Elo.skipped board_is_valid_move board_is_one_point_eye).
Local Abbreviation weight :=
  (Elo.elo_weight board_is_valid_move board_is_one_point_eye
                  pattern_match feature_gamma).

Lemma elo_points_moves (pset : patternset) b to_play rest :
  forall f pd moves,
    snd (points pset b to_play rest f (pd, moves))
    = moves + Z.of_nat (length (filter (fun c => negb (skipped b to_play c)) rest)).
Proof.
  induction rest as [|c rest IH]; intros f pd moves; simpl.
  - lia.
  - unfold Elo.elo_point. destruct (skipped b to_play c); rewrite IH; simpl; lia.
Qed.

Lemma fold_add_zeros (l : list F32.t) :
  (forall x, In x l -> x = F32.zero) -> fold_left F32.add l F32.zero = F32.zero.
Proof.
  induction l as [|x l IH]; intro H; simpl; [reflexivity|].
  rewrite (H x (or_introl eq_refl)).
  change (F32.add F32.zero F32.zero) with F32.zero.
  apply IH. intros y Hy. apply H. now right.
Qed.

(** X16: the count [elo_get_probdist] returns is the number of free points
    that pass the three tests, between 0 and [flen].  When it is 0 every
    weight of the distribution is 0 and so is the total. *)
Theorem elo_get_probdist_moves (pset : patternset) b to_play :
  let '(pd, moves) := get_probdist pset b to_play in
  moves = Z.of_nat (length (filter (fun c => negb (skipped b to_play c)) (b_f b)))
  /\ 0 <= moves <= flen b
  /\ Z.of_nat (length (pd_items pd)) = flen b
  /\ (moves = 0 ->
      (forall f, probdist_one pd f = F32.zero)
      /\ probdist_total pd = F32.zero).
Proof.
  pose proof (elo_get_probdist_items board_is_valid_move board_is_one_point_eye
                pattern_match feature_gamma pset b to_play) as Hitems.
  pose proof (elo_points_moves pset b to_play (b_f b) 0
                (probdist_init (flen b)) 0) as Hmoves.
  fold (get_probdist pset b to_play) in Hmoves.
  destruct (get_probdist pset b to_play) as [pd moves].
  simpl in Hitems, Hmoves. rewrite Hmoves.
  split; [reflexivity|].
  split; [pose proof (filter_length_le (fun c => negb (skipped b to_play c))
                                       (b_f b)); unfold flen; lia|].
  split; [rewrite Hitems, length_map; reflexivity|].
  intro H0.
  assert (Hall : forall c, In c (b_f b) -> skipped b to_play c = true).
  { intros c Hc. destruct (skipped b to_play c) eqn:Es; [reflexivity|].
    assert (Hin : In c (filter (fun c => negb (skipped b to_play c)) (b_f b)))
      by (apply filter_In; rewrite Es; auto).
    destruct (filter _ (b_f b)); [contradiction|simpl in H0; lia]. }
  assert (Hz : forall x, In x (pd_items pd) -> x = F32.zero).
  { intros x Hx. rewrite Hitems in Hx. apply in_map_iff in Hx.
    destruct Hx as [c [Hc Hin]]. subst x. unfold Elo.elo_weight.
    now rewrite (Hall c Hin). }
  split.
  - intro f. unfold probdist_one. destruct (f <? 0); [reflexivity|].
    destruct (nth_in_or_default (Z.to_nat f) (pd_items pd) F32.zero) as [Hin|Hd].
    + now apply Hz.
    + exact Hd.
  - unfold probdist_total. now apply fold_add_zeros.
Qed.

Context {prior_store : Type}.
Variable add_prior_value : prior_store -> coord_t -> F32.t -> Z -> prior_store.

(** X17: [playout_elo_assess] does not look at the count of moves.  When
    [elo_get_probdist] found no move at all, every value [assess] hands to
    [add_prior_value] is 0/0, a NaN; it does so once for each considered
    free point. *)
Theorem playout_elo_assess_no_moves (pp : elo_policy) map games :
  snd (get_probdist (Elo.assess pp) (Elo.pm_b map) (Elo.pm_to_play map)) = 0 ->
  let pd := fst (get_probdist (Elo.assess pp) (Elo.pm_b map) (Elo.pm_to_play map)) in
  let calls := Elo.prior_calls pd (Elo.pm_consider map) (b_f (Elo.pm_b map)) 0 in
  Elo.pm_prior (Elo.playout_elo_assess board_is_valid_move board_is_one_point_eye
                  pattern_match feature_gamma add_prior_value pp map games)
  = fold_left (fun st cv => add_prior_value st (fst cv) (snd cv) games)
              calls (Elo.pm_prior map)
  /\ List.map fst calls = filter (Elo.pm_consider map) (b_f (Elo.pm_b map))
  /\ (forall c v, In (c, v) calls -> is_nan v = true).
Proof.
  intro H0. cbv zeta.
  pose proof (elo_get_probdist_moves (Elo.assess pp) (Elo.pm_b map)
                                     (Elo.pm_to_play map)) as Hm.
  destruct (get_probdist (Elo.assess pp) (Elo.pm_b map) (Elo.pm_to_play map))
    as [pd moves] eqn:Eg.
  simpl in H0. simpl fst.
  destruct Hm as [_ [_ [_ Hz]]]. destruct (Hz H0) as [Hone Htot].
  split; [|split].
  - unfold Elo.playout_elo_assess. rewrite Eg. simpl.
    apply assess_points_calls.
  - generalize 0 at 1. induction (b_f (Elo.pm_b map)) as [|c rest IH];
      intro f; simpl; [reflexivity|].
    destruct (Elo.pm_consider map c); simpl; now rewrite IH.
  - intros c v Hin.
    apply (prior_calls_In pd (Elo.pm_consider map) _ 0%nat) in Hin.
    destruct Hin as [j [_ [_ Hv]]]. subst v.
    rewrite Hone, Htot. reflexivity.
Qed.

End EloMore.

(* ---------------------------------------------------------------- *)
(** ** The chat hook *)

Section ChatFacts.
Import Uct CStr UctChat.
Import String.StringSyntax.
Local Open Scope string_scope.

Context {playout_policy uct_prior : Type}.
Variable tree_node_get_value : tree -> Z -> F32.t -> F32.t.

Lemma skip_blank_split (s : cstring) :
  exists pre, s = pre ++ skip is_blank s /\ forallb is_blank pre = true.
Proof.
  induction s as [|c r IH]; simpl.
  - exists []. auto.
  - destruct (is_blank c) eqn:Ec.
    + destruct IH as [pre [E Hp]]. exists (c :: pre). simpl.
      rewrite Ec, Hp. split; [now f_equal|reflexivity].
    + exists []. auto.
Qed.

Lemma skip_blank_app (pre s : cstring) :
  forallb is_blank pre = true ->
  skip is_blank (pre ++ s) = skip is_blank s.
Proof.
  induction pre as [|c pre IH]; simpl; [reflexivity|].
  intro H. apply andb_true_iff in H. destruct H as [Hc Hp].
  rewrite Hc. now apply IH.
Qed.

Lemma strncaseeq_app (s : cstring) : forall w rest,
  strcaseeq w s = true -> strncaseeq (length s) (w ++ rest) s = true.
Proof.
  induction s as [|y s IH]; intros w rest H; simpl; [reflexivity|].
  destruct w as [|x w]; simpl in H; [discriminate|].
  apply andb_true_iff in H. destruct H as [Hx Hw].
  simpl. rewrite Hx. now apply IH.
Qed.

Lemma strncaseeq_split (s : cstring) : forall a,
  s <> [] ->
  strncaseeq (length s) a s = true ->
  exists w rest, a = w ++ rest /\ strcaseeq w s = true.
Proof.
  induction s as [|y s IH]; intros a Hs H; [contradiction|].
  simpl in H. destruct a as [|x a]; [discriminate|].
  apply andb_true_iff in H. destruct H as [Hx Ha].
  destruct s as [|z s].
  - exists [x], a. simpl. rewrite Hx. auto.
  - destruct (IH a) as [w [rest [E Hw]]]; [discriminate|exact Ha|].
    exists (x :: w), rest. split; [simpl; now f_equal|].
    simpl. rewrite Hx. exact Hw.
Qed.

Lemma winrate_not_blank (w : cstring) :
  strcaseeq w (str "winrate") = true -> skip is_blank w = w.
Proof.
  destruct w as [|x w]; [discriminate|]. simpl.
  intro H. apply andb_true_iff in H. destruct H as [Hx _].
  destruct (is_blank x) eqn:Eb; [|reflexivity].
  unfold is_blank in Eb.
  apply orb_true_iff in Eb. destruct Eb as [Eb|Eb];
    [apply orb_true_iff in Eb; destruct Eb as [Eb|Eb]|];
    apply Ascii.eqb_eq in Eb; subst x; discriminate Hx.
Qed.

(** X18: [uct_chat] answers exactly the commands that, after leading
    blanks, tabs and newlines, start with the seven letters of "winrate" in
    any case, whatever follows them; without a tree the answer is the fixed
    string, and every other command gets no reply. *)
Theorem uct_chat_answers (us : @uct playout_policy uct_prior) b cmd :
  (forall pre w rest,
      cmd = pre ++ w ++ rest ->
      forallb is_blank pre = true ->
      strcaseeq w (str "winrate") = true ->
      uct_chat tree_node_get_value us b cmd <> Done NoReply
      /\ (u_t us = None ->
          uct_chat tree_node_get_value us b cmd = Done NoGameContext))
  /\ (uct_chat tree_node_get_value us b cmd <> Done NoReply ->
      exists pre w rest,
        cmd = pre ++ w ++ rest /\ forallb is_blank pre = true
        /\ strcaseeq w (str "winrate") = true).
Proof.
  split.
  - intros pre w rest E Hpre Hw. subst cmd. unfold uct_chat.
    rewrite skip_blank_app by exact Hpre.
    assert (Hs : skip is_blank (w ++ rest) = w ++ rest).
    { destruct w as [|x w]; [discriminate|].
      pose proof (winrate_not_blank _ Hw) as Hx. simpl in Hx |- *.
      destruct (is_blank x); [|reflexivity].
      exfalso. clear -Hx.
      assert (Hl : length (skip is_blank w) = S (length w)) by now rewrite Hx.
      assert (Hle : forall s, (length (skip is_blank s) <= length s)%nat).
      { induction s as [|c r IHr]; simpl; [lia|].
        destruct (is_blank c); simpl; lia. }
      specialize (Hle w). lia. }
    rewrite Hs.
    change 7%nat with (length (str "winrate")).
    rewrite (strncaseeq_app _ _ _ Hw).
    destruct (u_t us) as [t|].
    + split; [|discriminate].
      destruct (float_to_int (extra_komi t)); [|discriminate].
      unfold int_abs. destruct (_ =? _); simpl; discriminate.
    + split; [discriminate|reflexivity].
  - unfold uct_chat. intro H.
    destruct (strncaseeq 7 (skip is_blank cmd) (str "winrate")) eqn:E;
      [|now elim H].
    destruct (skip_blank_split cmd) as [pre [Ec Hpre]].
    change 7%nat with (length (str "winrate")) in E.
    apply strncaseeq_split in E; [|discriminate].
    destruct E as [w [rest [Ew Hw]]].
    exists pre, w, rest. rewrite <- Ew. auto.
Qed.

Lemma float_to_int_below_one (x : spec_float) :
  valid_binary 24 128 x = true ->
  fltb (SFabs x) F32.one = true ->
  float_to_int x = Some 0.
Proof.
  destruct x as [s|s| |s m e]; try discriminate; [reflexivity|].
  intros Hv Hlt. simpl in Hv. unfold bounded, canonical_mantissa in Hv.
  apply andb_true_iff in Hv. destruct Hv as [Hc _].
  apply Z.eqb_eq in Hc. unfold fexp, emin in Hc.
  pose proof (digits2_pos_bounds m) as [_ Hm].
  unfold fltb, SFltb, SFabs, SFcompare, F32.one in Hlt.
  assert (He : e < 0 /\ Zpos m < 2 ^ (- e)).
  { destruct (Z.compare_spec e (-23)) as [E|E|E]; try discriminate.
    - subst e. split; [lia|].
      destruct (Pos.compare_cont Eq m 8388608) eqn:Ecmp; try discriminate.
      change (Pos.compare m 8388608 = Lt) in Ecmp.
      change (2 ^ (- -23)) with (Zpos 8388608).
      apply Pos2Z.pos_lt_pos, Pos.compare_lt_iff. exact Ecmp.
    - split; [lia|].
      assert (Hd : Zpos (digits2_pos m) <= 24) by lia.
      apply Z.lt_le_trans with (2 ^ Zpos (digits2_pos m)); [exact Hm|].
      apply Z.pow_le_mono_r; lia. }
  destruct He as [He Hsmall].
  unfold float_to_int.
  replace (0 <=? e) with false by (symmetry; apply Z.leb_gt; exact He).
  rewrite Z.shiftr_div_pow2 by lia.
  rewrite Z.div_small by lia.
  destruct s; reflexivity.
Qed.

(** X19: the clause on the extra komi is decided on the integer part of
    the komi: [abs] takes an [int], so for every extra komi of magnitude
    below 1, also one of 0.5 or more, the reply has no such clause. *)
Theorem uct_chat_extra_komi_below_one (us : @uct playout_policy uct_prior)
        b cmd t r :
  u_t us = Some t ->
  valid_binary 24 128 (extra_komi t) = true ->
  fltb (SFabs (extra_komi t)) F32.one = true ->
  uct_chat tree_node_get_value us b cmd = Done r ->
  r = NoReply
  \/ r = Winrate (playouts (u (root t))) (threads us) (root_color t)
                 (coord (root t))
                 (F32.mul (tree_node_get_value t (-1) (value (u (root t))))
                          (F32.of_Z 100))
                 None.
Proof.
  intros Ht Hv Hlt. unfold uct_chat.
  destruct (strncaseeq 7 _ _).
  - rewrite Ht, (float_to_int_below_one _ Hv Hlt). simpl.
    intro H. inversion H; subst. right. reflexivity.
  - intro H. inversion H. left. reflexivity.
Qed.

End ChatFacts.

(* ---------------------------------------------------------------- *)
(** ** Option strings *)

Section OptArgFacts.
Import CStr OptArg.

Lemma break_at_none (sep : Ascii.ascii) (s : cstring) :
  ~ In sep s -> break_at sep s = (s, None).
Proof.
  induction s as [|c r IH]; intro H; simpl; [reflexivity|].
  destruct (Ascii.eqb c sep) eqn:E.
  - apply Ascii.eqb_eq in E. subst c. elim H. now left.
  - rewrite IH; [reflexivity|]. intro Hin. apply H. now right.
Qed.

Lemma break_at_some (sep : Ascii.ascii) (a b : cstring) :
  ~ In sep a -> break_at sep (a ++ sep :: b) = (a, Some b).
Proof.
  induction a as [|c r IH]; intro H; simpl.
  - now rewrite Ascii.eqb_refl.
  - destruct (Ascii.eqb c sep) eqn:E.
    + apply Ascii.eqb_eq in E. subst c. elim H. now left.
    + rewrite IH; [reflexivity|]. intro Hin. apply H. now right.
Qed.

(** What [break_at] returns is the string cut at its first separator. *)
Lemma break_at_spec (sep : Ascii.ascii) (s : cstring) :
  let '(tok, rest) := break_at sep s in
  ~ In sep tok
  /\ s = tok ++ match rest with Some r => sep :: r | None => [] end.
Proof.
  induction s as [|c r IH]; simpl; [auto|].
  destruct (Ascii.eqb c sep) eqn:E.
  - apply Ascii.eqb_eq in E. subst c. simpl. auto.
  - destruct (break_at sep r) as [tok rest]. destruct IH as [H1 H2].
    split.
    + intros [Hc|Hin]; [|now apply H1].
      subst c. now rewrite Ascii.eqb_refl in E.
    + simpl. now f_equal.
Qed.

Lemma break_at_shorter (sep : Ascii.ascii) (c : Ascii.ascii) (s : cstring) :
  (length (match snd (break_at sep (c :: s)) with Some r => r | None => [] end)
   < length (c :: s))%nat.
Proof.
  pose proof (break_at_spec sep (c :: s)) as H.
  destruct (break_at sep (c :: s)) as [tok rest]. destruct H as [_ H].
  apply (f_equal (@length _)) in H. rewrite length_app in H.
  destruct rest as [r|]; simpl in *; lia.
Qed.

Context {A E : Type}.
Variable sep : Ascii.ascii.
Variable body : cstring -> option cstring -> cstring -> A -> step A E.

(** With the length of the string as fuel the loop never gives up. *)
Lemma option_loop_fuel (f1 : nat) : forall f2 next st,
  (length next <= f1)%nat -> (length next <= f2)%nat ->
  option_loop sep body f1 next st = option_loop sep body f2 next st.
Proof.
  induction f1 as [|k IH]; intros f2 next st H1 H2.
  - destruct next; [|simpl in H1; lia]. now destruct f2.
  - destruct next as [|c r]; [now destruct f2|].
    destruct f2 as [|k2]; [simpl in H2; lia|].
    cbn [option_loop].
    pose proof (break_at_shorter sep c r) as Hs.
    destruct (break_at sep (c :: r)) as [optspec rest].
    cbn [snd] in Hs.
    destruct (break_at ch_equals optspec) as [optname optval].
    match goal with
    | |- context [body optname optval ?nx st] =>
        destruct (body optname optval nx st)
    end; try reflexivity.
    apply IH; destruct rest; simpl in *; lia.
Qed.

Lemma option_loop_total (fuel : nat) : forall next st,
  (forall n v nx s, body n v nx s <> Stop InitPending) ->
  (length next <= fuel)%nat ->
  option_loop sep body fuel next st <> InitPending.
Proof.
  induction fuel as [|k IH]; intros next st Hb Hf.
  - destruct next; [discriminate|simpl in Hf; lia].
  - destruct next as [|c r]; [discriminate|].
    cbn [option_loop].
    pose proof (break_at_shorter sep c r) as Hs.
    destruct (break_at sep (c :: r)) as [optspec rest].
    cbn [snd] in Hs.
    destruct (break_at ch_equals optspec) as [optname optval].
    match goal with
    | |- context [body optname optval ?nx st] =>
        destruct (body optname optval nx st) as [x|x|res] eqn:Eb
    end.
    + apply IH; [exact Hb|destruct rest; simpl in *; lia].
    + discriminate.
    + intro H. subst res. exact (Hb _ _ _ _ Eb).
Qed.

(** An exit of the loop is an exit of its body. *)
Lemma option_loop_exit (fuel : nat) : forall next st e,
  option_loop sep body fuel next st = Exit1 e ->
  exists n v nx s, body n v nx s = Stop (Exit1 e).
Proof.
  induction fuel as [|k IH]; intros next st e H.
  - destruct next; discriminate.
  - destruct next as [|c r]; [discriminate|].
    cbn [option_loop] in H.
    destruct (break_at sep (c :: r)) as [optspec rest].
    destruct (break_at ch_equals optspec) as [optname optval].
    match type of H with
    | context [body optname optval ?nx st] =>
        destruct (body optname optval nx st) as [x|x|res] eqn:Eb
    end.
    + eapply IH. exact H.
    + discriminate.
    + subst res. eauto.
Qed.

(** The first option of a string: the name up to the first '=', the value
    after it, and the rest of the string for the turns to come. *)
Lemma options_first (optname : cstring) (optval tail : option cstring) st :
  let first := optname ++ match optval with
                          | Some v => ch_equals :: v
                          | None => []
                          end in
  let arg := first ++ match tail with Some t => sep :: t | None => [] end in
  arg <> [] -> ~ In sep first -> ~ In ch_equals optname ->
  options sep body arg st
  = let next := match tail with Some t => t | None => [] end in
    match body optname optval next st with
    | Next st' => options sep body next st'
    | Last st' => Init st'
    | Stop r => r
    end.
Proof.
  intros first arg Harg Hsep Heq. unfold options.
  destruct arg as [|c r] eqn:Ea; [contradiction|].
  simpl length. cbn [option_loop]. rewrite <- Ea.
  assert (Eb : break_at sep arg = (first, tail)).
  { unfold arg. destruct tail as [t|].
    - now apply break_at_some.
    - rewrite app_nil_r. now apply break_at_none. }
  rewrite Eb.
  assert (Eo : break_at ch_equals first = (optname, optval)).
  { unfold first. destruct optval as [v|].
    - now apply break_at_some.
    - rewrite app_nil_r. now apply break_at_none. }
  rewrite Eo. cbv zeta.
  match goal with
  | |- context [body optname optval ?nx st] =>
      destruct (body optname optval nx st)
  end; try reflexivity.
  apply option_loop_fuel; [|lia].
  assert (Hl : length arg = length (c :: r)) by now rewrite Ea.
  unfold arg in Hl. rewrite length_app in Hl. simpl in Hl.
  destruct tail as [t|]; simpl in *; lia.
Qed.

(** A string that is one option. *)
Lemma options_single (optname : cstring) (optval : option cstring) st :
  let opt := optname ++ match optval with
                        | Some v => ch_equals :: v
                        | None => []
                        end in
  opt <> [] -> ~ In sep opt -> ~ In ch_equals optname ->
  options sep body opt st
  = match body optname optval [] st with
    | Next st' => Init st'
    | Last st' => Init st'
    | Stop r => r
    end.
Proof.
  intros opt Ho Hsep Heq.
  pose proof (options_first optname optval None st) as H. cbv zeta in H.
  fold opt in H. rewrite app_nil_r in H.
  rewrite (H Ho Hsep Heq). reflexivity.
Qed.

End OptArgFacts.

(* ---------------------------------------------------------------- *)
(** ** [playout_elo_init] *)

Section EloInitFacts.
Import CStr OptArg EloInit.
Import String.StringSyntax.
Local Open Scope string_scope.

Context {pattern_config features_gamma spatial_dict : Type}.
Variable features_gamma_filename : cstring.
Variable DEFAULT_PATTERN_CONFIG FAST_PATTERN_CONFIG : pattern_config.
Variable set_spat_dict : pattern_config -> spatial_dict -> pattern_config.
Variable spatial_dict_init : bool -> spatial_dict.
Variable features_gamma_init : pattern_config -> cstring -> features_gamma.
Variable FEAT_MAX : nat.
Variable FEAT_SPATIAL : nat.
Variable PATTERN_SPEC_MATCHALL PATTERN_SPEC_MATCHFAST : list Z.
Variable atof : cstring -> F64.t.

Local Abbreviation elo_init :=
  (playout_elo_init features_gamma_filename DEFAULT_PATTERN_CONFIG
                    FAST_PATTERN_CONFIG set_spat_dict spatial_dict_init
                    features_gamma_init FEAT_MAX FEAT_SPATIAL
                    PATTERN_SPEC_MATCHALL PATTERN_SPEC_MATCHFAST atof).
Local Abbreviation mask := (mask_spec FEAT_MAX FEAT_SPATIAL).

(** X20: every option of [playout_elo_init] needs a value and one of the
    three names.  When the first option of the string has no '=' or another
    name, the function exits with the message naming it, whatever follows
    the option. *)
Theorem playout_elo_init_invalid_option (optname : cstring)
        (optval tail : option cstring) :
  let first := optname ++ match optval with
                          | Some v => ch_equals :: v
                          | None => []
                          end in
  let arg := first ++ match tail with Some t => ch_colon :: t | None => [] end in
  arg <> [] -> ~ In ch_colon first -> ~ In ch_equals optname ->
  optval = None
  \/ (strcaseeq optname (str "selfatari") = false
      /\ strcaseeq optname (str "gammafile") = false
      /\ strcaseeq optname (str "xspat") = false) ->
  playout_elo_init features_gamma_filename DEFAULT_PATTERN_CONFIG
                   FAST_PATTERN_CONFIG set_spat_dict spatial_dict_init
                   features_gamma_init FEAT_MAX FEAT_SPATIAL
                   PATTERN_SPEC_MATCHALL PATTERN_SPEC_MATCHFAST atof (Some arg)
  = Exit1 (InvalidPolicyArgument optname).
Proof.
  intros first arg Harg Hsep Heq Hbad. unfold playout_elo_init.
  pose proof (options_first ch_colon (elo_option atof) optname optval tail) as H.
  cbv zeta in H. fold first in H. fold arg in H.
  rewrite (H _ Harg Hsep Heq).
  assert (Eb : forall nx a, elo_option atof optname optval nx a
                            = Stop (Exit1 (InvalidPolicyArgument optname))).
  { intros nx a. unfold elo_option.
    destruct Hbad as [Hn|[H1 [H2 H3]]].
    - subst optval. simpl. rewrite !andb_false_r. reflexivity.
    - rewrite H1, H2, H3. reflexivity. }
  rewrite Eb. reflexivity.
Qed.

Lemma list_set_length {X} (l : list X) : forall i v,
  length (list_set l i v) = length l.
Proof.
  induction l as [|x l IH]; intros i v; [reflexivity|].
  destruct i; simpl; [reflexivity|now rewrite IH].
Qed.

Lemma list_set_nth {X} (l : list X) : forall i j v d,
  nth j (list_set l i v) d
  = if Nat.eqb j i && Nat.ltb i (length l) then v else nth j l d.
Proof.
  induction l as [|x l IH]; intros i j v d.
  - simpl. rewrite andb_false_r. reflexivity.
  - destruct i, j; simpl; try reflexivity.
    rewrite IH. reflexivity.
Qed.

Lemma mask_from_length n : forall i x ps,
  length (mask_from FEAT_SPATIAL n i x ps) = length ps.
Proof.
  induction n as [|n IH]; intros i x ps; simpl; [reflexivity|].
  rewrite IH. destruct (_ || _); [apply list_set_length|reflexivity].
Qed.

Lemma mask_from_nth n : forall i x ps j,
  (j < length ps)%nat ->
  nth j (mask_from FEAT_SPATIAL n i x ps) 0
  = if Nat.leb i j && Nat.ltb j (i + n)
       && (((x =? 0) && Nat.eqb j FEAT_SPATIAL)
           || ((x =? 1) && negb (Nat.eqb j FEAT_SPATIAL)))
    then 0 else nth j ps 0.
Proof.
  induction n as [|n IH]; intros i x ps j Hj; simpl.
  - replace (Nat.leb i j && Nat.ltb j (i + 0)) with false; [reflexivity|].
    symmetry. apply andb_false_iff.
    destruct (Nat.leb_spec i j); [right; apply Nat.ltb_ge; lia|now left].
  - rewrite IH.
    2: { destruct (_ || _); [rewrite list_set_length|]; exact Hj. }
    destruct (Nat.eqb_spec j i) as [Eji|Nji].
    + subst j.
      replace (Nat.leb (S i) i) with false by (symmetry; apply Nat.leb_gt; lia).
      replace (Nat.leb i i) with true by (symmetry; apply Nat.leb_le; lia).
      replace (Nat.ltb i (i + S n)) with true by (symmetry; apply Nat.ltb_lt; lia).
      simpl.
      destruct (_ || _); [|reflexivity].
      rewrite list_set_nth, Nat.eqb_refl.
      replace (Nat.ltb i (length ps)) with true
        by (symmetry; apply Nat.ltb_lt; exact Hj).
      reflexivity.
    + assert (Enth : nth j (if ((x =? 0) && Nat.eqb i FEAT_SPATIAL)
                               || ((x =? 1) && negb (Nat.eqb i FEAT_SPATIAL))
                            then list_set ps i 0 else ps) 0 = nth j ps 0).
      { destruct (_ || _); [|reflexivity].
        rewrite list_set_nth.
        replace (Nat.eqb j i) with false by (symmetry; apply Nat.eqb_neq; exact Nji).
        reflexivity. }
      rewrite Enth.
      replace (Nat.leb (S i) j) with (Nat.leb i j).
      2: { destruct (Nat.leb_spec i j), (Nat.leb_spec (S i) j); try reflexivity; lia. }
      replace (Nat.ltb j (S i + n)) with (Nat.ltb j (i + S n))
        by (f_equal; lia).
      reflexivity.
Qed.

Lemma mask_from_other n : forall i x ps,
  x <> 0 -> x <> 1 -> mask_from FEAT_SPATIAL n i x ps = ps.
Proof.
  induction n as [|n IH]; intros i x ps H0 H1; simpl; [reflexivity|].
  replace (x =? 0) with false by (symmetry; apply Z.eqb_neq; exact H0).
  replace (x =? 1) with false by (symmetry; apply Z.eqb_neq; exact H1).
  simpl. now apply IH.
Qed.

(** X21: the option [xspat] masks the two pattern specifications entry by
    entry: with 0 the spatial feature is switched off, with 1 every other
    feature, and any other value, like the default -1, leaves them as they
    are: [xspat=N] with such an N is the same as no option at all. *)
Theorem playout_elo_init_xspat (v : cstring) (x : Z) :
  length PATTERN_SPEC_MATCHALL = FEAT_MAX ->
  length PATTERN_SPEC_MATCHFAST = FEAT_MAX ->
  (Z.of_nat (length features_gamma_filename) <= 254) ->
  ~ In ch_colon v ->
  atoi v = Some x ->
  exists r,
    playout_elo_init features_gamma_filename DEFAULT_PATTERN_CONFIG
                     FAST_PATTERN_CONFIG set_spat_dict spatial_dict_init
                     features_gamma_init FEAT_MAX FEAT_SPATIAL
                     PATTERN_SPEC_MATCHALL PATTERN_SPEC_MATCHFAST atof
                     (Some (str "xspat=" ++ v)) = Init r
    /\ (forall j, (j < FEAT_MAX)%nat ->
          let off := ((x =? 0) && Nat.eqb j FEAT_SPATIAL)
                     || ((x =? 1) && negb (Nat.eqb j FEAT_SPATIAL)) in
          nth j (Elo.ps (Elo.assess (ep_policy r))) 0
          = (if off then 0 else nth j PATTERN_SPEC_MATCHALL 0)
          /\ nth j (Elo.ps (Elo.choose (ep_policy r))) 0
             = (if off then 0 else nth j PATTERN_SPEC_MATCHFAST 0))
    /\ (x <> 0 -> x <> 1 -> elo_init None = Init r).
Proof.
  intros Hall Hfast Hlen Hv Hx. unfold playout_elo_init.
  pose proof (options_single ch_colon (elo_option atof) (str "xspat") (Some v)) as H.
  cbv zeta in H.
  change (str "xspat" ++ ch_equals :: v) with (str "xspat=" ++ v) in H.
  rewrite H; clear H.
  2: { discriminate. }
  2: { intro Hin. simpl in Hin.
       repeat (destruct Hin as [Hin|Hin]; [discriminate Hin|]).
       exact (Hv Hin). }
  2: { intro Hin. simpl in Hin.
       repeat (destruct Hin as [Hin|Hin]; [discriminate Hin|]). exact Hin. }
  unfold elo_option.
  change (strcaseeq (str "xspat") (str "selfatari")) with false.
  change (strcaseeq (str "xspat") (str "gammafile")) with false.
  change (strcaseeq (str "xspat") (str "xspat")) with true.
  cbn [andb has_value the_value]. rewrite Hx. cbn [a_gammafile a_xspat a_selfatari].
  unfold cgammafile_of.
  replace (Z.of_nat (length features_gamma_filename) + 2 <=? 256) with true
    by (symmetry; apply Z.leb_le; lia).
  eexists. split; [reflexivity|]. cbn [ep_policy Elo.assess Elo.choose Elo.ps].
  split.
  - intros j Hj. cbv zeta. unfold mask_spec.
    rewrite !mask_from_nth by lia.
    replace (Nat.leb 0 j) with true by (symmetry; apply Nat.leb_le; lia).
    replace (Nat.ltb j (0 + FEAT_MAX)) with true
      by (symmetry; apply Nat.ltb_lt; lia).
    split; reflexivity.
  - intros H0 H1. unfold mask_spec.
    rewrite !mask_from_other by (assumption || discriminate).
    reflexivity.
Qed.

Lemma playout_elo_init_total arg : elo_init arg <> InitPending.
Proof.
  unfold playout_elo_init.
  assert (Hl : match arg with
               | Some s => options ch_colon (elo_option atof) s
                             {| a_selfatari := F32.round (F64.lit 6 100);
                                a_gammafile := features_gamma_filename;
                                a_xspat := -1 |}
               | None => Init {| a_selfatari := F32.round (F64.lit 6 100);
                                 a_gammafile := features_gamma_filename;
                                 a_xspat := -1 |}
               end <> InitPending).
  { destruct arg as [s|]; [|discriminate].
    apply option_loop_total; [|lia].
    intros n v nx a. unfold elo_option.
    destruct (_ && _); [discriminate|].
    destruct (_ && _); [discriminate|].
    destruct (_ && _); [|discriminate].
    destruct (atoi _); discriminate. }
  destruct (match arg with Some s => _ | None => _ end) as [a|e| |];
    try discriminate; [|contradiction].
  destruct (cgammafile_of (a_gammafile a)); discriminate.
Qed.

(** X22: [playout_elo_init] ends for every argument.  When it returns, the
    gamma table of the assess set was read from the gamma file, that of the
    choose set from the file of that name with an 'f' appended, and the
    name has at most 254 characters; for a longer name the buffer of 256
    bytes overflows before anything is returned. *)
Theorem playout_elo_init_gammafiles :
  (forall arg, elo_init arg <> InitPending)
  /\ (forall arg r,
        elo_init arg = Init r ->
        ep_cgammafile r = ep_gammafile r ++ str "f"
        /\ Z.of_nat (length (ep_gammafile r)) <= 254
        /\ Elo.fg (Elo.assess (ep_policy r))
           = features_gamma_init (Elo.pc (Elo.assess (ep_policy r)))
                                 (ep_gammafile r)
        /\ Elo.fg (Elo.choose (ep_policy r))
           = features_gamma_init (Elo.pc (Elo.choose (ep_policy r)))
                                 (ep_cgammafile r))
  /\ (forall v,
        ~ In ch_colon v -> 254 < Z.of_nat (length v) ->
        elo_init (Some (str "gammafile=" ++ v)) = InitUndefined).
Proof.
  split; [|split].
  - exact playout_elo_init_total.
  - intros arg r. unfold playout_elo_init.
    destruct (match arg with Some s => _ | None => _ end) as [a|e| |];
      try discriminate.
    unfold cgammafile_of.
    destruct (Z.of_nat (length (a_gammafile a)) + 2 <=? 256) eqn:El;
      [|discriminate].
    intro H. inversion H; subst r. clear H. simpl.
    apply Z.leb_le in El.
    split; [reflexivity|]. split; [lia|]. split; reflexivity.
  - intros v Hv Hlen. unfold playout_elo_init.
    pose proof (options_single ch_colon (elo_option atof) (str "gammafile")
                               (Some v)) as H.
    cbv zeta in H.
    change (str "gammafile" ++ ch_equals :: v) with (str "gammafile=" ++ v) in H.
    rewrite H; clear H.
    2: { discriminate. }
    2: { intro Hin. simpl in Hin.
         repeat (destruct Hin as [Hin|Hin]; [discriminate Hin|]).
         exact (Hv Hin). }
    2: { intro Hin. simpl in Hin.
         repeat (destruct Hin as [Hin|Hin]; [discriminate Hin|]). exact Hin. }
    unfold elo_option.
    change (strcaseeq (str "gammafile") (str "selfatari")) with false.
    change (strcaseeq (str "gammafile") (str "gammafile")) with true.
    cbn [andb has_value the_value a_gammafile]. unfold cgammafile_of.
    replace (Z.of_nat (length v) + 2 <=? 256) with false
      by (symmetry; apply Z.leb_gt; lia).
    reflexivity.
Qed.

End EloInitFacts.

(* ---------------------------------------------------------------- *)
(** ** [uct_state_init] *)

Section UctInitFacts.
Import Uct CStr OptArg UctInit.
Import String.StringSyntax.
Local Open Scope string_scope.

Context {playout_policy uct_prior : Type}.
Variable policy_ucb1_init :
  @uct playout_policy uct_prior -> option cstring -> uct_policy.
Variable policy_ucb1amaf_init :
  @uct playout_policy uct_prior -> option cstring -> uct_policy.
Variable playout_moggy_init : option cstring -> playout_policy.
Variable playout_light_init : option cstring -> playout_policy.
Variable playout_elo_init :
  option cstring -> init_result playout_policy EloInit.elo_exit.
Variable uct_prior_init : option cstring -> board -> uct_prior.
Variable playout_set_debug_level : playout_policy -> Z -> playout_policy.
Variable malloc_ownermap : Z -> list (list Z).
Variable atof : cstring -> F64.t.
Variable MC_GAMELEN : Z.
Variable long_bits : Z.

Local Abbreviation option_body :=
  (uct_option policy_ucb1_init policy_ucb1amaf_init playout_moggy_init
              playout_light_init playout_elo_init uct_prior_init atof
              long_bits).
Local Abbreviation state_init :=
  (uct_state_init policy_ucb1_init policy_ucb1amaf_init playout_moggy_init
                  playout_light_init playout_elo_init uct_prior_init
                  playout_set_debug_level malloc_ownermap atof MC_GAMELEN
                  long_bits).
Local Abbreviation engine_init :=
  (engine_uct_init policy_ucb1_init policy_ucb1amaf_init playout_moggy_init
                   playout_light_init playout_elo_init uct_prior_init
                   playout_set_debug_level malloc_ownermap atof MC_GAMELEN
                   long_bits).
Local Abbreviation Opts := (@uct_opts playout_policy uct_prior).

(** What no option touches, and what the options keep in step. *)
Local Abbreviation settled id st :=
  (fast_alloc (o_u st) = false
   /\ parallel_tree (o_u st) = negb (is_TM_ROOT (thread_model (o_u st)))
   /\ u_t (o_u st) = None
   /\ pondering (o_u st) = false
   /\ u_id (o_u st) = id).

Ltac option_cases :=
  unfold uct_option; cbv beta zeta;
  repeat match goal with
         | |- context [with_int] => unfold with_int
         | |- context [flag_of] => unfold flag_of
         | |- context [if ?c then _ else _] => destruct c
         | |- context [atoi ?x] => destruct (atoi x)
         | |- context [atol ?x] => destruct (atol long_bits x)
         | |- context [break_at ch_colon ?x] => destruct (break_at ch_colon x)
         | |- context [playout_elo_init ?x] =>
             destruct (playout_elo_init x) eqn:?
         | |- context [match ?o with Some _ => _ | None => _ end] => destruct o
         end.

Lemma uct_option_settled id b n v nx (st : Opts) :
  settled id st ->
  match option_body b n v nx st with
  | Next s | Last s | Stop (Init s) => settled id s
  | Stop _ => True
  end.
Proof.
  intros [H1 [H2 [H3 [H4 H5]]]].
  option_cases; simpl; auto.
Qed.

Lemma option_loop_settled id b fuel : forall next (st st' : Opts),
  settled id st ->
  option_loop ch_comma (option_body b) fuel next st = Init st' ->
  settled id st'.
Proof.
  induction fuel as [|k IH]; intros next st st' Hst H.
  - destruct next; [|discriminate]. inversion H; subst. exact Hst.
  - destruct next as [|c r]; [inversion H; subst; exact Hst|].
    cbn [option_loop] in H.
    destruct (break_at ch_comma (c :: r)) as [optspec rest].
    destruct (break_at ch_equals optspec) as [optname optval].
    match type of H with
    | context [option_body b optname optval ?nx st] =>
        pose proof (uct_option_settled id b optname optval nx st Hst) as Hb;
        destruct (option_body b optname optval nx st) as [s|s|res]
    end.
    + exact (IH _ _ _ Hb H).
    + inversion H; subst. exact Hb.
    + subst res. exact Hb.
Qed.

Lemma uct_option_not_pending b n v nx (st : Opts) :
  (forall a, playout_elo_init a <> InitPending) ->
  option_body b n v nx st <> Stop InitPending.
Proof.
  intro Helo. option_cases; try discriminate.
  exfalso. eapply Helo. eassumption.
Qed.

Lemma uct_option_exit b n v nx (st : Opts) e :
  option_body b n v nx st <> Stop (Exit1 (TailExit e)).
Proof. option_cases; discriminate. Qed.

Lemma uct_defaults_settled id b :
  settled id (@uct_defaults playout_policy uct_prior MC_GAMELEN id b).
Proof. simpl. auto. Qed.

(** X23: whatever the option string, [uct_state_init] ends, and it never
    ends on the error "fast_alloc not supported with root
    parallelization": no option sets [fast_alloc].  The engine it returns
    has [parallel_tree] set exactly when the thread model is not [TM_ROOT],
    no tree, [resign_ratio] 0.2 and a policy. *)
Theorem uct_state_init_settled id arg b :
  (forall a, playout_elo_init a <> InitPending) ->
  uct_state_init policy_ucb1_init policy_ucb1amaf_init playout_moggy_init
                 playout_light_init playout_elo_init uct_prior_init
                 playout_set_debug_level malloc_ownermap atof MC_GAMELEN
                 long_bits id arg b <> InitPending
  /\ state_init id arg b <> Exit1 (TailExit FastAllocWithRoot)
  /\ forall st, state_init id arg b = Init st ->
                fast_alloc (o_u st) = false
                /\ parallel_tree (o_u st)
                   = negb (is_TM_ROOT (thread_model (o_u st)))
                /\ u_t (o_u st) = None
                /\ u_id (o_u st) = id
                /\ resign_ratio (o_u st) = F32.round (F64.lit 2 10)
                /\ policy (o_u st) <> None.
Proof.
  intro Helo. unfold uct_state_init.
  set (st0 := uct_defaults MC_GAMELEN id b).
  set (L := match arg with
            | Some s => options ch_comma (option_body b) s st0
            | None => Init st0
            end).
  assert (HL : L <> InitPending).
  { unfold L. destruct arg as [s|]; [|discriminate].
    apply option_loop_total; [|lia].
    intros n v nx s0. now apply uct_option_not_pending. }
  assert (Hs : forall st, L = Init st -> settled id st).
  { unfold L. intros st H. destruct arg as [s|].
    - eapply option_loop_settled; [|exact H]. apply uct_defaults_settled.
    - inversion H; subst. apply uct_defaults_settled. }
  assert (He : forall e, L <> Exit1 (TailExit e)).
  { unfold L. intros e H. destruct arg as [s|]; [|discriminate].
    apply option_loop_exit in H. destruct H as [n [v [nx [s0 H]]]].
    exact (uct_option_exit _ _ _ _ _ _ H). }
  destruct L as [st|e| |]; try (now elim HL).
  - destruct (Hs st eq_refl) as [H1 [H2 [H3 [H4 H5]]]].
    unfold uct_state_init_tail. cbv zeta.
    cbn [random_policy_chance random_policy fast_alloc parallel_tree policy
         u_prior playout].
    rewrite H1. cbn [andb].
    destruct (xorb _ _).
    + split; [discriminate|]. split; [discriminate|]. intros st' H. discriminate.
    + split; [discriminate|]. split; [discriminate|].
      intros st' H. inversion H; subst st'. clear H.
      cbn [o_u fast_alloc parallel_tree thread_model u_t u_id resign_ratio policy].
      repeat (split; [assumption || reflexivity|]). discriminate.
  - split; [discriminate|]. split.
    + intro H. exact (He _ H).
    + intros st H. discriminate.
  - split; [discriminate|]. split; [discriminate|]. intros st H. discriminate.
Qed.

Lemma uct_defaults_tail id b :
  exists us,
    uct_state_init_tail (fun us => policy_ucb1amaf_init us None)
                        (uct_prior_init None) (playout_moggy_init None)
                        playout_set_debug_level malloc_ownermap
                        (o_u (@uct_defaults playout_policy uct_prior
                                            MC_GAMELEN id b)) b
    = inl us.
Proof. eexists. reflexivity. Qed.

(** X24: the options that may come without a value are [debug],
    [playout_amaf], [playout_amaf_nakade], [pondering], [no_book],
    [dynkomi], [val_extra] and [pass_all_alive], in any case of letters.
    Any other option given without '=' ends [uct_state_init] with the
    message naming it, and these eight never do. *)
Theorem uct_state_init_valueless id b (name : cstring) :
  name <> [] -> ~ In ch_comma name -> ~ In ch_equals name ->
  (uct_state_init policy_ucb1_init policy_ucb1amaf_init playout_moggy_init
                  playout_light_init playout_elo_init uct_prior_init
                  playout_set_debug_level malloc_ownermap atof MC_GAMELEN
                  long_bits id (Some name) b
   = Exit1 (InvalidEngineArgument name)
   <-> existsb (fun s => strcaseeq name (str s))
               ["debug"; "playout_amaf"; "playout_amaf_nakade"; "pondering";
                "no_book"; "dynkomi"; "val_extra"; "pass_all_alive"] = false).
Proof.
  intros Hne Hc He. unfold uct_state_init.
  pose proof (options_single ch_comma (option_body b) name None
                             (uct_defaults MC_GAMELEN id b)) as H.
  cbv zeta in H. rewrite app_nil_r in H. rewrite (H Hne Hc He). clear H.
  cbn [existsb].
  split.
  - destruct (_ || _) eqn:E; [|reflexivity].
    revert E. unfold uct_option. cbv beta zeta. cbn [has_value flag_of].
    rewrite !andb_false_r.
    repeat match goal with
           | |- context [if strcaseeq name ?s then _ else _] =>
               destruct (strcaseeq name s)
           end;
      cbn [orb]; intros E; try discriminate E.
    all: try (destruct (uct_state_init_tail _ _ _ _ _ _ _); discriminate).
    all: try (destruct (in_int _); [|discriminate];
              destruct (uct_state_init_tail _ _ _ _ _ _ _); discriminate).
  - intro E. repeat (apply orb_false_iff in E; destruct E as [?E E]).
    unfold uct_option. cbv beta zeta. cbn [has_value].
    rewrite !andb_false_r.
    repeat match goal with
           | H : strcaseeq name ?s = false |- _ => rewrite H; clear H
           end.
    reflexivity.
Qed.

(** X25: [banner] takes the rest of the option string, commas and all,
    and ends the option processing: whatever follows "banner=" is not read
    as options, the engine is the one of the defaults, and the banner is
    the text, less one trailing comma if that is its only comma. *)
Theorem uct_state_init_banner id b (text : cstring) :
  exists st st0,
    uct_state_init policy_ucb1_init policy_ucb1amaf_init playout_moggy_init
                   playout_light_init playout_elo_init uct_prior_init
                   playout_set_debug_level malloc_ownermap atof MC_GAMELEN
                   long_bits id (Some (str "banner=" ++ text)) b = Init st
    /\ state_init id None b = Init st0
    /\ o_u st = o_u st0
    /\ banner_of (o_other st) []
       = match break_at ch_comma text with
         | (v, Some []) => v
         | _ => text
         end.
Proof.
  unfold uct_state_init.
  destruct (uct_defaults_tail id b) as [us0 Htail].
  pose proof (break_at_spec ch_comma text) as Hsp.
  destruct (break_at ch_comma text) as [v rest]. destruct Hsp as [Hv Ht].
  pose proof (options_first ch_comma (option_body b) (str "banner") (Some v)
                            rest (uct_defaults MC_GAMELEN id b)) as H.
  cbv zeta in H.
  match type of H with
  | _ -> _ -> _ -> options _ _ ?a _ = _ =>
      replace (str "banner=" ++ text) with a by (rewrite Ht; reflexivity)
  end.
  rewrite H; clear H.
  2: { discriminate. }
  2: { intro Hin. simpl in Hin.
       repeat (destruct Hin as [Hin|Hin]; [discriminate Hin|]).
       exact (Hv Hin). }
  2: { intro Hin. simpl in Hin.
       repeat (destruct Hin as [Hin|Hin]; [discriminate Hin|]). exact Hin. }
  assert (Eb : forall nx st,
             option_body b (str "banner") (Some v) nx st
             = Last (assign st f_banner
                            (VStr match nx with
                                  | [] => v
                                  | _ :: _ => v ++ ch_comma :: nx
                                  end))).
  { intros nx st. reflexivity. }
  rewrite Eb. cbn [assign o_u]. rewrite Htail.
  eexists. eexists. split; [reflexivity|]. split; [reflexivity|].
  split; [reflexivity|].
  cbn [o_other uct_defaults app banner_of].
  destruct rest as [[|c t]|]; simpl in Ht |- *.
  - reflexivity.
  - now rewrite Ht.
  - now rewrite Ht, app_nil_r.
Qed.

(** X26: [threads] takes any number.  A count of 0 or less is accepted by
    [uct_state_init], and with that count no search ever returns: the
    assertion of [uct_search_start] fails. *)
Theorem uct_state_init_threads id b (v : cstring) (n : Z) :
  ~ In ch_comma v -> atoi v = Some n -> n <= 0 ->
  exists st,
    uct_state_init policy_ucb1_init policy_ucb1amaf_init playout_moggy_init
                   playout_light_init playout_elo_init uct_prior_init
                   playout_set_debug_level malloc_ownermap atof MC_GAMELEN
                   long_bits id (Some (str "threads=" ++ v)) b = Init st
    /\ threads (o_u st) = n
    /\ forall DEBUGL_ tree_node_get_value time_in_byoyomi
              board_estimated_moves_left MIN_MOVES_LEFT
              (w : @world playout_policy uct_prior) b' ti color env r,
        threads (w_u w) = threads (o_u st) ->
        uct_search DEBUGL_ tree_node_get_value time_in_byoyomi
                   board_estimated_moves_left MIN_MOVES_LEFT w b' ti color env
        <> Done r.
Proof.
  intros Hv Hn Hle. unfold uct_state_init.
  pose proof (options_single ch_comma (option_body b) (str "threads") (Some v)
                             (uct_defaults MC_GAMELEN id b)) as H.
  cbv zeta in H.
  change (str "threads=" ++ v) with (str "threads" ++ ch_equals :: v).
  rewrite H; clear H.
  2: { discriminate. }
  2: { intro Hin. simpl in Hin.
       repeat (destruct Hin as [Hin|Hin]; [discriminate Hin|]).
       exact (Hv Hin). }
  2: { intro Hin. simpl in Hin.
       repeat (destruct Hin as [Hin|Hin]; [discriminate Hin|]). exact Hin. }
  assert (Eb : forall nx st,
             option_body b (str "threads") (Some v) nx st
             = Next (upd st (fun us => set_threads us n))).
  { intros nx st. unfold uct_option. cbv beta zeta.
    change (strcaseeq (str "threads") (str "threads")) with true.
    cbn. unfold with_int. rewrite Hn. reflexivity. }
  rewrite Eb.
  eexists. split; [reflexivity|]. split; [reflexivity|].
  intros DEBUGL_ tnv tib beml mml w b' ti color env r Hth Hs.
  destruct r as [[w' ti'] g].
  apply uct_search_post in Hs. destruct Hs as [_ [Hpos _]].
  rewrite Hth in Hpos. cbn in Hpos. lia.
Qed.

(** X28: the option [playout=elo:...] hands everything after "elo:" up
    to the next comma to [playout_elo_init], '=' and ':' included.  When
    that call exits, [uct_state_init] has exited with its message; when it
    returns a policy, that policy becomes the playout policy of the engine,
    with the debug level of the engine set on it. *)
Theorem uct_state_init_playout_elo id b (eloarg : cstring) :
  ~ In ch_comma eloarg ->
  (forall e,
      playout_elo_init (Some eloarg) = Exit1 e ->
      uct_state_init policy_ucb1_init policy_ucb1amaf_init playout_moggy_init
                     playout_light_init playout_elo_init uct_prior_init
                     playout_set_debug_level malloc_ownermap atof MC_GAMELEN
                     long_bits id (Some (str "playout=elo:" ++ eloarg)) b
      = Exit1 (PlayoutEloExit e))
  /\ (forall p,
        playout_elo_init (Some eloarg) = Init p ->
        exists st,
          state_init id (Some (str "playout=elo:" ++ eloarg)) b = Init st
          /\ playout (o_u st) = Some (playout_set_debug_level p 1)).
Proof.
  intros Hv. unfold uct_state_init.
  pose proof (options_single ch_comma (option_body b) (str "playout")
                             (Some (str "elo:" ++ eloarg))
                             (uct_defaults MC_GAMELEN id b)) as H.
  cbv zeta in H.
  change (str "playout=elo:" ++ eloarg)
    with (str "playout" ++ ch_equals :: str "elo:" ++ eloarg).
  rewrite H; clear H.
  2: { discriminate. }
  2: { intro Hin. simpl in Hin.
       repeat (destruct Hin as [Hin|Hin]; [discriminate Hin|]).
       exact (Hv Hin). }
  2: { intro Hin. simpl in Hin.
       repeat (destruct Hin as [Hin|Hin]; [discriminate Hin|]). exact Hin. }
  assert (Eb : forall nx st,
             option_body b (str "playout") (Some (str "elo:" ++ eloarg)) nx st
             = match playout_elo_init (Some eloarg) with
               | Init p => Next (upd st (fun us => set_playout us (Some p)))
               | Exit1 e => Stop (Exit1 (PlayoutEloExit e))
               | InitUndefined => Stop InitUndefined
               | InitPending => Stop InitPending
               end).
  { intros nx st. reflexivity. }
  rewrite Eb. split.
  - intros e He. rewrite He. reflexivity.
  - intros p Hp. rewrite Hp. eexists. split; reflexivity.
Qed.

(** X27: the comment of the engine fits its buffer exactly: the bytes
    [sprintf] writes, the final NUL included, are as many as
    [engine_uct_init] asks of [malloc]. *)
Theorem engine_uct_init_comment_fits id arg b e :
  engine_uct_init policy_ucb1_init policy_ucb1amaf_init playout_moggy_init
                  playout_light_init playout_elo_init uct_prior_init
                  playout_set_debug_level malloc_ownermap atof MC_GAMELEN
                  long_bits id arg b = Init e ->
  Z.of_nat (length (e_comment e)) + 1 = e_comment_size e
  /\ state_init id arg b = Init (e_data e).
Proof.
  unfold engine_uct_init.
  generalize (@engine_banner). intro eb.
  destruct (state_init id arg b) as [st| | |]; try discriminate.
  intro H. inversion H; subst e. clear H. cbn [e_comment e_comment_size e_data].
  split; [|reflexivity].
  rewrite length_app. cbn [str String.list_ascii_of_string app length]. lia.
Qed.

End UctInitFacts.

(* ---------------------------------------------------------------- *)
(** ** The properties at example inputs *)

Section HookWitnesses.
Import Uct UctHooks Examples MoreExamples.

Local Abbreviation prepare0 :=
  (prepare_move debugl tree_init0 tree_load0 extra_komi0).
Local Abbreviation search0 :=
  (uct_search debugl node_value0 byoyomi0 moves_left0 30).
Local Abbreviation loop0_ := (search_loop debugl node_value0).
Local Abbreviation genmove0 :=
  (uct_genmove debugl tree_init0 tree_load0 extra_komi0 node_value0 promote0 tt
               judge0 dead0 safe0 byoyomi0 moves_left0 30 playout0 board_play0).
Local Abbreviation notify0 :=
  (uct_notify_play debugl tree_init0 tree_load0 extra_komi0 promote_at0).
Local Abbreviation dead_groups0 :=
  (uct_dead_group_list debugl tree_init0 tree_load0 extra_komi0 judge0 dead0
                       playout0).
Local Abbreviation genbook0 :=
  (uct_genbook debugl tree_init0 tree_load0 extra_komi0 node_value0 byoyomi0
               moves_left0 30 save0).

Lemma prepare_move_returns_witness :
  exists w' b',
    prepare0 (world0 None 0) board_mid S_WHITE = Done (w', b')
    /\ has_tree (w_u w') = true
    /\ om_playouts (ownermap (w_u w')) = 0.
Proof.
  assert (E : exists w' b',
             prepare0 (world0 None 0) board_mid S_WHITE = Done (w', b'))
    by (vm_compute; eauto).
  destruct E as [w' [b' E]]. exists w', b'. split; [exact E|].
  destruct (prepare_move_returns debugl tree_init0 tree_load0 extra_komi0
              _ _ _ _ _ E) as [H1 [H2 _]].
  split; assumption.
Defined.

Lemma uct_search_returns_witness :
  exists w' ti' g,
    search0 (world0 (Some bare_tree) 0) board_mid (ti_games 1000) S_WHITE
            (ge_search env_lost) = Done (w', ti', g)
    /\ w_running w' = false /\ g = 1001.
Proof.
  assert (E : exists w' ti' g,
             search0 (world0 (Some bare_tree) 0) board_mid (ti_games 1000)
                     S_WHITE (ge_search env_lost) = Done (w', ti', g))
    by (vm_compute; eauto).
  destruct E as [w' [ti' [g E]]]. exists w', ti', g. split; [exact E|].
  destruct (uct_search_returns debugl node_value0 byoyomi0 moves_left0 30
              _ _ _ _ _ _ _ _ E) as [_ [_ [_ [H1 [_ [H2 _]]]]]].
  split.
  - exact H1.
  - rewrite H2. reflexivity.
Defined.

Lemma search_loop_hard_limit_witness :
  exists w' why,
    loop0_ (world0 (Some bare_tree) 0) board_mid (ti_games 1000) S_WHITE
           (stop_p 1000 1000) 10000
           ([poll_of bare_tree] ++ poll_of past_tree :: [poll_of bare_tree])
           loop0
    = Done (w', why)
    /\ w_u w' = w_u (world0 (Some bare_tree) 0)
    /\ w_running w' = w_running (world0 (Some bare_tree) 0).
Proof.
  apply (search_loop_hard_limit debugl node_value0 [poll_of bare_tree]
           (world0 (Some bare_tree) 0) board_mid (ti_games 1000) S_WHITE
           (stop_p 1000 1000) 10000 (poll_of past_tree) [poll_of bare_tree]
           loop0 policy0).
  - reflexivity.
  - intros q [Hq|[]]. subst q. intros p Hp. discriminate Hp.
  - unfold past_worst. simpl. lia.
Defined.

Lemma uct_genmove_returns_witness :
  exists c w',
    genmove0 0%nat (world0 None 0) board_mid (ti_games 1000) S_WHITE false
             env_lost = Done (c, w')
    /\ (u_t (w_u w') = None -> c = pass \/ c = resign).
Proof.
  assert (E : exists c w',
             genmove0 0%nat (world0 None 0) board_mid (ti_games 1000) S_WHITE
                      false env_lost = Done (c, w'))
    by (vm_compute; eauto).
  destruct E as [c [w' E]]. exists c, w'. split; [exact E|].
  exact (proj2 (uct_genmove_returns debugl tree_init0 tree_load0 extra_komi0
                  node_value0 promote0 tt judge0 dead0 safe0 byoyomi0
                  moves_left0 30 playout0 board_play0 _ _ _ _ _ _ _ _ _ E)).
Defined.

Lemma uct_notify_play_returns_witness :
  exists w' b' warns,
    notify0 (world0 (Some won_tree) 0) board_mid move_12 won_tree
    = Done (w', b', warns)
    /\ w_running w' = false
    /\ pondering (w_u w') = false.
Proof.
  assert (E : exists w' b' warns,
             notify0 (world0 (Some won_tree) 0) board_mid move_12 won_tree
             = Done (w', b', warns))
    by (vm_compute; eauto).
  destruct E as [w' [b' [warns E]]]. exists w', b', warns. split; [exact E|].
  destruct (uct_notify_play_returns debugl tree_init0 tree_load0 extra_komi0
              promote_at0 _ _ _ _ _ _ _ E) as [H1 [H2 _]].
  split; assumption.
Defined.

Lemma uct_dead_group_list_returns_witness :
  exists w' b' mq',
    dead_groups0 (world0 None 0) board_mid tt won_tree = Done (w', b', mq')
    /\ w_running w' = false
    /\ has_tree (w_u w') = false.
Proof.
  assert (E : exists w' b' mq',
             dead_groups0 (world0 None 0) board_mid tt won_tree
             = Done (w', b', mq'))
    by (vm_compute; eauto).
  destruct E as [w' [b' [mq' E]]]. exists w', b', mq'. split; [exact E|].
  destruct (uct_dead_group_list_returns debugl tree_init0 tree_load0
              extra_komi0 judge0 dead0 playout0 _ _ _ _ _ _ _
              (fun us b c => eq_refl) E) as [H1 [H2 _]].
  split; assumption.
Defined.

Lemma uct_done_returns_witness :
  exists w',
    uct_done debugl (world0 (Some won_tree) 0) won_tree = Done w'
    /\ has_tree (w_u w') = false.
Proof.
  assert (E : exists w',
             uct_done debugl (world0 (Some won_tree) 0) won_tree = Done w')
    by (vm_compute; eauto).
  destruct E as [w' E]. exists w'. split; [exact E|].
  exact (proj1 (uct_done_returns debugl _ _ _ E)).
Defined.

Lemma uct_genbook_returns_witness :
  exists w' b' ti' bk,
    genbook0 (world0 (Some bare_tree) 0) board_mid (ti_games 100) S_WHITE
             env_book = Done (w', b', ti', bk)
    /\ len ti' = len_games 1100
    /\ bk = (book_tree, 11).
Proof.
  assert (E : exists w' b' ti' bk,
             genbook0 (world0 (Some bare_tree) 0) board_mid (ti_games 100)
                      S_WHITE env_book = Done (w', b', ti', bk))
    by (vm_compute; eauto).
  destruct E as [w' [b' [ti' [bk E]]]]. exists w', b', ti', bk.
  split; [exact E|].
  destruct (uct_genbook_returns debugl tree_init0 tree_load0 extra_komi0
              node_value0 byoyomi0 moves_left0 30 save0 _ _ _ _ _ _ _ _ _ E)
    as [_ [_ H]].
  exact (H 100 bare_tree eq_refl eq_refl eq_refl).
Defined.


Local Abbreviation manager0 :=
  (spawn_thread_manager debugl TreeSpec.tree_copy TreeSpec.tree_merge
                        TreeSpec.tree_normalize random0 worker0).

Lemma spawn_thread_manager_joins_all_witness :
  exists h' p g,
    manager0 uct_root mctx0 store0 events0 = Done (h', p, g)
    /\ threads uct_root <= Z.of_nat (length (joins events0)).
Proof.
  assert (E : exists h' p g,
             manager0 uct_root mctx0 store0 events0 = Done (h', p, g))
    by (vm_compute; eauto).
  destruct E as [h' [p [g E]]]. exists h', p, g. split; [exact E|].
  exact (spawn_thread_manager_joins_all debugl TreeSpec.tree_copy
           TreeSpec.tree_merge TreeSpec.tree_normalize random0 worker0
           uct_root mctx0 store0 events0 h' p g E).
Defined.

Lemma spawn_thread_manager_shared_witness :
  exists h' p g,
    manager0 (uct0 (Some won_tree) 0) mctx0 store0 [0] = Done (h', p, g)
    /\ p = ctx_t mctx0
    /\ next h' = next store0.
Proof.
  assert (E : exists h' p g,
             manager0 (uct0 (Some won_tree) 0) mctx0 store0 [0]
             = Done (h', p, g))
    by (vm_compute; eauto).
  destruct E as [h' [p [g E]]]. exists h', p, g. split; [exact E|].
  destruct (spawn_thread_manager_shared debugl TreeSpec.tree_copy
              TreeSpec.tree_merge TreeSpec.tree_normalize random0 worker0
              (uct0 (Some won_tree) 0) mctx0 store0 [0] h' p g eq_refl E)
    as [H1 [H2 _]].
  split; assumption.
Defined.

Lemma store0_unallocated : forall q, (next store0 <= q)%nat -> cells store0 q = None.
Proof. intros q Hq. destruct q; [inversion Hq|reflexivity]. Defined.

Lemma spawn_thread_manager_root_frees_witness :
  exists h' p g,
    manager0 uct_root mctx0 store0 events0 = Done (h', p, g)
    /\ p = ctx_t mctx0
    /\ next h' = 3%nat
    /\ cells h' 1%nat = None /\ cells h' 2%nat = None.
Proof.
  assert (E : exists h' p g,
             manager0 uct_root mctx0 store0 events0 = Done (h', p, g))
    by (vm_compute; eauto).
  destruct E as [h' [p [g E]]]. exists h', p, g. split; [exact E|].
  destruct (spawn_thread_manager_root_frees debugl TreeSpec.tree_copy
              TreeSpec.tree_merge TreeSpec.tree_normalize random0 worker0
              uct_root mctx0 store0 won_tree eq_refl (Nat.le_refl 1)
              store0_unallocated events0 h' p g eq_refl eq_refl E)
    as [H1 [H2 H3]].
  split; [exact H1|]. split; [exact H2|].
  split; [apply (H3 1%nat) | apply (H3 2%nat)]; discriminate.
Defined.

Lemma uct_pondering_start_stop_witness :
  exists w1 w2,
    uct_pondering_start debugl board_play0 (world0 (Some won_tree) 0) board_mid
                        won_tree S_WHITE = Done w1
    /\ w_running w1 = true
    /\ uct_pondering_stop debugl w1 lost_tree = Done w2
    /\ w_running w2 = false
    /\ u_t (w_u w2) = Some lost_tree.
Proof.
  assert (E : exists w1,
             uct_pondering_start debugl board_play0 (world0 (Some won_tree) 0)
                                 board_mid won_tree S_WHITE = Done w1
             /\ w_running w1 = true)
    by (vm_compute; eauto).
  destruct E as [w1 [E Er]]. exists w1.
  destruct (uct_pondering_start_stop debugl board_play0 _ _ _ _ _ lost_tree E)
    as [w2 [H1 [H2 [_ [H3 _]]]]].
  exists w2. repeat (split; [assumption|]). exact H3.
Defined.

Lemma fill_ownermap_ends_witness :
  exists us',
    fill_ownermap playout0 500 (uct0 None 0) board_mid S_BLACK = Done us'
    /\ om_playouts (ownermap us') = 500.
Proof.
  destruct (fill_ownermap_ends playout0 500 (uct0 None 0) board_mid S_BLACK
              (fun _ _ _ => eq_refl) (Nat.le_refl 500)) as [H1 H2].
  eexists. split; [exact H1|exact H2].
Defined.

Lemma playout_elo_assess_no_moves_witness :
  snd (Elo.elo_get_probdist valid_all eye_13 match_two gamma_small
                            (Elo.assess pp0) board_eye S_BLACK) = 0
  /\ forall c v,
      In (c, v) (Elo.prior_calls
                   (fst (Elo.elo_get_probdist valid_all eye_13 match_two
                           gamma_small (Elo.assess pp0) board_eye S_BLACK))
                   (fun _ => true) (b_f board_eye) 0) ->
      is_nan v = true.
Proof.
  split; [reflexivity|].
  exact (proj2 (proj2 (playout_elo_assess_no_moves valid_all eye_13 match_two
                         gamma_small record_prior pp0 map_eye 10 eq_refl))).
Defined.

Lemma first_move_not_black_aborts_witness :
  exists out, prepare0 world_book board2 S_WHITE = Aborted out.
Proof.
  exact (proj1 (first_move_not_black_aborts debugl tree_init0 tree_load0
                  extra_komi0 node_value0 promote0 tt judge0 dead0 safe0
                  byoyomi0 moves_left0 30 playout0 board_play0 promote_at0
                  world_book board2 S_WHITE eq_refl eq_refl eq_refl eq_refl)).
Defined.

Lemma uct_search_returns_within_budget_witness :
  exists w',
    search0 (world0 (Some bare_tree) 0) board_mid (ti_games 1000) S_WHITE
            (ge_search env_lost)
    = Done (w', ti_games 1000, 1001)
    /\ w_running w' = false
    /\ u_t (w_u w') = Some lost_tree.
Proof.
  apply (uct_search_returns_within_budget debugl node_value0 byoyomi0
           moves_left0 30 (world0 (Some bare_tree) 0) board_mid
           (ti_games 1000) S_WHITE (ge_search env_lost) bare_tree policy0 1000
           [] (poll_of past_tree) []);
    try reflexivity.
  - intros q [].
Defined.

Lemma uct_state_init_tail_consistent_witness :
  exists us,
    uct_state_init_tail policy_init0 prior_init0 tt set_debug0 malloc0
                        (uct0 None 0) board_mid = inl us
    /\ policy us <> None.
Proof.
  assert (E : exists us,
             uct_state_init_tail policy_init0 prior_init0 tt set_debug0 malloc0
                                 (uct0 None 0) board_mid = inl us)
    by (vm_compute; eauto).
  destruct E as [us E]. exists us. split; [exact E|].
  pose proof (uct_state_init_tail_consistent policy_init0 prior_init0 tt
                set_debug0 malloc0 (uct0 None 0) board_mid) as H.
  rewrite E in H. exact (proj1 H).
Defined.

Lemma elo_get_probdist_moves_witness :
  snd (Elo.elo_get_probdist valid_all eye_13 match_two gamma_small ps0
                            board_eye S_BLACK) = 0
  /\ probdist_total (fst (Elo.elo_get_probdist valid_all eye_13 match_two
                            gamma_small ps0 board_eye S_BLACK)) = F32.zero.
Proof.
  pose proof (elo_get_probdist_moves valid_all eye_13 match_two gamma_small
                ps0 board_eye S_BLACK) as H.
  destruct (Elo.elo_get_probdist valid_all eye_13 match_two gamma_small ps0
                                 board_eye S_BLACK) as [pd moves] eqn:E.
  destruct H as [H1 [_ [_ H2]]].
  assert (H0 : moves = 0) by (rewrite H1; reflexivity).
  split; [exact H0|]. exact (proj2 (H2 H0)).
Defined.

End HookWitnesses.

Section InitWitnesses.
Import Uct CStr OptArg EloInit UctInit UctChat Examples MoreExamples.
Import String.StringSyntax.
Local Open Scope string_scope.

Lemma uct_chat_answers_witness :
  uct_chat node_value0 (uct0 None 0) board_mid (str "  WinRate now")
  = Done NoGameContext.
Proof.
  apply (proj1 (uct_chat_answers node_value0 (uct0 None 0) board_mid
                  (str "  WinRate now"))
               (str "  ") (str "WinRate") (str " now"));
    reflexivity.
Defined.

Lemma uct_chat_extra_komi_below_one_witness :
  fgeb (F64.of_float (SFabs (extra_komi komi_tree))) (F64.lit 5 10) = true
  /\ exists r,
      uct_chat node_value0 (uct0 (Some komi_tree) 0) board_mid (str "winrate")
      = Done r
      /\ (r = NoReply
          \/ r = Winrate 3100 1 S_BLACK pass
                         (F32.mul (f32 1 2) (F32.of_Z 100)) None).
Proof.
  split; [reflexivity|].
  assert (E : exists r,
             uct_chat node_value0 (uct0 (Some komi_tree) 0) board_mid
                      (str "winrate") = Done r)
    by (vm_compute; eauto).
  destruct E as [r E]. exists r. split; [exact E|].
  exact (uct_chat_extra_komi_below_one node_value0 (uct0 (Some komi_tree) 0)
           board_mid (str "winrate") komi_tree r eq_refl eq_refl eq_refl E).
Defined.

Lemma playout_elo_init_invalid_option_witness :
  elo_init0 (Some (str "xspat:gammafile=x"))
  = Exit1 (InvalidPolicyArgument (str "xspat")).
Proof.
  apply (playout_elo_init_invalid_option (str "patterns.gamma") tt tt
           spat_dict0 dict_init0 gamma_init0 4 2 [1; 1; 1; 1] [1; 0; 1; 0]
           atof0 (str "xspat") None (Some (str "gammafile=x"))).
  - discriminate.
  - intro H. simpl in H.
    repeat (destruct H as [H|H]; [discriminate H|]). exact H.
  - intro H. simpl in H.
    repeat (destruct H as [H|H]; [discriminate H|]). exact H.
  - left. reflexivity.
Defined.

Lemma playout_elo_init_xspat_witness :
  exists r,
    elo_init0 (Some (str "xspat=1")) = Init r
    /\ Elo.ps (Elo.assess (ep_policy r)) = [0; 0; 1; 0]
    /\ nth 2 (Elo.ps (Elo.choose (ep_policy r))) 0 = 1.
Proof.
  destruct (playout_elo_init_xspat (str "patterns.gamma") tt tt spat_dict0
              dict_init0 gamma_init0 4 2 [1; 1; 1; 1] [1; 0; 1; 0] atof0
              (str "1") 1 eq_refl eq_refl) as [r [E [H _]]].
  - vm_compute. discriminate.
  - intro H. simpl in H.
    repeat (destruct H as [H|H]; [discriminate H|]). exact H.
  - reflexivity.
  - exists r. split; [exact E|]. split.
    + change (elo_init0 (Some (str "xspat=1")) = Init r) in E.
      vm_compute in E. inversion E. reflexivity.
    + assert (H2 : (2 < 4)%nat) by lia.
      exact (proj2 (H 2%nat H2)).
Defined.

Lemma playout_elo_init_gammafiles_witness :
  exists r,
    elo_init0 (Some (str "gammafile=my.gamma")) = Init r
    /\ ep_cgammafile r = ep_gammafile r ++ str "f".
Proof.
  assert (E : exists r, elo_init0 (Some (str "gammafile=my.gamma")) = Init r)
    by (vm_compute; eauto).
  destruct E as [r E]. exists r. split; [exact E|].
  destruct (playout_elo_init_gammafiles (str "patterns.gamma") tt tt
              spat_dict0 dict_init0 gamma_init0 4 2 [1; 1; 1; 1] [1; 0; 1; 0]
              atof0) as [_ [H _]].
  exact (proj1 (H _ _ E)).
Defined.

Lemma playout_elo0_total (a : option cstring) : playout_elo0 a <> InitPending.
Proof.
  unfold playout_elo0.
  pose proof (playout_elo_init_total (str "patterns.gamma") tt tt spat_dict0
                dict_init0 gamma_init0 4 2 [1; 1; 1; 1] [1; 0; 1; 0] atof0 a)
    as H.
  fold (elo_init0 a) in H.
  destruct (elo_init0 a); try discriminate. contradiction.
Defined.

Lemma uct_state_init_settled_witness :
  exists st,
    state_init0 (Some (str "thread_model=root,Threads=4,debug")) = Init st
    /\ fast_alloc (o_u st) = false
    /\ parallel_tree (o_u st) = negb (is_TM_ROOT (thread_model (o_u st))).
Proof.
  assert (E : exists st,
             state_init0 (Some (str "thread_model=root,Threads=4,debug"))
             = Init st)
    by (vm_compute; eauto).
  destruct E as [st E]. exists st. split; [exact E|].
  destruct (uct_state_init_settled policy_arg0 policy_arg0 playout_arg0
              playout_arg0 playout_elo0 prior_arg0 set_debug0 malloc0 atof0
              600 64 1%nat (Some (str "thread_model=root,Threads=4,debug"))
              board_mid playout_elo0_total) as [_ [_ H]].
  destruct (H st E) as [H1 [H2 _]]. split; assumption.
Defined.

Lemma uct_state_init_valueless_witness :
  state_init0 (Some (str "threads"))
  = Exit1 (InvalidEngineArgument (str "threads")).
Proof.
  apply (uct_state_init_valueless policy_arg0 policy_arg0 playout_arg0
           playout_arg0 playout_elo0 prior_arg0 set_debug0 malloc0 atof0
           600 64 1%nat board_mid (str "threads")).
  - discriminate.
  - intro H. simpl in H.
    repeat (destruct H as [H|H]; [discriminate H|]). exact H.
  - intro H. simpl in H.
    repeat (destruct H as [H|H]; [discriminate H|]). exact H.
  - reflexivity.
Defined.

Lemma uct_state_init_threads_witness :
  exists st,
    state_init0 (Some (str "threads=0")) = Init st
    /\ threads (o_u st) = 0.
Proof.
  destruct (uct_state_init_threads policy_arg0 policy_arg0 playout_arg0
              playout_arg0 playout_elo0 prior_arg0 set_debug0 malloc0 atof0
              600 64 1%nat board_mid (str "0") 0) as [st [E [H _]]].
  - intro H. simpl in H.
    repeat (destruct H as [H|H]; [discriminate H|]). exact H.
  - reflexivity.
  - lia.
  - exists st. split; assumption.
Defined.

Lemma uct_state_init_playout_elo_witness :
  state_init0 (Some (str "playout=elo:xspat"))
  = Exit1 (PlayoutEloExit (InvalidPolicyArgument (str "xspat"))).
Proof.
  assert (Hv : ~ In ch_comma (str "xspat")).
  { intro H. simpl in H.
    repeat (destruct H as [H|H]; [discriminate H|]). exact H. }
  apply (proj1 (uct_state_init_playout_elo policy_arg0 policy_arg0
                  playout_arg0 playout_arg0 playout_elo0 prior_arg0 set_debug0
                  malloc0 atof0 600 64 1%nat board_mid (str "xspat") Hv)).
  reflexivity.
Defined.

Lemma engine_uct_init_comment_fits_witness :
  exists e,
    engine_init0 (Some (str "banner=hi, there")) = Init e
    /\ Z.of_nat (length (e_comment e)) + 1 = e_comment_size e.
Proof.
  assert (E : exists e, engine_init0 (Some (str "banner=hi, there")) = Init e)
    by (vm_compute; eauto).
  destruct E as [e E]. exists e. split; [exact E|].
  exact (proj1 (engine_uct_init_comment_fits policy_arg0 policy_arg0
                  playout_arg0 playout_arg0 playout_elo0 prior_arg0 set_debug0
                  malloc0 atof0 600 64 1%nat _ _ e E)).
Defined.

End InitWitnesses.
